(** * Daedalus: the maze server of gc6 (commands/daedalus.go)

    A shallow embedding of the maze data model, the navigation methods
    ([GetRoom], [Discover], [LookAround], [MoveLeft] ...), the four
    generators ([carvePassagesFrom], [kruskal], [prim],
    [recursiveDivision]) and the request handlers ([GetStartingPoint],
    [MoveDirection]), followed by the properties established about
    them. *)

From Stdlib Require Import ZArith Lia Bool.
From Stdlib Require DecimalString.
From stdpp Require Import base tactics option list strings relations.

Local Open Scope Z_scope.

(** ** Go's [int]

    On the 64-bit targets the server is built for, [int] is a 64-bit
    two's-complement integer; [+] and [-] wrap around silently. *)
Module GoInt.

Definition min_int : Z := - 2 ^ 63.
Definition max_int : Z := 2 ^ 63 - 1.

Definition wrap (z : Z) : Z := (z + 2 ^ 63) mod 2 ^ 64 - 2 ^ 63.

Definition add (a b : Z) : Z := wrap (a + b).
Definition sub (a b : Z) : Z := wrap (a - b).

Definition in_range (z : Z) : Prop := min_int <= z <= max_int.

End GoInt.

Infix "+i" := GoInt.add (at level 50, left associativity).
Infix "-i" := GoInt.sub (at level 50, left associativity).

(** ** Outcomes

    A Go call either returns or panics (index out of range, [make] with a
    negative length, [rand.Intn] with a non-positive bound).  [Timeout] is
    only produced by the fuel-bounded loops further down. *)
Inductive res (A : Type) : Type :=
| Ok (a : A)
| Panic
| Timeout.
Arguments Ok {A} a.
Arguments Panic {A}.
Arguments Timeout {A}.

#[global] Instance res_ret : MRet res := fun A a => Ok a.
#[global] Instance res_bind : MBind res := fun A B k c =>
  match c with
  | Ok a => k a
  | Panic => Panic
  | Timeout => Timeout
  end.

#[global] Instance res_fmap : FMap res := fun A B f c =>
  match c with
  | Ok a => Ok (f a)
  | Panic => Panic
  | Timeout => Timeout
  end.

(** The values of the [error] interface this file creates or returns;
    [mazelib.ErrVictory] is the one declared by package mazelib. *)
Inductive error : Type :=
| ErrVictory            (* mazelib.ErrVictory *)
| ErrOutside            (* "room outside of maze boundaries" *)
| ErrWall               (* "Can't walk through walls" *)
| ErrStartInTreasure    (* "can't start in the treasure" *)
| ErrTreasureAtStart.   (* "can't have the treasure at the start" *)

(** ** mazelib *)
Module mazelib.

(** Modelled from the spec: the declarations of package mazelib
    ([Survey], [Room], [Coordinate], the direction constants and the
    methods [AddWall]/[RmWall]) are not part of commands/daedalus.go.
    A survey is four wall-present booleans; daedalus.go reads them as
    [Top], [Right], [Bottom] and [Left]. *)
Record Survey : Type := mkSurvey
  { Top : bool; Right : bool; Bottom : bool; Left : bool }.

(** Modelled from the spec: a cell carries its four wall flags, the
    [visited] scratch flag and the start and treasure markers. *)
Record Room : Type := mkRoom
  { Treasure : bool; Start : bool; Visited : bool; Walls : Survey }.

(** Modelled from the spec: a coordinate is an integer pair, [X] the
    column and [Y] the row. *)
Record Coordinate : Type := mkCoordinate { X : Z; Y : Z }.

(** Modelled from the spec: the four compass directions (the Go
    constants [mazelib.N], [mazelib.S], [mazelib.E], [mazelib.W]). *)
Inductive Direction : Type := N | S | E | W.

(** Modelled from the spec: [addWall]/[removeWall] mutate exactly one
    cell's one wall flag.  North is the top wall, South the bottom, East
    the right and West the left one, as [DX]/[DY] and the move methods
    have it. *)
Definition setWall (d : Direction) (b : bool) (s : Survey) : Survey :=
  match d with
  | N => mkSurvey b (Right s) (Bottom s) (Left s)
  | E => mkSurvey (Top s) b (Bottom s) (Left s)
  | S => mkSurvey (Top s) (Right s) b (Left s)
  | W => mkSurvey (Top s) (Right s) (Bottom s) b
  end.

Definition wall (d : Direction) (s : Survey) : bool :=
  match d with
  | N => Top s
  | E => Right s
  | S => Bottom s
  | W => Left s
  end.

Definition AddWall (d : Direction) (r : Room) : Room :=
  mkRoom (Treasure r) (Start r) (Visited r) (setWall d true (Walls r)).

Definition RmWall (d : Direction) (r : Room) : Room :=
  mkRoom (Treasure r) (Start r) (Visited r) (setWall d false (Walls r)).

(** The zero values [mazelib.Survey{}] and [mazelib.Room{}]. *)
Definition zeroSurvey : Survey := mkSurvey false false false false.
Definition zeroRoom : Room := mkRoom false false false zeroSurvey.

End mazelib.
Import mazelib.

#[global] Instance Direction_eq_dec : EqDecision Direction.
Proof. solve_decision. Defined.
#[global] Instance Survey_eq_dec : EqDecision Survey.
Proof. solve_decision. Defined.
#[global] Instance Room_eq_dec : EqDecision Room.
Proof. solve_decision. Defined.
#[global] Instance Coordinate_eq_dec : EqDecision Coordinate.
Proof. solve_decision. Defined.

(** ** The maze *)
Record Maze : Type := mkMaze
  { rooms : list (list Room);
    start : Coordinate;
    end_ : Coordinate;
    icarus : Coordinate;
    StepsTaken : Z }.

(** What a [*mazelib.Room] obtained from [GetRoom] points at: a slot of
    the grid, or the fresh [&mazelib.Room{}] handed out together with the
    boundary error. *)
Inductive RoomRef : Type :=
| InGrid (x y : Z)
| Fresh.

(** [m.rooms[y][x]] for indices that are in range. *)
Definition roomAt (m : Maze) (x y : Z) : option Room :=
  if (x <? 0) || (y <? 0) then None
  else row ← rooms m !! Z.to_nat y; row !! Z.to_nat x.

Definition load (m : Maze) (p : RoomRef) : Room :=
  match p with
  | InGrid x y => default zeroRoom (roomAt m x y)
  | Fresh => zeroRoom
  end.

Definition setRooms (m : Maze) (rs : list (list Room)) : Maze :=
  mkMaze rs (start m) (end_ m) (icarus m) (StepsTaken m).

(** A write through the pointer; a write to a fresh room is lost. *)
Definition store (m : Maze) (p : RoomRef) (r : Room) : Maze :=
  match p with
  | InGrid x y =>
      if (x <? 0) || (y <? 0) then m
      else setRooms m (alter (<[Z.to_nat x := r]>) (Z.to_nat y) (rooms m))
  | Fresh => m
  end.

Definition update (m : Maze) (p : RoomRef) (f : Room -> Room) : Maze :=
  store m p (f (load m p)).

(** [len(m.rooms[0])] panics on a maze without rows. *)
Definition Width (m : Maze) : res Z :=
  match rooms m with
  | [] => Panic
  | row :: _ => Ok (Z.of_nat (length row))
  end.

Definition Height (m : Maze) : Z := Z.of_nat (length (rooms m)).

(** [GetRoom]: the condition is evaluated left to right with
    short-circuit, so [Width] is only called for [x >= 0] and [y >= 0]. *)
Definition GetRoom (m : Maze) (x y : Z) : res (RoomRef * option error) :=
  if (x <? 0) || (y <? 0) then Ok (Fresh, Some ErrOutside)
  else
    w ← Width m;
    if (x >=? w) || (y >=? Height m) then Ok (Fresh, Some ErrOutside)
    else match roomAt m x y with
         | Some _ => Ok (InGrid x y, None)
         | None => Panic
         end.

Definition Icarus (m : Maze) : Z * Z := (X (icarus m), Y (icarus m)).

Definition SetStartPoint (m : Maze) (x y : Z) : res (Maze * option error) :=
  '(r, err) ← GetRoom m x y;
  match err with
  | Some e => Ok (m, Some e)
  | None =>
      if Treasure (load m r) then Ok (m, Some ErrStartInTreasure)
      else
        let m1 := update m r (fun c => mkRoom (Treasure c) true (Visited c) (Walls c)) in
        Ok (mkMaze (rooms m1) (start m1) (end_ m1) (mkCoordinate x y) (StepsTaken m1),
            None)
  end.

Definition SetTreasure (m : Maze) (x y : Z) : res (Maze * option error) :=
  '(r, err) ← GetRoom m x y;
  match err with
  | Some e => Ok (m, Some e)
  | None =>
      if Start (load m r) then Ok (m, Some ErrTreasureAtStart)
      else
        let m1 := update m r (fun c => mkRoom true (Start c) (Visited c) (Walls c)) in
        Ok (mkMaze (rooms m1) (start m1) (mkCoordinate x y) (icarus m1) (StepsTaken m1),
            None)
  end.

(** [Discover]: the boundary error of [GetRoom] is dropped. *)
Definition Discover (m : Maze) (x y : Z) : res (Survey * option error) :=
  '(r, err) ← GetRoom m x y;
  match err with
  | Some _ => Ok (zeroSurvey, None)
  | None => Ok (Walls (load m r), None)
  end.

Definition LookAround (m : Maze) : res (Survey * option error) :=
  if (X (end_ m) =? X (icarus m)) && (Y (end_ m) =? Y (icarus m))
  then Ok (zeroSurvey, Some ErrVictory)
  else Discover m (X (icarus m)) (Y (icarus m)).

(** The four move methods share one body; they differ in the wall they
    consult and in the neighbour they compute. *)
Definition moveIcarus (m : Maze) (x y : Z) : Maze :=
  mkMaze (rooms m) (start m) (end_ m) (mkCoordinate x y) (StepsTaken m +i 1).

Definition MoveLeft (m : Maze) : res (Maze * option error) :=
  '(s, e) ← LookAround m;
  match e with
  | Some e => Ok (m, Some e)
  | None =>
      if Left s then Ok (m, Some ErrWall)
      else
        let '(x, y) := Icarus m in
        '(_, err) ← GetRoom m (x -i 1) y;
        match err with
        | Some err => Ok (m, Some err)
        | None => Ok (moveIcarus m (x -i 1) y, None)
        end
  end.

Definition MoveRight (m : Maze) : res (Maze * option error) :=
  '(s, e) ← LookAround m;
  match e with
  | Some e => Ok (m, Some e)
  | None =>
      if Right s then Ok (m, Some ErrWall)
      else
        let '(x, y) := Icarus m in
        '(_, err) ← GetRoom m (x +i 1) y;
        match err with
        | Some err => Ok (m, Some err)
        | None => Ok (moveIcarus m (x +i 1) y, None)
        end
  end.

Definition MoveUp (m : Maze) : res (Maze * option error) :=
  '(s, e) ← LookAround m;
  match e with
  | Some e => Ok (m, Some e)
  | None =>
      if Top s then Ok (m, Some ErrWall)
      else
        let '(x, y) := Icarus m in
        '(_, err) ← GetRoom m x (y -i 1);
        match err with
        | Some err => Ok (m, Some err)
        | None => Ok (moveIcarus m x (y -i 1), None)
        end
  end.

Definition MoveDown (m : Maze) : res (Maze * option error) :=
  '(s, e) ← LookAround m;
  match e with
  | Some e => Ok (m, Some e)
  | None =>
      if Bottom s then Ok (m, Some ErrWall)
      else
        let '(x, y) := Icarus m in
        '(_, err) ← GetRoom m x (y +i 1);
        match err with
        | Some err => Ok (m, Some err)
        | None => Ok (moveIcarus m x (y +i 1), None)
        end
  end.

(** The dispatch of [MoveDirection]: "left", "right", "down", "up". *)
Definition Move (d : Direction) (m : Maze) : res (Maze * option error) :=
  match d with
  | W => MoveLeft m
  | E => MoveRight m
  | S => MoveDown m
  | N => MoveUp m
  end.

(** ** Loops *)

(** [for _, a := range l { s = f(s, a) }], stopping at the first panic. *)
Fixpoint foldM {A St : Type} (f : St -> A -> res St) (s : St) (l : list A)
  : res St :=
  match l with
  | [] => Ok s
  | a :: l => s ← f s a; foldM f s l
  end.

(** The values taken by [i] in [for i := 0; i < n; i++]. *)
Definition upto (n : Z) : list Z := Z.of_nat <$> seq 0 (Z.to_nat n).

(** [make([]T, n)]: a negative length panics. *)
Definition make {A : Type} (zero : A) (n : Z) : res (list A) :=
  if n <? 0 then Panic else Ok (replicate (Z.to_nat n) zero).

(** ** math/rand

    A generator is the sequence of raw values its source will deliver
    together with the number of values already consumed.  Nothing is
    assumed about the sequence. *)
Record Rand : Type := mkRand { source : nat -> Z; consumed : nat }.

(** [r.Intn(n)] panics for [n <= 0] and otherwise returns a value of
    [[0, n)]. *)
Definition Intn (g : Rand) (n : Z) : res (Z * Rand) :=
  if n <=? 0 then Panic
  else Ok (source g (consumed g) mod n, mkRand (source g) (Datatypes.S (consumed g))).

(** [r.Int63n(n)] has the same contract. *)
Definition Int63n (g : Rand) (n : Z) : res (Z * Rand) := Intn g n.

(** [r.Perm(n)], the library's loop
    [for i := 0; i < n; i++ { j := r.Intn(i + 1); m[i] = m[j]; m[j] = i }]. *)
Definition permStep (st : list Z * Rand) (i : Z) : res (list Z * Rand) :=
  let '(m, g) := st in
  '(j, g) ← Intn g (i + 1);
  let m := <[Z.to_nat i := default 0 (m !! Z.to_nat j)]> m in
  Ok (<[Z.to_nat j := i]> m, g).

Definition Perm (g : Rand) (n : Z) : res (list Z * Rand) :=
  m ← make 0 n;
  foldM permStep (m, g) (upto n).

(** ** Go maps

    A map is kept as the list of its entries, one per key.  Ranging over
    a map visits the entries in an order the runtime chooses afresh for
    every loop; the runtime's choices come from a generator of its own. *)
Abbreviation gomap K V := (list (K * V)) (only parsing).

Section GoMap.
Context {K V : Type} `{EqDecision K}.

Definition mget (k : K) (m : gomap K V) : option V :=
  snd <$> find (fun kv => bool_decide (fst kv = k)) m.

Definition mset (k : K) (v : V) (m : gomap K V) : gomap K V :=
  match mget k m with
  | Some _ => (fun kv => if decide (fst kv = k) then (k, v) else kv) <$> m
  | None => m ++ [(k, v)]
  end.

Definition mdelete (k : K) (m : gomap K V) : gomap K V :=
  filter (fun kv => fst kv <> k) m.

Definition mrange (rt : Rand) (m : gomap K V) : res (list (K * V) * Rand) :=
  '(p, rt) ← Perm rt (Z.of_nat (length m));
  Ok (omap (fun i : Z => m !! Z.to_nat i) (p : list Z), rt).
End GoMap.

(** The two sources of nondeterminism of a run: the package-level
    generator of math/rand and the runtime's map iteration. *)
Record World : Type := mkWorld { rnd : Rand; mapiter : Rand }.

(** ** Starting grids *)

Definition zeroCoordinate : Coordinate := mkCoordinate 0 0.

(** [emptyMaze], with the configured "height" and "width" as arguments.
    The inner loop stores [mazelib.Room{}] into slots that already hold
    it. *)
Definition emptyMaze (ySize xSize : Z) : res Maze :=
  rs ← make [] ySize;
  rs ← foldM (fun rs y =>
                row ← make zeroRoom xSize;
                Ok (<[Z.to_nat y := row]> rs)) rs (upto ySize);
  Ok (mkMaze rs zeroCoordinate zeroCoordinate zeroCoordinate 0).

Definition fullSurvey : Survey := mkSurvey true true true true.

Definition wallIn (r : Room) : Room :=
  mkRoom (Treasure r) (Start r) (Visited r) fullSurvey.

(** [fullMaze]: every slot of the grid just built gets all four walls. *)
Definition fullMaze (ySize xSize : Z) : res Maze :=
  z ← emptyMaze ySize xSize;
  foldM (fun z y =>
           foldM (fun z x =>
                    match roomAt z x y with
                    | Some r => Ok (store z (InGrid x y) (wallIn r))
                    | None => Panic
                    end) z (upto xSize)) z (upto ySize).

Definition createMaze (ySize xSize : Z) : res Maze := emptyMaze ySize xSize.

(** ** Directions *)

Definition DX (d : Direction) : Z :=
  match d with E => 1 | W => -1 | S => 0 | N => 0 end.

Definition DY (d : Direction) : Z :=
  match d with E => 0 | W => 0 | S => 1 | N => -1 end.

Definition OPPOSITE (d : Direction) : Direction :=
  match d with E => W | W => E | N => S | S => N end.

Definition DIRECTIONS : list Direction := [N; W; S; E].

(** ** Recursive backtracker *)

Definition markVisited (r : Room) : Room :=
  mkRoom (Treasure r) (Start r) true (Walls r).

(** The loop of [carvePassagesFrom] at (x, y) over the shuffled indices
    [p]; [rec] is the recursive call. *)
Fixpoint carveLoop (rec : Maze -> Z -> Z -> Rand -> res (Maze * Rand))
    (x y : Z) (p : list Z) (m : Maze) (g : Rand) : res (Maze * Rand) :=
  match p with
  | [] => Ok (m, g)
  | i :: p =>
      match DIRECTIONS !! Z.to_nat i with
      | None => Panic
      | Some d =>
          let nx := x +i DX d in
          let ny := y +i DY d in
          '(croom, _) ← GetRoom m x y;
          '(room, err) ← GetRoom m nx ny;
          match err with
          | None =>
              if Visited (load m room) then carveLoop rec x y p m g
              else
                let m := update m croom (RmWall d) in
                let m := update m room (RmWall (OPPOSITE d)) in
                let m := update m room markVisited in
                '(m, g) ← rec m nx ny g;
                carveLoop rec x y p m g
          | Some _ => carveLoop rec x y p m g
          end
      end
  end.

(** [carvePassagesFrom].  The recursion is bounded by [fuel]; every
    recursive call follows the marking of a room that was not visited. *)
Fixpoint carvePassagesFrom (fuel : nat) (m : Maze) (x y : Z) (g : Rand)
  : res (Maze * Rand) :=
  match fuel with
  | O => Timeout
  | Datatypes.S fuel =>
      '(p, g) ← Perm g 4;
      carveLoop (carvePassagesFrom fuel) x y p m g
  end.

(** ** Kruskal *)

(** The identity of a [*mazelib.Room] used as a map key: a slot of the
    grid, or the n-th room allocated outside of it (every boundary miss
    of [GetRoom] allocates a new one). *)
Inductive RoomPtr : Type :=
| AtCell (x y : Z)
| Alloc (n : nat).

#[global] Instance RoomPtr_eq_dec : EqDecision RoomPtr.
Proof. solve_decision. Defined.
#[global] Instance RoomRef_eq_dec : EqDecision RoomRef.
Proof. solve_decision. Defined.

Definition ptrOf (p : RoomRef) (allocs : nat) : RoomPtr * nat :=
  match p with
  | InGrid x y => (AtCell x y, allocs)
  | Fresh => (Alloc allocs, Datatypes.S allocs)
  end.

(** The [tree] nodes live in a heap: node [t] is [heap !! t], holding its
    [parent] pointer ([None] for nil). *)
Definition treeHeap : Type := list (option nat).

(** [tree.root]: follow [parent] until it is nil. *)
Fixpoint root (fuel : nat) (heap : treeHeap) (t : nat) : res nat :=
  match fuel with
  | O => Timeout
  | Datatypes.S fuel =>
      match heap !! t with
      | None => Panic
      | Some None => Ok t
      | Some (Some p) => root fuel heap p
      end
  end.

(** [type bitmap map[*mazelib.Room]*tree]: room pointers to tree nodes. *)
Abbreviation bitmap := (gomap RoomPtr nat) (only parsing).

(** [b[k]]; a missing key reads as the nil node, on which [root]
    panics. *)
Definition nodeOf (b : bitmap) (k : RoomPtr) : res nat :=
  match mget k b with
  | Some t => Ok t
  | None => Panic
  end.

Definition isConnected (fuel : nat) (b : bitmap) (heap : treeHeap)
    (cr nr : RoomPtr) : res bool :=
  tc ← nodeOf b cr;
  rc ← root fuel heap tc;
  tn ← nodeOf b nr;
  rn ← root fuel heap tn;
  Ok (bool_decide (rc = rn)).

Definition connect (fuel : nat) (b : bitmap) (heap : treeHeap)
    (cr nr : RoomPtr) : res treeHeap :=
  tn ← nodeOf b nr;
  rn ← root fuel heap tn;
  tc ← nodeOf b cr;
  Ok (<[rn := Some tc]> heap).

(** [if trees[k] == nil { trees[k] = &tree{} }] *)
Definition ensureTree (b : bitmap) (heap : treeHeap) (k : RoomPtr)
  : bitmap * treeHeap :=
  match mget k b with
  | Some _ => (b, heap)
  | None => (mset k (length heap) b, heap ++ [None])
  end.

Definition edge : Type := Z * Z * Direction.

(** The body of the first loop of [kruskal] for the row [y]: two
    candidate edges per cell, the cells in the order [r] dictates. *)
Definition edgeRow (m : Maze) (st : list edge * Rand) (y : Z)
  : res (list edge * Rand) :=
  let '(edges, r) := st in
  w ← Width m;
  '(xs, r) ← Perm r w;
  Ok (foldl (fun edges x =>
               foldl (fun edges d => edges ++ [(x, y, d)])
                     edges (take 2 DIRECTIONS))
            edges xs, r).

(** The first loop of [kruskal]. *)
Definition kruskalEdges (m : Maze) (r : Rand) : res (list edge * Rand) :=
  '(ys, r) ← Perm r (Height m);
  foldM (edgeRow m) ([], r) ys.

Record kruskalState : Type := mkKruskalState
  { kmaze : Maze;
    trees : bitmap;
    heap : treeHeap;
    allocs : nat }.

(** The body of the second loop of [kruskal] for the edge [edges[i]]. *)
Definition kruskalStep (fuel : nat) (edges : list edge) (st : kruskalState)
    (i : Z) : res kruskalState :=
  match edges !! Z.to_nat i with
  | None => Panic
  | Some (x, y, d) =>
      let m := kmaze st in
      let nx := x +i DX d in
      let ny := y +i DY d in
      '(cr, _) ← GetRoom m x y;
      let '(ck, al) := ptrOf cr (allocs st) in
      let '(b, h) := ensureTree (trees st) (heap st) ck in
      '(nr, _) ← GetRoom m nx ny;
      let '(nk, al) := ptrOf nr al in
      let '(b, h) := ensureTree b h nk in
      c ← isConnected fuel b h ck nk;
      if (c : bool) then Ok (mkKruskalState m b h al)
      else
        h ← connect fuel b h ck nk;
        let m := update m cr (RmWall d) in
        let m := update m nr (RmWall (OPPOSITE d)) in
        Ok (mkKruskalState m b h al)
  end.

Section Kruskal.
(** [rand.NewSource]: the raw sequence a seed stands for. *)
Variable NewSource : Z -> nat -> Z.

(** [kruskal]; [fuel] bounds the walks of [root]. *)
Definition kruskal (fuel : nat) (m : Maze) (g : Rand) : res (Maze * Rand) :=
  '(seed, g) ← Int63n g 99;
  let r := mkRand (NewSource seed) 0 in
  '(edges, r) ← kruskalEdges m r;
  '(p, r) ← Perm r (Z.of_nat (length edges));
  st ← foldM (kruskalStep fuel edges) (mkKruskalState m [] [] 0) p;
  Ok (kmaze st, g).
End Kruskal.

(** ** Prim *)

Definition loc : Type := Z * Z.

(** [neighbors]: the rooms around (x, y) that exist, entered into the map
    in the order north, west, south, east. *)
Definition neighbors (m : Maze) (x y : Z) : res (gomap RoomRef loc) :=
  let rooms : gomap RoomRef loc := [] in
  '(room, err) ← GetRoom m x (y -i 1);
  let rooms := if err is None then mset room (x, y -i 1) rooms else rooms in
  '(room, err) ← GetRoom m (x -i 1) y;
  let rooms := if err is None then mset room (x -i 1, y) rooms else rooms in
  '(room, err) ← GetRoom m x (y +i 1);
  let rooms := if err is None then mset room (x, y +i 1) rooms else rooms in
  '(room, err) ← GetRoom m (x +i 1) y;
  let rooms := if err is None then mset room (x +i 1, y) rooms else rooms in
  Ok rooms.

(** [randomRoom]: the keys are collected by ranging over the map, then
    one index is drawn. *)
Definition randomRoom (f : gomap RoomRef loc) (w : World)
  : res (RoomRef * World) :=
  '(order, rt) ← mrange (mapiter w) f;
  let rooms := fst <$> order in
  '(i, g) ← Intn (rnd w) (Z.of_nat (length rooms));
  match rooms !! Z.to_nat i with
  | Some r => Ok (r, mkWorld g rt)
  | None => Panic
  end.

Definition direction (x y nx ny : Z) : Direction :=
  if x <? nx then E
  else if x >? nx then W
  else if y <? ny then S
  else N.

(** [in[n]]: a missing key reads as false. *)
Definition isIn (inn : gomap RoomRef bool) (n : RoomRef) : bool :=
  default false (mget n inn).

(** The first inner loop of [prim]: connect [r] with the first neighbour
    met that is already in, then [break]. *)
Fixpoint connectFirst (m : Maze) (r : RoomRef) (l : loc)
    (inn : gomap RoomRef bool) (order : list (RoomRef * loc)) : Maze :=
  match order with
  | [] => m
  | (n, neighbor) :: order =>
      if isIn inn n then
        let d := direction (fst l) (snd l) (fst neighbor) (snd neighbor) in
        let m := update m r (RmWall d) in
        update m n (RmWall (OPPOSITE d))
      else connectFirst m r l inn order
  end.

(** The second inner loop: the neighbours that are not in join the
    frontier. *)
Definition addFrontiers (inn : gomap RoomRef bool)
    (frontiers : gomap RoomRef loc) (order : list (RoomRef * loc))
  : gomap RoomRef loc :=
  foldl (fun fr '(n, neighbor) =>
           if isIn inn n then fr else mset n neighbor fr) frontiers order.

(** [for len(frontiers) > 0 { ... }] *)
Fixpoint primLoop (fuel : nat) (m : Maze) (frontiers : gomap RoomRef loc)
    (inn : gomap RoomRef bool) (w : World) : res (Maze * World) :=
  match frontiers with
  | [] => Ok (m, w)
  | _ :: _ =>
      match fuel with
      | O => Timeout
      | Datatypes.S fuel =>
          '(r, w) ← randomRoom frontiers w;
          match mget r frontiers with
          | None => Panic
          | Some l =>
              let inn := mset r true inn in
              let frontiers := mdelete r frontiers in
              nbs ← neighbors m (fst l) (snd l);
              '(order, rt) ← mrange (mapiter w) nbs;
              let m := connectFirst m r l inn order in
              '(order, rt) ← mrange rt nbs;
              let frontiers := addFrontiers inn frontiers order in
              primLoop fuel m frontiers inn (mkWorld (rnd w) rt)
          end
      end
  end.

(** [prim] from the grid [m] on, i.e. all of it but [m := emptyMaze()]. *)
Definition primFrom (fuel : nat) (m : Maze) (w : World) : res (Maze * World) :=
  let frontiers : gomap RoomRef loc := [] in
  let inn : gomap RoomRef bool := [] in
  wd ← Width m;
  '(x, g) ← Intn (rnd w) wd;
  '(y, g) ← Intn g (Height m);
  '(room, _) ← GetRoom m x y;
  let frontiers := mset room (x, y) frontiers in
  let inn := mset room true inn in
  nbs ← neighbors m x y;
  '(order, rt) ← mrange (mapiter w) nbs;
  let frontiers := foldl (fun fr '(r, l) => mset r l fr) frontiers order in
  primLoop fuel m frontiers inn (mkWorld g rt).

Definition prim (fuel : nat) (ySize xSize : Z) (w : World)
  : res (Maze * World) :=
  m ← emptyMaze ySize xSize;
  primFrom fuel m w.

(** The rounds of the loop of [prim], in the order they run: for every
    room [r] taken out of the frontier, its coordinates [loc] and the
    coordinates of the neighbour the first inner loop met in [in] and
    called [RmWall] for, if any.  The loop is the one of [primLoop]; only
    the record of the rounds is kept. *)
Fixpoint primRounds (fuel : nat) (m : Maze) (frontiers : gomap RoomRef loc)
    (inn : gomap RoomRef bool) (w : World) : res (list (loc * option loc)) :=
  match frontiers with
  | [] => Ok []
  | _ :: _ =>
      match fuel with
      | O => Timeout
      | Datatypes.S fuel =>
          '(r, w) ← randomRoom frontiers w;
          match mget r frontiers with
          | None => Panic
          | Some l =>
              let inn := mset r true inn in
              let frontiers := mdelete r frontiers in
              nbs ← neighbors m (fst l) (snd l);
              '(order, rt) ← mrange (mapiter w) nbs;
              let met := snd <$> find (fun e => isIn inn (fst e)) order in
              let m := connectFirst m r l inn order in
              '(order, rt) ← mrange rt nbs;
              let frontiers := addFrontiers inn frontiers order in
              rounds ← primRounds fuel m frontiers inn (mkWorld (rnd w) rt);
              Ok ((l, met) :: rounds)
          end
      end
  end.

(** The rounds of [prim]: [prim] with [primRounds] for its loop. *)
Definition primRoundsOf (fuel : nat) (ySize xSize : Z) (w : World)
  : res (list (loc * option loc)) :=
  m ← emptyMaze ySize xSize;
  let frontiers : gomap RoomRef loc := [] in
  let inn : gomap RoomRef bool := [] in
  wd ← Width m;
  '(x, g) ← Intn (rnd w) wd;
  '(y, g) ← Intn g (Height m);
  '(room, _) ← GetRoom m x y;
  let frontiers := mset room (x, y) frontiers in
  let inn := mset room true inn in
  nbs ← neighbors m x y;
  '(order, rt) ← mrange (mapiter w) nbs;
  let frontiers := foldl (fun fr '(r, l) => mset r l fr) frontiers order in
  primRounds fuel m frontiers inn (mkWorld g rt).

(** ** Recursive division *)

Definition HORIZONTAL : Z := 1.
Definition VERTICAL : Z := 2.

Definition chooseOrientation (w h : Z) (g : Rand) : res (Z * Rand) :=
  if w <? h then Ok (HORIZONTAL, g)
  else if w >? h then Ok (VERTICAL, g)
  else
    '(v, g) ← Intn g 2;
    if v =? 0 then Ok (HORIZONTAL, g) else Ok (VERTICAL, g).

(** [divide].  The wall loops [for wx = x; wx-x < width; wx++] run for
    the offsets 0 .. width-1: in wrap-around arithmetic [wx-x] is the
    offset itself. *)
Fixpoint divide (fuel : nat) (m : Maze) (x y width height orientation : Z)
    (g : Rand) : res (Maze * Rand) :=
  if (width <? 2) || (height <? 2) then Ok (m, g)
  else
    match fuel with
    | O => Timeout
    | Datatypes.S fuel =>
        if orientation =? HORIZONTAL then
          '(wy, g) ← (if height >? 2
                      then '(v, g) ← Intn g (height -i 2); Ok (y +i v, g)
                      else Ok (y, g));
          '(v, g) ← Intn g width;
          let px := x +i v in
          m ← foldM (fun m k =>
                       let wx := x +i k in
                       if wx =? px then Ok m
                       else
                         '(room, _) ← GetRoom m wx wy;
                         Ok (update m room (AddWall mazelib.S)))
                    m (upto width);
          let h := wy -i y +i 1 in
          '(o, g) ← chooseOrientation width h g;
          '(m, g) ← divide fuel m x y width h o g;
          let h := y +i height -i wy -i 1 in
          '(o, g) ← chooseOrientation width h g;
          divide fuel m x (wy +i 1) width h o g
        else
          '(wx, g) ← (if width >? 2
                      then '(v, g) ← Intn g (width -i 2); Ok (x +i v, g)
                      else Ok (x, g));
          '(v, g) ← Intn g height;
          let py := y +i v in
          m ← foldM (fun m k =>
                       let wy := y +i k in
                       if wy =? py then Ok m
                       else
                         '(room, _) ← GetRoom m wx wy;
                         Ok (update m room (AddWall mazelib.E)))
                    m (upto height);
          let w := wx -i x +i 1 in
          '(o, g) ← chooseOrientation w height g;
          '(m, g) ← divide fuel m x y w height o g;
          let w := x +i width -i wx -i 1 in
          '(o, g) ← chooseOrientation w height g;
          divide fuel m (wx +i 1) y w height o g
    end.

(** The second half of [recursiveDivision], "Add the borders": a south
    wall along the last row, an east wall along the last column. *)
Definition addBorders (m : Maze) : res Maze :=
  w ← Width m;
  let h := Height m in
  m ← foldM (fun m x =>
               '(r, _) ← GetRoom m x (h -i 1);
               Ok (update m r (AddWall mazelib.S))) m (upto w);
  foldM (fun m y =>
           '(r, _) ← GetRoom m (w -i 1) y;
           Ok (update m r (AddWall mazelib.E))) m (upto h).

Definition recursiveDivision (fuel : nat) (ySize xSize : Z) (g : Rand)
  : res (Maze * Rand) :=
  m ← emptyMaze ySize xSize;
  w ← Width m;
  '(o, g) ← chooseOrientation w (Height m) g;
  '(m, g) ← divide fuel m 0 0 w (Height m) o g;
  m ← addBorders m;
  Ok (m, g).

(** ** The server *)

(** [mazelib.Reply], the JSON object of a response, is declared in
    package mazelib; the record has the fields the handlers of this file
    write.  A [var r mazelib.Reply] starts as [Reply.zero]. *)
Module Reply.
Record t : Type := mk
  { Survey : mazelib.Survey; Victory : bool; Message : string; Error : bool }.
Definition zero : t := mk zeroSurvey false EmptyString false.
End Reply.

(** The package variables [currentMaze] (nil before the first maze is
    made) and [scores]. *)
Record Server : Type := mkServer
  { currentMaze : option Maze; scores : list Z }.

(** What a handler does to its request: it writes a JSON response with a
    status code ([c.JSON]) or ends the process ([os.Exit]).  What it
    prints to the terminal is left out. *)
Inductive response : Type :=
| JSON (code : Z) (obj : Reply.t)
| Exit (code : Z).

Definition StatusOK : Z := 200.

(** The verb [%d] of [fmt.Sprintf] on an [int]. *)
Definition formatInt (z : Z) : string :=
  DecimalString.NilZero.string_of_int (Z.to_int z).

(** The line feed of the Go string escape. *)
Definition newline : string := String (Ascii.ascii_of_nat 10) EmptyString.

Section Server.
(** [mazelib.ErrVictory.Error()]: the text is set in package mazelib. *)
Variable ErrVictoryText : string.
(** [viper.GetInt("height")] and [viper.GetInt("width")]. *)
Variables height width : Z.

(** [err.Error()] for the errors of this file. *)
Definition errorText (e : error) : string :=
  match e with
  | ErrVictory => ErrVictoryText
  | ErrOutside => "room outside of maze boundaries"
  | ErrWall => "Can't walk through walls"
  | ErrStartInTreasure => "can't start in the treasure"
  | ErrTreasureAtStart => "can't have the treasure at the start"
  end.

Definition initializeMaze (sv : Server) : res Server :=
  m ← createMaze height width;
  Ok (mkServer (Some m) (scores sv)).

(** [GetStartingPoint], the handler of /awake. *)
Definition GetStartingPoint (sv : Server) : res (Server * response) :=
  sv ← initializeMaze sv;
  match currentMaze sv with
  | None => Panic
  | Some m =>
      let '(x, y) := Icarus m in
      '(startRoom, err) ← Discover m x y;
      match err with
      | Some _ => Ok (sv, Exit (-1))
      | None => Ok (sv, JSON StatusOK (Reply.mk startRoom false EmptyString false))
      end
  end.

(** [MoveDirection], the handler of /move/:direction.  A nil
    [currentMaze] is dereferenced by whichever method is called first;
    in the last branch [err.Error()] is called on the nil [err]. *)
Definition MoveDirection (param : string) (sv : Server)
  : res (Server * response) :=
  match currentMaze sv with
  | None => Panic
  | Some m =>
      '(m, err) ← (if String.eqb param "left" then MoveLeft m
                   else if String.eqb param "right" then MoveRight m
                   else if String.eqb param "down" then MoveDown m
                   else if String.eqb param "up" then MoveUp m
                   else Ok (m, None));
      match err with
      | Some err =>
          Ok (mkServer (Some m) (scores sv),
              JSON 409 (Reply.mk zeroSurvey false (errorText err) true))
      | None =>
          '(s, e) ← LookAround m;
          match e with
          | Some ErrVictory =>
              Ok (mkServer (Some m) (scores sv ++ [StepsTaken m]),
                  JSON StatusOK
                       (Reply.mk s true
                          ("Victory achieved in " +:+ formatInt (StepsTaken m)
                           +:+ " steps " +:+ newline)
                          false))
          | Some _ => Panic
          | None =>
              Ok (mkServer (Some m) (scores sv),
                  JSON StatusOK (Reply.mk s false EmptyString false))
          end
      end
  end.
End Server.

(** * Vocabulary of the properties *)

(** ** Grids *)

(** The width of the grid, 0 for the grid without rows. *)
Definition widthOf (m : Maze) : Z :=
  match Width m with
  | Ok w => w
  | _ => 0
  end.

(** (x, y) lies outside of the grid of [m]. *)
Definition outside (m : Maze) (x y : Z) : bool :=
  (x <? 0) || (y <? 0) ||
  match Width m with
  | Ok w => (x >=? w) || (y >=? Height m)
  | _ => false
  end.

(** (x, y) names a room of [m]. *)
Definition inside (m : Maze) (x y : Z) : bool :=
  (0 <=? x) && (0 <=? y) &&
  match Width m with
  | Ok w => (x <? w) && (y <? Height m)
  | _ => false
  end.

(** [z] is the value of an [int]. *)
Definition intb (z : Z) : bool :=
  (GoInt.min_int <=? z) && (z <=? GoInt.max_int).

(** Every row is as long as the first one, as in the grids [emptyMaze]
    builds. *)
Definition rectangular (m : Maze) : bool :=
  forallb (fun row => Nat.eqb (length row) (length (hd [] (rooms m))))
          (rooms m).

(** The grids on which [GetRoom] cannot panic: at least one row, all rows
    of one length. *)
Definition regular (m : Maze) : bool :=
  match rooms m with
  | [] => false
  | _ :: _ => rectangular m
  end.

(** The lengths of the slices of the grid fit in an [int]. *)
Definition fitsInt (m : Maze) : bool :=
  (Height m <=? GoInt.max_int) && (widthOf m <=? GoInt.max_int).

(** A maze as Go can hold it: rows of one length, slice lengths and
    integers that fit in an [int]. *)
Definition goMaze (m : Maze) : bool :=
  rectangular m
  && (Height m <=? GoInt.max_int)
  && (Z.of_nat (length (hd [] (rooms m))) <=? GoInt.max_int)
  && intb (X (icarus m)) && intb (Y (icarus m))
  && intb (X (end_ m)) && intb (Y (end_ m))
  && intb (StepsTaken m).

(** The lengths of the rows: what the bounds checks depend on. *)
Definition shape (m : Maze) : list nat := length <$> rooms m.

(** The coordinates of the grid, row by row. *)
Definition cells (m : Maze) : list (Z * Z) :=
  y ← upto (Height m); x ← upto (widthOf m); [(x, y)].

(** The grid of [h] rows of [w] rooms without walls or marks. *)
Definition blankGrid (h w : Z) : Maze :=
  mkMaze (replicate (Z.to_nat h) (replicate (Z.to_nat w) zeroRoom))
         zeroCoordinate zeroCoordinate zeroCoordinate 0.

(** Every room of [m] is the zero room. *)
Definition blank (m : Maze) : Prop := forall p, load m p = zeroRoom.

(** ** Sample grids and generator states *)

(** A 2 x 2 grid without walls, Icarus at (0,0), the treasure at (1,1). *)
Definition openSquare : Maze :=
  mkMaze [[mkRoom false true false zeroSurvey; zeroRoom];
          [zeroRoom; mkRoom true false false zeroSurvey]]
         zeroCoordinate (mkCoordinate 1 1) (mkCoordinate 0 0) 0.

(** Icarus standing on the treasure of [openSquare]. *)
Definition atGoal : Maze :=
  mkMaze (rooms openSquare) zeroCoordinate (mkCoordinate 1 1)
         (mkCoordinate 1 1) 2.

(** The 1 x 1 grid with all four walls. *)
Definition closedCell : Maze :=
  mkMaze [[mkRoom false false false fullSurvey]]
         zeroCoordinate zeroCoordinate zeroCoordinate 0.

(** The fully walled grid of one row and two columns. *)
Definition closedPair : Maze :=
  mkMaze [[mkRoom false false false fullSurvey;
           mkRoom false false false fullSurvey]]
         zeroCoordinate zeroCoordinate zeroCoordinate 0.

(** The fully walled 2 x 2 grid. *)
Definition closedSquare : Maze :=
  mkMaze [[mkRoom false false false fullSurvey;
           mkRoom false false false fullSurvey];
          [mkRoom false false false fullSurvey;
           mkRoom false false false fullSurvey]]
         zeroCoordinate zeroCoordinate zeroCoordinate 0.

(** The grid [blankGrid 2 2] with one more wall [d] on the room (x, y). *)
Definition oneWall (x y : Z) (d : Direction) : Maze :=
  update (blankGrid 2 2) (InGrid x y) (AddWall d).

(** The generator after one draw. *)
Definition advance (g : Rand) : Rand :=
  mkRand (source g) (Datatypes.S (consumed g)).

(** A generator whose raw values count up from 0. *)
Definition counting : Rand := mkRand (fun n => Z.of_nat n) 0.

(** Generators whose raw values are all 0, all 5. *)
Definition zeros : Rand := mkRand (fun _ => 0) 0.
Definition fives : Rand := mkRand (fun _ => 5) 0.

(** A stand-in for [rand.NewSource]: the raw values count up from the
    seed. *)
Definition countingFrom (seed : Z) (n : nat) : Z := seed + Z.of_nat n.

(** Two behaviours of the runtime: ranging over a map in the order of
    insertion, and ranging from another slot on. *)
Definition insertionOrder : Rand := mkRand (fun _ => -1) 0.
Definition rotated : Rand := zeros.

(** The 2 x 2 maze of the recursive division when all raw values are 0,
    the treasure then put at (0,0) and Icarus at (1,1). *)
Definition dividedSquare : res Maze :=
  '(m, _) ← recursiveDivision 1 2 2 zeros;
  '(m, _) ← SetTreasure m 0 0;
  '(m, _) ← SetStartPoint m 1 1;
  Ok m.

(** ** Moves *)

(** The coordinate next to (x, y) in direction [d], as the move methods
    compute it. *)
Definition neighbour (d : Direction) (x y : Z) : Z * Z :=
  match d with
  | W => (x -i 1, y)
  | E => (x +i 1, y)
  | N => (x, y -i 1)
  | S => (x, y +i 1)
  end.

(** A client session: the moves are issued one after the other, whatever
    the replies. *)
Fixpoint play (ds : list Direction) (m : Maze) : res Maze :=
  match ds with
  | [] => Ok m
  | d :: ds => '(m, _) ← Move d m; play ds m
  end.

(** The ways a move can return. *)
Inductive MoveReturn (d : Direction) (m : Maze) : Maze * option error -> Prop :=
| move_refused s e :
    LookAround m = Ok (s, Some e) ->
    MoveReturn d m (m, Some e)
| move_blocked s :
    LookAround m = Ok (s, None) -> wall d s = true ->
    MoveReturn d m (m, Some ErrWall)
| move_outside s :
    LookAround m = Ok (s, None) -> wall d s = false ->
    outside m (neighbour d (X (icarus m)) (Y (icarus m))).1
              (neighbour d (X (icarus m)) (Y (icarus m))).2 = true ->
    MoveReturn d m (m, Some ErrOutside)
| move_done s :
    LookAround m = Ok (s, None) -> wall d s = false ->
    inside m (neighbour d (X (icarus m)) (Y (icarus m))).1
             (neighbour d (X (icarus m)) (Y (icarus m))).2 = true ->
    MoveReturn d m
      (moveIcarus m (neighbour d (X (icarus m)) (Y (icarus m))).1
                    (neighbour d (X (icarus m)) (Y (icarus m))).2, None).

(** [LookAround] reports victory, and nothing else, as an error. *)
Definition reportsVictory (m : Maze) : bool :=
  match LookAround m with
  | Ok (_, Some ErrVictory) => true
  | _ => false
  end.

(** [Move d] returned without an error. *)
Definition succeeded (d : Direction) (m : Maze) : bool :=
  match Move d m with
  | Ok (_, None) => true
  | _ => false
  end.

(** The survey [LookAround] hands back has no wall in direction [d]. *)
Definition noWallSeen (d : Direction) (m : Maze) : bool :=
  match LookAround m with
  | Ok (s, _) => negb (wall d s)
  | _ => false
  end.

(** [LookAround] delivers a survey, not the victory, and that survey has
    no wall in direction [d]. *)
Definition surveyedOpen (d : Direction) (m : Maze) : bool :=
  match LookAround m with
  | Ok (s, None) => negb (wall d s)
  | _ => false
  end.

(** ** Edges and walls *)

(** The two edges [kruskal] lists for the cell (x, y). *)
Definition cellEdges (y x : Z) : list edge := [(x, y, N); (x, y, W)].

(** The north and the west edge of every cell, row by row. *)
Definition northWestEdges (m : Maze) : list edge :=
  y ← upto (Height m); x ← upto (widthOf m); cellEdges y x.

(** The east and south edges of all cells: every internal wall once. *)
Definition southEastEdges (m : Maze) : list edge :=
  y ← upto (Height m); x ← upto (widthOf m); [(x, y, E); (x, y, S)].

(** The edge [e] lies between the cells [a] and [b]. *)
Definition joins (a b : Z * Z) (e : edge) : Prop :=
  ((e.1.1, e.1.2) = a /\ (e.1.1 + DX e.2, e.1.2 + DY e.2) = b) \/
  ((e.1.1, e.1.2) = b /\ (e.1.1 + DX e.2, e.1.2 + DY e.2) = a).

#[global] Instance joins_dec a b e : Decision (joins a b e).
Proof. unfold joins. apply _. Defined.

(** Two cells share a wall. *)
Definition adjacent (a b : Z * Z) : bool :=
  Z.abs (a.1 - b.1) + Z.abs (a.2 - b.2) =? 1.

(** The edge leaves the grid. *)
Definition leadsOutside (m : Maze) (e : edge) : bool :=
  outside m (e.1.1 + DX e.2) (e.1.2 + DY e.2).

(** The one north or west edge between two adjacent cells. *)
Definition edgeBetween (a b : Z * Z) : edge :=
  if b.2 <? a.2 then (a.1, a.2, N)
  else if a.2 <? b.2 then (b.1, b.2, N)
  else if b.1 <? a.1 then (a.1, a.2, W)
  else (b.1, b.2, W).

(** The wall between (x, y) and its neighbour in direction [d] is gone on
    both sides. *)
Definition openBetween (m : Maze) (e : edge) : bool :=
  match roomAt m e.1.1 e.1.2,
        roomAt m (e.1.1 + DX e.2) (e.1.2 + DY e.2) with
  | Some a, Some b =>
      negb (wall e.2 (Walls a)) && negb (wall (OPPOSITE e.2) (Walls b))
  | _, _ => false
  end.

(** The number of internal walls that have been removed. *)
Definition removedInternalWalls (m : Maze) : nat :=
  length (filter (fun e => openBetween m e = true) (southEastEdges m)).

(** Some wall of the grid has been taken away. *)
Definition carved (m : Maze) : bool :=
  existsb (existsb (fun r => negb (bool_decide (Walls r = fullSurvey))))
          (rooms m).

(** The wall flags of (x, y) and of its neighbour in direction [d] agree
    on the wall between them. *)
Definition wallsAgree (m : Maze) (x y : Z) (d : Direction) : bool :=
  match roomAt m x y, roomAt m (x + DX d) (y + DY d) with
  | Some a, Some b =>
      bool_decide (wall d (Walls a) = wall (OPPOSITE d) (Walls b))
  | _, _ => true
  end.

(** Wall symmetry, checked over the whole grid. *)
Definition symmetric (m : Maze) : bool :=
  forallb (fun y =>
             forallb (fun x => forallb (wallsAgree m x y) DIRECTIONS)
                     (upto (widthOf m)))
          (upto (Height m)).

(** The wall flags of the room at (x, y), if there is one. *)
Definition wallsAt (m : Maze) (x y : Z) : option Survey :=
  Walls <$> roomAt m x y.

(** Wall symmetry: any two adjacent rooms agree on the wall between
    them. *)
Definition Symmetric (m : Maze) : Prop :=
  forall x y d sa sb,
    wallsAt m x y = Some sa ->
    wallsAt m (x + DX d) (y + DY d) = Some sb ->
    wall d sa = wall (OPPOSITE d) sb.

(** No room has a north or a west wall. *)
Definition oneSided (m : Maze) : Prop :=
  forall p, Top (Walls (load m p)) = false /\ Left (Walls (load m p)) = false.

(** ** The backtracker *)

(** The position of a direction in [DIRECTIONS]. *)
Definition dirIndex (d : Direction) : Z :=
  match d with N => 0 | W => 1 | S => 2 | E => 3 end.

(** No room of the grid carries the [visited] flag. *)
Definition allUnvisited (m : Maze) : bool :=
  forallb (forallb (fun r => negb (Visited r))) (rooms m).

(** [m'] has the shape of [m] and every room visited in [m] is visited in
    [m']. *)
Definition grows (m m' : Maze) : Prop :=
  shape m' = shape m /\
  forall q, Visited (load m q) = true -> Visited (load m' q) = true.

(** The number of rooms of the grid not yet visited: what the recursion
    of the backtracker consumes. *)
Definition pending (m : Maze) : nat :=
  length (filter (fun c => Visited (load m (InGrid c.1 c.2)) = false)
                 (cells m)).

(** What the backtracker needs of a grid, and keeps. *)
Definition carvable (m : Maze) : Prop :=
  regular m = true /\ fitsInt m = true /\ Symmetric m.

(** ** Prim *)

(** The neighbours of (1,1) in the 2 x 2 grid as [neighbors] enters them,
    north before west, and an included set holding both. *)
Definition cornerNeighbours : gomap RoomRef loc :=
  [(InGrid 1 0, (1, 0)); (InGrid 0 1, (0, 1))].

Definition othersIn : gomap RoomRef bool :=
  [(InGrid 0 0, true); (InGrid 1 0, true); (InGrid 0 1, true)].

(** ** Marks and uniform grids *)

(** No room carries both the start and the treasure mark. *)
Definition marksApart (m : Maze) : Prop :=
  forall q, Start (load m q) && Treasure (load m q) = false.

(** What the two setters do to the room they are given. *)
Definition markStart (r : Room) : Room :=
  mkRoom (Treasure r) true (Visited r) (Walls r).
Definition markTreasure (r : Room) : Room :=
  mkRoom true (Start r) (Visited r) (Walls r).

(** The grid of [h] rows of [w] rooms holding [r]. *)
Definition uniformGrid (r : Room) (h w : Z) : Maze :=
  mkMaze (replicate (Z.to_nat h) (replicate (Z.to_nat w) r))
         zeroCoordinate zeroCoordinate zeroCoordinate 0.

(** The grid in which every room has its four walls and no mark. *)
Definition fullGrid (h w : Z) : Maze :=
  uniformGrid (mkRoom false false false fullSurvey) h w.

(** Where [fullMaze] has arrived after the rows above [k] and the first
    [j] rooms of row [k]. *)
Definition walledUpTo (h w k j : Z) (z : Maze) : Prop :=
  shape z = shape (blankGrid h w) /\
  start z = zeroCoordinate /\ end_ z = zeroCoordinate /\
  icarus z = zeroCoordinate /\ StepsTaken z = 0 /\
  forall x y,
    roomAt z x y
    = if (y <? k) || ((y =? k) && (x <? j))
      then wallIn <$> roomAt (blankGrid h w) x y
      else roomAt (blankGrid h w) x y.

(** ** The server *)

(** The path parameter that selects a move. *)
Definition directionName (d : Direction) : string :=
  match d with
  | W => "left"
  | E => "right"
  | S => "down"
  | N => "up"
  end.

(** The parameter is none of the four the handler knows. *)
Definition unknownDirection (param : string) : Prop :=
  forall d, param <> directionName d.

(** A server that has made the maze [m] and recorded [sc]. *)
Definition serving (m : Maze) (sc : list Z) : Server := mkServer (Some m) sc.

(** The text of the reply that reports victory after [steps] steps. *)
Definition victoryReply (s : Survey) (steps : Z) : Reply.t :=
  Reply.mk s true
    ("Victory achieved in " +:+ formatInt steps +:+ " steps " +:+ newline)
    false.

(** The reply to a refused move. *)
Definition conflictReply (text : string) : Reply.t :=
  Reply.mk zeroSurvey false text true.

(** ** Passages *)

(** Walls are only taken away: [m'] has the shape of [m], every wall flag
    that is down in [m] is down in [m'], and the marks are the same. *)
Definition opens (m m' : Maze) : Prop :=
  shape m' = shape m /\
  forall q,
    (forall d, wall d (Walls (load m q)) = false ->
               wall d (Walls (load m' q)) = false) /\
    Start (load m' q) = Start (load m q) /\
    Treasure (load m' q) = Treasure (load m q).

(** There is a passage from the room [a] to the room [b] next to it: the
    wall between them is down on both sides. *)
Definition passage (m : Maze) (a b : Z * Z) : Prop :=
  exists d, b = (a.1 + DX d, a.2 + DY d) /\ openBetween m (a.1, a.2, d) = true.

(** [b] can be reached from [a] through passages. *)
Definition connected (m : Maze) : Z * Z -> Z * Z -> Prop := rtc (passage m).

(** What a run of the backtracker from (x, y) that took [m] to [m'] has
    done: every room it has marked is joined to (x, y) by passages, and
    all rooms around such a room are marked. *)
Definition explored (m m' : Maze) (x y : Z) : Prop :=
  forall a b,
    inside m a b = true ->
    Visited (load m (InGrid a b)) = false ->
    Visited (load m' (InGrid a b)) = true ->
    connected m' (x, y) (a, b) /\
    forall d, inside m (a + DX d) (b + DY d) = true ->
      Visited (load m' (InGrid (a + DX d) (b + DY d))) = true.

(** A session in which every move is accepted: each move method called
    returns no error, and [m'] is the maze after the last of them. *)
Inductive walks : list Direction -> Maze -> Maze -> Prop :=
| walks_nil m : walks [] m m
| walks_cons d ds m m1 m' :
    Move d m = Ok (m1, None) -> walks ds m1 m' -> walks (d :: ds) m m'.

(** ** Walls that are built *)

(** Walls are only added: [m'] has the shape of [m], every wall flag that
    is up in [m] is up in [m'], and the marks are the same. *)
Definition builds (m m' : Maze) : Prop :=
  shape m' = shape m /\
  forall q,
    (forall d, wall d (Walls (load m q)) = true ->
               wall d (Walls (load m' q)) = true) /\
    Start (load m' q) = Start (load m q) /\
    Treasure (load m' q) = Treasure (load m q) /\
    Visited (load m' q) = Visited (load m q).

(** ** The trees of Kruskal *)

(** Following [parent] from the node [t] for [k] steps ends in the node
    [r], whose [parent] is nil. *)
Inductive rootIn (h : treeHeap) : nat -> nat -> nat -> Prop :=
| rootIn_here t : h !! t = Some None -> rootIn h 0 t t
| rootIn_step k t p r :
    h !! t = Some (Some p) -> rootIn h k p r ->
    rootIn h (Datatypes.S k) t r.

(** The map and the heap form a forest: every room of the map has a node
    of the heap, and from every node of the heap [parent] leads to a
    root. *)
Definition forest (b : list (RoomPtr * nat)) (h : treeHeap) : Prop :=
  (forall key t, mget key b = Some t -> (t < length h)%nat) /\
  (forall t, (t < length h)%nat -> exists k r, rootIn h k t r).

(** Rooms of the grid whose nodes are in one tree are joined by
    passages. *)
Definition joined (m : Maze) (b : list (RoomPtr * nat)) (h : treeHeap)
  : Prop :=
  forall ax ay bx by_ ta tb ka kb r,
    mget (AtCell ax ay) b = Some ta -> mget (AtCell bx by_) b = Some tb ->
    rootIn h ka ta r -> rootIn h kb tb r ->
    connected m (ax, ay) (bx, by_).

(** What the second loop of [kruskal] keeps between two rounds: a forest
    over the map, map keys for the rooms allocated outside of the grid
    below the allocation count, and trees that only hold joined rooms. *)
Definition grove (m : Maze) (b : list (RoomPtr * nat)) (h : treeHeap)
    (al : nat) : Prop :=
  forest b h /\
  (forall n t, mget (Alloc n) b = Some t -> (n < al)%nat) /\
  joined m b h.

(** ** The frontier of Prim *)

(** The number of rooms of the grid that are not in [inn] yet. *)
Definition notIn (m : Maze) (inn : list (RoomRef * bool)) : nat :=
  length (filter (fun c => isIn inn (InGrid c.1 c.2) = false) (cells m)).

(** The number of rooms of the frontier that are in [inn] already. *)
Definition stale (fr : list (RoomRef * loc)) (inn : list (RoomRef * bool))
  : nat :=
  length (filter (fun k => isIn inn k = true) (fst <$> fr)).

(** Every room of the map is a room of the grid. *)
Definition inGrid (m : Maze) (fr : list (RoomRef * loc)) : Prop :=
  forall k, k ∈ (fst <$> fr) ->
            exists x y, k = InGrid x y /\ inside m x y = true.

(** * Properties *)

(** ** Wrap-around arithmetic *)

Lemma wrap_in_range z : GoInt.in_range (GoInt.wrap z).
Proof.
  unfold GoInt.in_range, GoInt.wrap, GoInt.min_int, GoInt.max_int.
  pose proof (Z.mod_pos_bound (z + 2 ^ 63) (2 ^ 64) ltac:(lia)). lia.
Qed.

Lemma wrap_id z : GoInt.in_range z -> GoInt.wrap z = z.
Proof.
  unfold GoInt.in_range, GoInt.wrap, GoInt.min_int, GoInt.max_int.
  intros Hz. rewrite Z.mod_small; lia.
Qed.

Lemma wrap_max_succ : GoInt.wrap (GoInt.max_int + 1) = GoInt.min_int.
Proof. reflexivity. Qed.

Lemma wrap_min_pred : GoInt.wrap (GoInt.min_int - 1) = GoInt.max_int.
Proof. reflexivity. Qed.

(** An increment that did not leave the non-negative numbers did not
    wrap. *)
Lemma add1_nonneg z : GoInt.in_range z -> 0 <= z +i 1 -> z +i 1 = z + 1.
Proof.
  intros Hz H. unfold GoInt.add in *.
  destruct (Z.eq_dec z GoInt.max_int) as [->|Hne].
  - rewrite wrap_max_succ in H. unfold GoInt.min_int in H. lia.
  - apply wrap_id. unfold GoInt.in_range, GoInt.min_int, GoInt.max_int in *.
    lia.
Qed.

(** A decrement that stayed below a slice length did not wrap. *)
Lemma sub1_below z w :
  GoInt.in_range z -> w <= GoInt.max_int -> z -i 1 < w -> z -i 1 = z - 1.
Proof.
  intros Hz Hw H. unfold GoInt.sub in *.
  destruct (Z.eq_dec z GoInt.min_int) as [->|Hne].
  - rewrite wrap_min_pred in H. lia.
  - apply wrap_id. unfold GoInt.in_range, GoInt.min_int, GoInt.max_int in *.
    lia.
Qed.

Lemma intb_in_range z : intb z = true -> GoInt.in_range z.
Proof. unfold intb, GoInt.in_range. lia. Qed.

(** ** Loops and generators *)

Lemma foldM_cons {A St} (f : St -> A -> res St) s a l :
  foldM f s (a :: l) = (s' ← f s a; foldM f s' l).
Proof. done. Qed.

Lemma foldM_Panic {A St} (f : St -> A -> res St) s a l :
  f s a = Panic -> foldM f s (a :: l) = Panic.
Proof. intros H. by rewrite foldM_cons, H. Qed.

(** An invariant of the body is an invariant of the loop. *)
Lemma foldM_invariant {A St} (I : St -> Prop) (f : St -> A -> res St)
    (l : list A) : forall s s',
  (forall s a s', I s -> f s a = Ok s' -> I s') ->
  I s -> foldM f s l = Ok s' -> I s'.
Proof.
  induction l as [|a l IH]; intros s s' Hstep Hs; [by intros [= <-]|].
  rewrite foldM_cons. destruct (f s a) as [s1| |] eqn:Hf; [|done..].
  cbn [mbind res_bind]. apply IH; [done|]. by eapply Hstep.
Qed.

Lemma upto_elem n i : i ∈ upto n <-> 0 <= i < n.
Proof.
  unfold upto. rewrite list_elem_of_fmap. split.
  - intros (k & -> & Hk). apply elem_of_seq in Hk. lia.
  - intros Hi. exists (Z.to_nat i). split; [lia|]. apply elem_of_seq. lia.
Qed.

Lemma make_spec {A} (zero : A) n :
  0 <= n -> make zero n = Ok (replicate (Z.to_nat n) zero).
Proof. intros Hn. unfold make. by replace (n <? 0) with false by lia. Qed.

Lemma Intn_spec g n :
  0 < n ->
  exists v, Intn g n = Ok (v, mkRand (source g) (Datatypes.S (consumed g)))
            /\ 0 <= v < n.
Proof.
  intros Hn. unfold Intn. replace (n <=? 0) with false by lia.
  eexists. split; [done|]. by apply Z.mod_pos_bound.
Qed.

Lemma Intn_one g : Intn g 1 = Ok (0, advance g).
Proof. unfold Intn. simpl. by rewrite Z.mod_1_r. Qed.

Lemma Intn_two g :
  Intn g 2 = Ok (0, advance g) \/ Intn g 2 = Ok (1, advance g).
Proof.
  unfold Intn. simpl.
  pose proof (Z.mod_pos_bound (source g (consumed g)) 2 ltac:(lia)) as Hb.
  assert (Hc : source g (consumed g) mod 2 = 0 \/
               source g (consumed g) mod 2 = 1) by lia.
  destruct Hc as [-> | ->]; auto.
Qed.

(** One round of the loop of [Perm]: the slots filled so far hold a
    rearrangement of 0 .. k-1, and round k extends it by k. *)
Lemma permStep_spec (p rest : list Z) g (k : nat) :
  length p = k ->
  exists p' g',
    permStep (p ++ 0 :: rest, g) (Z.of_nat k) = Ok (p' ++ rest, g')
    /\ p' ≡ₚ Z.of_nat k :: p /\ length p' = Datatypes.S k.
Proof.
  intros <-. unfold permStep.
  destruct (Intn_spec g (Z.of_nat (length p) + 1) ltac:(lia)) as (j & -> & Hj).
  simpl. rewrite Nat2Z.id.
  destruct (decide (Z.to_nat j = length p)) as [Hjk|Hjk].
  - exists (p ++ [Z.of_nat (length p)]),
           (mkRand (source g) (Datatypes.S (consumed g))).
    split; [|split].
    + f_equal. f_equal. rewrite Hjk.
      rewrite list_lookup_middle by done. simpl.
      rewrite !insert_app_r_alt by done. rewrite !Nat.sub_diag. simpl.
      by rewrite <- app_assoc.
    + by rewrite Permutation_app_comm.
    + rewrite length_app. simpl. lia.
  - assert (Hlt : (Z.to_nat j < length p)%nat) by lia.
    destruct (lookup_lt_is_Some_2 p _ Hlt) as [pj Hpj].
    exists (<[Z.to_nat j := Z.of_nat (length p)]> p ++ [pj]),
           (mkRand (source g) (Datatypes.S (consumed g))).
    split; [|split].
    + f_equal. f_equal.
      rewrite lookup_app_l by done. rewrite Hpj. simpl.
      rewrite insert_app_r_alt by done. rewrite Nat.sub_diag. simpl.
      rewrite insert_app_l by done. by rewrite <- app_assoc.
    + rewrite Permutation_app_comm. simpl.
      apply list_elem_of_split_length in Hpj as (p1 & p2 & -> & Hp1).
      rewrite Hp1.
      rewrite insert_app_r_alt by done. rewrite Nat.sub_diag. simpl.
      rewrite <- !Permutation_middle. apply perm_swap.
    + rewrite length_app, length_insert. simpl. lia.
Qed.

Lemma permLoop_spec (cnt : nat) : forall (k : nat) (p : list Z) g,
  length p = k ->
  exists p' g',
    foldM permStep (p ++ replicate cnt 0, g) (Z.of_nat <$> seq k cnt)
    = Ok (p', g')
    /\ p' ≡ₚ (Z.of_nat <$> seq k cnt) ++ p.
Proof.
  induction cnt as [|cnt IH]; intros k p g Hlen.
  - exists p, g. simpl. by rewrite app_nil_r.
  - destruct (permStep_spec p (replicate cnt 0) g k Hlen)
      as (p1 & g1 & Hstep & Hperm & Hlen1).
    destruct (IH (Datatypes.S k) p1 g1 Hlen1) as (p' & g' & Hloop & Hp').
    exists p', g'. split.
    + cbn [seq fmap list_fmap replicate foldM]. rewrite Hstep. exact Hloop.
    + rewrite Hp', Hperm. cbn [seq fmap list_fmap].
      by rewrite <- Permutation_middle.
Qed.

(** [Perm] returns, for every state of the generator, a rearrangement of
    0 .. n-1. *)
Lemma Perm_spec g n :
  0 <= n -> exists p g', Perm g n = Ok (p, g') /\ p ≡ₚ upto n.
Proof.
  intros Hn. unfold Perm, make, upto.
  replace (n <? 0) with false by lia. simpl.
  destruct (permLoop_spec (Z.to_nat n) 0 [] g eq_refl) as (p & g' & H & Hp).
  exists p, g'. split; [done|]. by rewrite app_nil_r in Hp.
Qed.

Lemma Perm_bounds g n p g' :
  Perm g n = Ok (p, g') -> Forall (fun i => 0 <= i < n) p.
Proof.
  intros H. destruct (Z.ltb_spec n 0) as [Hneg|Hn].
  - unfold Perm, make in H. by replace (n <? 0) with true in H by lia.
  - destruct (Perm_spec g n Hn) as (p1 & g1 & H1 & Hp).
    rewrite H in H1. injection H1 as <- <-.
    apply Forall_forall. intros i Hi. rewrite Hp in Hi.
    by apply upto_elem.
Qed.

Lemma Perm_one g : Perm g 1 = Ok ([0], advance g).
Proof.
  unfold Perm, make, upto. change (Z.to_nat 1) with 1%nat.
  cbn [Z.ltb Z.compare mbind res_bind replicate seq fmap list_fmap Z.of_nat
       foldM permStep].
  change (0 + 1) with 1. by rewrite Intn_one.
Qed.

Lemma mrange_nil {K V} (rt : Rand) : mrange rt (@nil (K * V)) = Ok ([], rt).
Proof. done. Qed.

Lemma mrange_one {K V} (rt : Rand) (kv : K * V) :
  mrange rt [kv] = Ok ([kv], advance rt).
Proof. unfold mrange. change (Z.of_nat (length [kv])) with 1. by rewrite Perm_one. Qed.

(** ** Bounds-checked access *)

Lemma GetRoom_outside m x y :
  outside m x y = true -> GetRoom m x y = Ok (Fresh, Some ErrOutside).
Proof.
  unfold outside, GetRoom. intros H.
  destruct ((x <? 0) || (y <? 0)) eqn:Hneg; [done|].
  simpl in H. destruct (Width m) as [w| |]; [|done..]. simpl.
  by rewrite H.
Qed.

Lemma rectangular_row m row :
  rectangular m = true -> row ∈ rooms m ->
  length row = length (hd [] (rooms m)).
Proof.
  unfold rectangular. rewrite forallb_forall. intros H Hin.
  apply Nat.eqb_eq, H. by apply list_elem_of_In.
Qed.

Lemma roomAt_inside m x y :
  rectangular m = true -> inside m x y = true -> is_Some (roomAt m x y).
Proof.
  unfold inside, roomAt, Width, Height. intros Hrect H.
  destruct (rooms m) as [|row0 rs] eqn:Hrs; [by rewrite andb_false_r in H|].
  assert (Hx : 0 <= x < Z.of_nat (length row0)) by lia.
  assert (Hy : 0 <= y < Z.of_nat (length (row0 :: rs))) by lia.
  replace ((x <? 0) || (y <? 0)) with false by lia.
  destruct ((row0 :: rs) !! Z.to_nat y) as [row|] eqn:Hrow.
  - simpl. apply lookup_lt_is_Some.
    assert (Hlen : length row = length row0).
    { rewrite <- Hrs in Hrow. apply list_elem_of_lookup_2 in Hrow.
      rewrite (rectangular_row m row Hrect Hrow), Hrs. done. }
    lia.
  - apply lookup_ge_None in Hrow. lia.
Qed.

Lemma GetRoom_inside m x y :
  rectangular m = true -> inside m x y = true ->
  GetRoom m x y = Ok (InGrid x y, None).
Proof.
  intros Hrect H. destruct (roomAt_inside m x y Hrect H) as [r Hr].
  unfold inside in H. unfold GetRoom.
  replace ((x <? 0) || (y <? 0)) with false by lia.
  destruct (Width m) as [w| |]; [|by rewrite andb_false_r in H..]. simpl.
  replace ((x >=? w) || (y >=? Height m)) with false by lia.
  by rewrite Hr.
Qed.

(** [GetRoom] returns no error exactly for the coordinates of the grid,
    and then a pointer to that very slot. *)
Lemma GetRoom_ok_inv m x y p :
  GetRoom m x y = Ok (p, None) -> p = InGrid x y /\ inside m x y = true.
Proof.
  unfold GetRoom, inside.
  destruct ((x <? 0) || (y <? 0)) eqn:Hneg; [done|].
  destruct (Width m) as [w| |]; [|done..]. simpl.
  destruct ((x >=? w) || (y >=? Height m)) eqn:Hge; [done|].
  destruct (roomAt m x y); [|done]. intros [= <-]. split; [done|]. lia.
Qed.

Lemma GetRoom_err_inv m x y p e :
  GetRoom m x y = Ok (p, Some e) ->
  p = Fresh /\ e = ErrOutside /\ outside m x y = true.
Proof.
  unfold GetRoom, outside.
  destruct ((x <? 0) || (y <? 0)) eqn:Hneg; [by intros [= <- <-]|].
  destruct (Width m) as [w| |]; [|done..]. simpl.
  destruct ((x >=? w) || (y >=? Height m)) eqn:Hge; [by intros [= <- <-]|].
  by destruct (roomAt m x y).
Qed.

Lemma GetRoom_ok_room m x y p :
  GetRoom m x y = Ok (p, None) -> p = InGrid x y /\ is_Some (roomAt m x y).
Proof.
  unfold GetRoom.
  destruct ((x <? 0) || (y <? 0)); [done|].
  destruct (Width m) as [w| |]; [|done..]. simpl.
  destruct ((x >=? w) || (y >=? Height m)); [done|].
  destruct (roomAt m x y); [|done]. intros [= <-]. eauto.
Qed.

Lemma outside_not_inside m x y : outside m x y = true -> inside m x y = false.
Proof.
  unfold outside, inside. destruct (Width m) as [w| |]; lia.
Qed.

Lemma Width_nonneg m w : Width m = Ok w -> 0 <= w.
Proof. unfold Width. destruct (rooms m); [done|]. intros [= <-]. lia. Qed.

Lemma regular_spec m :
  regular m = true <-> rectangular m = true /\ rooms m <> [].
Proof.
  unfold regular. destruct (rooms m) eqn:Hrooms; simpl.
  - split; [done|]. by intros [_ ?].
  - split; [done|]. by intros [? _].
Qed.

Lemma GetRoom_regular m x y :
  regular m = true -> exists r, GetRoom m x y = Ok r.
Proof.
  rewrite regular_spec. intros [Hrect Hne].
  destruct (inside m x y) eqn:Hin.
  - rewrite GetRoom_inside by done. by eexists.
  - rewrite GetRoom_outside; [by eexists|].
    unfold inside, outside, Width in *.
    destruct (rooms m) as [|row rs]; [done|]. lia.
Qed.

(** ** Reading and writing rooms *)

Lemma shape_store m p r : shape (store m p r) = shape m.
Proof.
  unfold shape, store. destruct p as [x y|]; [|done].
  destruct ((x <? 0) || (y <? 0)); [done|]. simpl.
  apply list_eq. intros i. rewrite !list_lookup_fmap.
  destruct (decide (i = Z.to_nat y)) as [->|Hne].
  - rewrite list_lookup_alter_eq. destruct (rooms m !! Z.to_nat y); [|done].
    simpl. by rewrite length_insert.
  - by rewrite list_lookup_alter_ne.
Qed.

Lemma shape_update m p f : shape (update m p f) = shape m.
Proof. apply shape_store. Qed.

Lemma Width_shape m m' : shape m = shape m' -> Width m = Width m'.
Proof.
  unfold shape, Width. destruct (rooms m), (rooms m'); try done.
  by intros [= -> _].
Qed.

Lemma Height_shape m m' : shape m = shape m' -> Height m = Height m'.
Proof.
  unfold shape, Height. intros H.
  apply (f_equal length) in H. rewrite !length_fmap in H. by rewrite H.
Qed.

Lemma roomAt_is_Some m x y :
  is_Some (roomAt m x y) <->
  0 <= x /\ 0 <= y /\
  exists n, shape m !! Z.to_nat y = Some n /\ (Z.to_nat x < n)%nat.
Proof.
  unfold roomAt, shape. rewrite list_lookup_fmap.
  destruct ((x <? 0) || (y <? 0)) eqn:Hneg.
  - split; [by intros [? [=]]|]. lia.
  - destruct (rooms m !! Z.to_nat y) as [row|]; simpl.
    + rewrite lookup_lt_is_Some. split.
      * intros H. split; [lia|]. split; [lia|]. by exists (length row).
      * by intros (_ & _ & n & [= <-] & H).
    + split; [by intros [? [=]]|]. by intros (_ & _ & n & [=] & _).
Qed.

Lemma roomAt_shape m m' x y :
  shape m = shape m' -> is_Some (roomAt m x y) -> is_Some (roomAt m' x y).
Proof. rewrite !roomAt_is_Some. by intros ->. Qed.

Lemma roomAt_None_shape m m' x y :
  shape m = shape m' -> roomAt m x y = None -> roomAt m' x y = None.
Proof.
  intros Hs Hnone. destruct (roomAt m' x y) as [r'|] eqn:Hr; [|done].
  destruct (roomAt_shape m' m x y (eq_sym Hs)) as [r Hr']; [by eauto|].
  congruence.
Qed.

Lemma GetRoom_shape m m' x y :
  shape m = shape m' -> GetRoom m x y = GetRoom m' x y.
Proof.
  intros H. unfold GetRoom.
  rewrite (Width_shape m m' H), (Height_shape m m' H).
  destruct ((x <? 0) || (y <? 0)); [done|].
  destruct (Width m') as [w| |]; [|done..]. simpl.
  destruct ((x >=? w) || (y >=? Height m')); [done|].
  destruct (roomAt m x y) as [r|] eqn:Hr.
  - destruct (roomAt_shape m m' x y H) as [r' ->]; by eauto.
  - destruct (roomAt m' x y) as [r'|] eqn:Hr'; [|done].
    destruct (roomAt_shape m' m x y (eq_sym H)) as [r0 Hr0]; [by eauto|].
    congruence.
Qed.

Lemma inside_shape m m' x y :
  shape m = shape m' -> inside m x y = inside m' x y.
Proof.
  intros H. unfold inside.
  by rewrite (Width_shape m m' H), (Height_shape m m' H).
Qed.

Lemma rectangular_shape m m' :
  shape m = shape m' -> rectangular m = rectangular m'.
Proof.
  unfold shape, rectangular. intros H.
  assert (Hhd : length (hd [] (rooms m)) = length (hd [] (rooms m'))).
  { destruct (rooms m), (rooms m'); try done. by injection H. }
  rewrite Hhd. clear Hhd. revert H.
  generalize (length (hd [] (rooms m'))). intros n.
  generalize (rooms m'). induction (rooms m) as [|row rs IH];
    intros [|row' rs']; try done.
  intros [= Hrow Hrs]. simpl. by rewrite Hrow, (IH rs' Hrs).
Qed.

Lemma regular_shape m m' :
  shape m' = shape m -> regular m = true -> regular m' = true.
Proof.
  rewrite !regular_spec. intros Hs [Hrect Hne]. split.
  - by rewrite (rectangular_shape m' m Hs).
  - intros Hnil. apply Hne. unfold shape in Hs. rewrite Hnil in Hs.
    by destruct (rooms m).
Qed.

Lemma fitsInt_shape m m' : shape m = shape m' -> fitsInt m = fitsInt m'.
Proof.
  intros H. unfold fitsInt, widthOf.
  by rewrite (Height_shape m m' H), (Width_shape m m' H).
Qed.

Lemma cells_shape m m' : shape m = shape m' -> cells m = cells m'.
Proof.
  intros H. unfold cells, widthOf.
  by rewrite (Height_shape m m' H), (Width_shape m m' H).
Qed.

Lemma cells_elem m x y : (x, y) ∈ cells m <-> inside m x y = true.
Proof.
  unfold cells, inside, widthOf. rewrite list_elem_of_bind. split.
  - intros (y' & Hin & Hy). apply list_elem_of_bind in Hin as (x' & Hin & Hx).
    apply list_elem_of_singleton in Hin as [= -> ->].
    apply upto_elem in Hx, Hy.
    destruct (Width m) as [w| |]; lia.
  - intros H. destruct (Width m) as [w| |]; [|by rewrite andb_false_r in H..].
    exists y. split; [|apply upto_elem; lia].
    apply list_elem_of_bind. exists x. split; [|apply upto_elem; lia].
    by apply list_elem_of_singleton.
Qed.

Lemma roomAt_store_same m x y r :
  is_Some (roomAt m x y) -> roomAt (store m (InGrid x y) r) x y = Some r.
Proof.
  unfold roomAt, store.
  destruct ((x <? 0) || (y <? 0)); [by intros [? [=]]|]. simpl.
  rewrite list_lookup_alter_eq.
  destruct (rooms m !! Z.to_nat y) as [row|]; simpl; [|by intros [? [=]]].
  intros H. apply list_lookup_insert_eq. by apply lookup_lt_is_Some.
Qed.

Lemma roomAt_store_other m p r x y :
  p <> InGrid x y -> roomAt (store m p r) x y = roomAt m x y.
Proof.
  unfold roomAt, store. intros Hne. destruct p as [x' y'|]; [|done].
  destruct ((x' <? 0) || (y' <? 0)) eqn:Hneg'; [done|].
  destruct ((x <? 0) || (y <? 0)) eqn:Hneg; [done|]. simpl.
  destruct (decide (Z.to_nat y' = Z.to_nat y)) as [Hy|Hy].
  - rewrite Hy, list_lookup_alter_eq.
    destruct (rooms m !! Z.to_nat y) as [row|]; [|done]. simpl.
    apply list_lookup_insert_ne. intros Hx. apply Hne. f_equal; lia.
  - by rewrite list_lookup_alter_ne.
Qed.

Lemma load_update_same m x y f :
  is_Some (roomAt m x y) ->
  load (update m (InGrid x y) f) (InGrid x y) = f (load m (InGrid x y)).
Proof.
  intros H. unfold update. cbn [load].
  by rewrite (roomAt_store_same m x y _ H).
Qed.

Lemma load_update_other m p q f : p <> q -> load (update m p f) q = load m q.
Proof.
  intros Hne. unfold update. destruct q as [x y|]; [|done]. cbn [load].
  by rewrite roomAt_store_other.
Qed.

Lemma roomAt_update m p f x y :
  roomAt (update m p f) x y
  = if decide (p = InGrid x y) then f <$> roomAt m x y else roomAt m x y.
Proof.
  destruct (decide (p = InGrid x y)) as [->|Hne].
  - destruct (roomAt m x y) as [r|] eqn:Hr.
    + unfold update. rewrite roomAt_store_same by eauto.
      cbn [load]. by rewrite Hr.
    + apply (roomAt_None_shape m); [by rewrite shape_update|done].
  - unfold update. by apply roomAt_store_other.
Qed.

(** A property of all rooms that the zero room has and the update keeps
    holds of all rooms after the update. *)
Lemma load_update_all (P : Room -> Prop) m p f :
  P zeroRoom -> (forall r, P r -> P (f r)) ->
  (forall q, P (load m q)) -> forall q, P (load (update m p f) q).
Proof.
  intros Hzero Hf Hall [x y|]; [|done]. cbn [load].
  rewrite roomAt_update. specialize (Hall (InGrid x y)). cbn [load] in Hall.
  case_decide; [|done]. destruct (roomAt m x y); simpl in *; auto.
Qed.

(** An update that does not change the room does not change the maze. *)
Lemma update_id m p f : f (load m p) = load m p -> update m p f = m.
Proof.
  unfold update. intros ->. destruct p as [x y|]; [|done].
  unfold store, load, roomAt.
  destruct ((x <? 0) || (y <? 0)); [done|].
  assert (Hrooms :
    alter <[Z.to_nat x := default zeroRoom
                            (rooms m !! Z.to_nat y
                             ≫= fun row : list Room => row !! Z.to_nat x)]>
          (Z.to_nat y) (rooms m) = rooms m).
  { apply list_eq. intros i.
    destruct (decide (i = Z.to_nat y)) as [->|Hne];
      [|by rewrite list_lookup_alter_ne].
    rewrite list_lookup_alter_eq.
    destruct (rooms m !! Z.to_nat y) as [row|]; [|done]. simpl. f_equal.
    apply list_insert_id'. intros Hlt.
    apply lookup_lt_is_Some in Hlt as [r ->]. done. }
  unfold setRooms. rewrite Hrooms. by destruct m.
Qed.

Lemma roomAt_Some_inside m x y r :
  rectangular m = true -> roomAt m x y = Some r -> inside m x y = true.
Proof.
  intros Hrect Hr.
  assert (Hsome : is_Some (roomAt m x y)) by eauto.
  apply roomAt_is_Some in Hsome as (Hx & Hy & n & Hn & Hlt).
  unfold shape in Hn. rewrite list_lookup_fmap in Hn.
  destruct (rooms m !! Z.to_nat y) as [row|] eqn:Hrow; [|done].
  injection Hn as <-.
  pose proof (lookup_lt_Some _ _ _ Hrow) as Hylt.
  apply list_elem_of_lookup_2 in Hrow.
  rewrite (rectangular_row m row Hrect Hrow) in Hlt.
  unfold inside, Width, Height.
  destruct (rooms m) as [|row0 rs]; [simpl in Hylt; lia|].
  rewrite length_cons in *. cbn [hd] in Hlt.
  repeat (apply andb_true_intro; split);
    first [apply Z.leb_le | apply Z.ltb_lt]; lia.
Qed.

Lemma outside_wallsAt m x y :
  rectangular m = true -> outside m x y = true -> wallsAt m x y = None.
Proof.
  intros Hrect Hout. unfold wallsAt.
  destruct (roomAt m x y) as [r|] eqn:Hr; [|done].
  apply (roomAt_Some_inside m x y r Hrect) in Hr.
  apply outside_not_inside in Hout. congruence.
Qed.

(** ** The starting grids *)

Lemma emptyRows_spec (w : Z) (cnt : nat) : forall (k : nat) (rows : list (list Room)),
  0 <= w -> length rows = k ->
  foldM (fun rs y =>
           row ← make zeroRoom w;
           Ok (<[Z.to_nat y := row]> rs))
        (rows ++ replicate cnt []) (Z.of_nat <$> seq k cnt)
  = Ok (rows ++ replicate cnt (replicate (Z.to_nat w) zeroRoom)).
Proof.
  induction cnt as [|cnt IH]; intros k rows Hw Hlen; [done|].
  cbn [seq fmap list_fmap replicate]. rewrite foldM_cons.
  cbn beta. rewrite (make_spec zeroRoom w Hw) at 1.
  cbn [mbind res_bind]. rewrite Nat2Z.id, <- Hlen.
  rewrite insert_app_r_alt by done. rewrite Nat.sub_diag. cbn [insert list_insert].
  rewrite (cons_middle _ rows), app_assoc.
  rewrite Hlen. rewrite (IH (Datatypes.S k)); [|done|].
  - by rewrite <- app_assoc.
  - rewrite length_app. simpl. lia.
Qed.

Lemma emptyMaze_spec h w :
  0 <= h -> 0 <= w -> emptyMaze h w = Ok (blankGrid h w).
Proof.
  intros Hh Hw. unfold emptyMaze, upto.
  rewrite (make_spec [] h Hh). cbn [mbind res_bind].
  pose proof (emptyRows_spec w (Z.to_nat h) 0 [] Hw eq_refl) as Hrows.
  cbn [app] in Hrows. by rewrite Hrows.
Qed.

(** [emptyMaze] returns nothing but blank grids. *)
Lemma emptyMaze_inv h w m : emptyMaze h w = Ok m -> m = blankGrid h w.
Proof.
  destruct (Z.ltb_spec h 0) as [Hh|Hh].
  { unfold emptyMaze, make. by replace (h <? 0) with true by lia. }
  destruct (Z.ltb_spec w 0) as [Hw|Hw].
  - destruct (decide (h = 0)) as [->|Hne]; [by intros [= <-]|].
    unfold emptyMaze. rewrite (make_spec [] h Hh). cbn [mbind res_bind].
    unfold upto. destruct (Z.to_nat h) as [|n] eqn:Hn; [lia|].
    cbn [seq fmap list_fmap]. rewrite foldM_Panic; [done|].
    unfold make. by replace (w <? 0) with true by lia.
  - rewrite emptyMaze_spec by done. by intros [= <-].
Qed.

Lemma blankGrid_blank h w : blank (blankGrid h w).
Proof.
  intros [x y|]; [|done]. cbn [load]. unfold roomAt, blankGrid. cbn [rooms].
  destruct ((x <? 0) || (y <? 0)); [done|].
  destruct (replicate (Z.to_nat h) _ !! Z.to_nat y) as [row|] eqn:Hrow;
    [|done]. simpl.
  apply lookup_replicate in Hrow as [-> _].
  destruct (replicate (Z.to_nat w) zeroRoom !! Z.to_nat x) as [r|] eqn:Hr;
    [|done].
  by apply lookup_replicate in Hr as [-> _].
Qed.

Lemma Width_blankGrid h w : 0 < h -> 0 <= w -> Width (blankGrid h w) = Ok w.
Proof.
  intros Hh Hw. unfold Width, blankGrid. cbn [rooms].
  destruct (Z.to_nat h) as [|n] eqn:Hn; [lia|]. cbn [replicate].
  rewrite length_replicate. f_equal. lia.
Qed.

Lemma Height_blankGrid h w : 0 <= h -> Height (blankGrid h w) = h.
Proof.
  intros Hh. unfold Height, blankGrid. cbn [rooms].
  rewrite length_replicate. lia.
Qed.

(** The sample grids are grids the constructors build. *)
Example sample_grids :
  fullMaze 1 1 = Ok closedCell /\
  fullMaze 1 2 = Ok closedPair /\
  fullMaze 2 2 = Ok closedSquare /\
  (m ← emptyMaze 2 2; '(m, _) ← SetStartPoint m 0 0;
   '(m, _) ← SetTreasure m 1 1; Ok m) = Ok openSquare.
Proof. repeat split; reflexivity. Qed.

(** ** Navigation *)

(** The four methods are one body, instantiated by [wall] and
    [neighbour]. *)
Lemma Move_unfold d m :
  Move d m =
  '(s, e) ← LookAround m;
  match e with
  | Some e => Ok (m, Some e)
  | None =>
      if wall d s then Ok (m, Some ErrWall)
      else
        '(_, err) ← GetRoom m (neighbour d (X (icarus m)) (Y (icarus m))).1
                              (neighbour d (X (icarus m)) (Y (icarus m))).2;
        match err with
        | Some err => Ok (m, Some err)
        | None =>
            Ok (moveIcarus m
                  (neighbour d (X (icarus m)) (Y (icarus m))).1
                  (neighbour d (X (icarus m)) (Y (icarus m))).2, None)
        end
  end.
Proof. by destruct d. Qed.

Lemma Move_inv d m r : Move d m = Ok r -> MoveReturn d m r.
Proof.
  rewrite Move_unfold.
  destruct (LookAround m) as [[s [e|]]| |] eqn:Hlook; simpl; [|  |done..].
  { intros [= <-]. by eapply move_refused. }
  destruct (wall d s) eqn:Hwall.
  { intros [= <-]. by eapply move_blocked. }
  destruct (GetRoom m _ _) as [[p [e|]]| |] eqn:Hget; simpl; [| |done..].
  - intros [= <-]. apply GetRoom_err_inv in Hget as (_ & -> & Hout).
    by eapply move_outside.
  - intros [= <-]. apply GetRoom_ok_inv in Hget as [_ Hin].
    by eapply move_done.
Qed.

Lemma Move_keeps_goal d m m' e : Move d m = Ok (m', e) -> end_ m' = end_ m.
Proof. intros H. apply Move_inv in H. by inversion H. Qed.

Lemma play_keeps_goal ds : forall m m', play ds m = Ok m' -> end_ m' = end_ m.
Proof.
  induction ds as [|d ds IH]; intros m m'; simpl.
  - by intros [= <-].
  - destruct (Move d m) as [[m1 e]| |] eqn:Hmove; simpl; [|done..].
    intros H. rewrite (IH _ _ H). by eapply Move_keeps_goal.
Qed.

Lemma Coordinate_eq (a b : Coordinate) : X a = X b -> Y a = Y b -> a = b.
Proof. destruct a, b; simpl; congruence. Qed.

Lemma LookAround_at_goal m :
  icarus m = end_ m -> LookAround m = Ok (zeroSurvey, Some ErrVictory).
Proof.
  intros H. unfold LookAround. rewrite H, !Z.eqb_refl. done.
Qed.

Lemma LookAround_error_inv m s e :
  LookAround m = Ok (s, Some e) ->
  icarus m = end_ m /\ e = ErrVictory /\ s = zeroSurvey.
Proof.
  unfold LookAround.
  destruct ((X (end_ m) =? X (icarus m)) && (Y (end_ m) =? Y (icarus m)))
    eqn:Heq.
  - intros [= <- <-]. split; [|done]. apply Coordinate_eq; lia.
  - unfold Discover.
    destruct (GetRoom m _ _) as [[p [e'|]]| |]; simpl; done.
Qed.

(** C10, the claim as written, fails on a maze without rows: there every
    coordinate is out of bounds, and for a coordinate without a negative
    component [GetRoom] indexes [m.rooms[0]] in [Width] and panics, so
    [Discover] returns nothing.  [emptyMaze] makes such a maze for the
    height 0. *)
Lemma Discover_no_rows_counterexample :
  emptyMaze 0 3 = Ok (blankGrid 0 3) /\
  inside (blankGrid 0 3) 0 0 = false /\
  roomAt (blankGrid 0 3) 0 0 = None /\
  GetRoom (blankGrid 0 3) 0 0 = Panic /\
  Discover (blankGrid 0 3) 0 0 = Panic.
Proof. repeat split; reflexivity. Qed.

(** C10, amended: for every coordinate with a negative component, and for
    every coordinate at or beyond the width or the height of a maze that
    has a row, [GetRoom] hands out a fresh room together with the boundary
    error, and [Discover] answers with the empty (all-false) survey and no
    error: the error is dropped, not propagated. *)
Theorem Discover_outside_no_error m x y :
  x < 0 \/ y < 0 \/
  (rooms m <> [] /\ (widthOf m <= x \/ Height m <= y)) ->
  GetRoom m x y = Ok (Fresh, Some ErrOutside) /\
  Discover m x y = Ok (zeroSurvey, None).
Proof.
  intros H.
  assert (Hout : outside m x y = true).
  { unfold outside, widthOf, Width in *.
    destruct (rooms m) as [|row rs] eqn:Hrooms.
    - destruct H as [H|[H|[H _]]]; [lia|lia|done].
    - destruct H as [H|[H|[_ H]]]; lia. }
  apply GetRoom_outside in Hout. split; [done|].
  unfold Discover. by rewrite Hout.
Qed.

Lemma Discover_outside_no_error_witness :
  (GetRoom openSquare 2 0 = Ok (Fresh, Some ErrOutside) /\
   Discover openSquare 2 0 = Ok (zeroSurvey, None)) /\
  (GetRoom (blankGrid 0 3) (-1) 0 = Ok (Fresh, Some ErrOutside) /\
   Discover (blankGrid 0 3) (-1) 0 = Ok (zeroSurvey, None)).
Proof.
  split.
  - apply (Discover_outside_no_error openSquare 2 0).
    right. right. split; [done|]. left. vm_compute. discriminate.
  - apply (Discover_outside_no_error (blankGrid 0 3) (-1) 0). left. lia.
Defined.

(** C7: [LookAround] reports victory if and only if Icarus stands on the
    goal coordinate; this holds for the state reached by any sequence of
    moves, so the first query after landing on the goal reports victory
    whatever the path was. *)
Theorem LookAround_victory_iff ds m m' :
  play ds m = Ok m' ->
  (reportsVictory m' = true <-> icarus m' = end_ m) /\
  (icarus m' = end_ m -> LookAround m' = Ok (zeroSurvey, Some ErrVictory)).
Proof.
  intros Hplay. apply play_keeps_goal in Hplay as <-.
  split; [split|].
  - unfold reportsVictory.
    destruct (LookAround m') as [[s [e|]]| |] eqn:Hlook; try done.
    intros _. by apply LookAround_error_inv in Hlook as [? _].
  - intros H. unfold reportsVictory. by rewrite LookAround_at_goal.
  - apply LookAround_at_goal.
Qed.

Lemma LookAround_victory_iff_witness :
  play [E; S] openSquare = Ok (moveIcarus (moveIcarus openSquare 1 0) 1 1) /\
  (reportsVictory (moveIcarus (moveIcarus openSquare 1 0) 1 1) = true <->
   icarus (moveIcarus (moveIcarus openSquare 1 0) 1 1) = end_ openSquare) /\
  (icarus (moveIcarus (moveIcarus openSquare 1 0) 1 1) = end_ openSquare ->
   LookAround (moveIcarus (moveIcarus openSquare 1 0) 1 1)
   = Ok (zeroSurvey, Some ErrVictory)).
Proof.
  split; [reflexivity|].
  apply (LookAround_victory_iff [E; S] openSquare). reflexivity.
Defined.

(** C6: a move that meets a wall returns an error, a move whose target
    coordinate is outside of the grid returns an error, and whenever a
    move returns an error the maze, Icarus's position and the step counter
    are what they were. *)
Theorem failed_move_keeps_state d m :
  (forall s, LookAround m = Ok (s, None) -> wall d s = true ->
     Move d m = Ok (m, Some ErrWall)) /\
  (forall s, LookAround m = Ok (s, None) -> wall d s = false ->
     outside m (neighbour d (X (icarus m)) (Y (icarus m))).1
               (neighbour d (X (icarus m)) (Y (icarus m))).2 = true ->
     Move d m = Ok (m, Some ErrOutside)) /\
  (forall m' e, Move d m = Ok (m', Some e) ->
     m' = m /\ icarus m' = icarus m /\ StepsTaken m' = StepsTaken m).
Proof.
  split; [|split].
  - intros s Hlook Hwall. rewrite Move_unfold, Hlook. simpl. by rewrite Hwall.
  - intros s Hlook Hwall Hout. rewrite Move_unfold, Hlook. simpl.
    rewrite Hwall. apply GetRoom_outside in Hout. by rewrite Hout.
  - intros m' e H. apply Move_inv in H. by inversion H.
Qed.

Lemma failed_move_keeps_state_witness :
  Move W openSquare = Ok (openSquare, Some ErrOutside) /\
  openSquare = openSquare /\
  icarus openSquare = icarus openSquare /\
  StepsTaken openSquare = StepsTaken openSquare.
Proof.
  split; [reflexivity|].
  apply (proj2 (proj2 (failed_move_keeps_state W openSquare))
           openSquare ErrOutside).
  reflexivity.
Defined.

Lemma goMaze_facts m :
  goMaze m = true ->
  rectangular m = true /\
  Height m <= GoInt.max_int /\
  (forall w, Width m = Ok w -> w <= GoInt.max_int) /\
  GoInt.in_range (X (icarus m)) /\ GoInt.in_range (Y (icarus m)) /\
  GoInt.in_range (StepsTaken m).
Proof.
  unfold goMaze. rewrite !andb_true_iff.
  intros [[[[[[[Hrect Hh] Hw] Hx] Hy] _] _] Hs].
  split; [done|]. split; [lia|]. split.
  { intros w. unfold Width. destruct (rooms m); [done|].
    intros [= <-]. simpl in Hw. lia. }
  by repeat split; apply intb_in_range.
Qed.

(** The neighbour a move computes is the coordinate one step away,
    without wrap-around, as soon as either of them is in the grid. *)
Lemma neighbour_inside d m :
  goMaze m = true ->
  inside m (neighbour d (X (icarus m)) (Y (icarus m))).1
           (neighbour d (X (icarus m)) (Y (icarus m))).2 = true ->
  neighbour d (X (icarus m)) (Y (icarus m))
  = (X (icarus m) + DX d, Y (icarus m) + DY d).
Proof.
  intros Hgo. apply goMaze_facts in Hgo as (_ & Hh & Hw & Hx & Hy & _).
  unfold inside. destruct (Width m) as [w| |]; [|by rewrite andb_false_r..].
  specialize (Hw w eq_refl). intros H.
  destruct d; simpl in *; f_equal; try lia.
  - apply (sub1_below _ (Height m)); [done..|lia].
  - apply add1_nonneg; [done|lia].
  - apply add1_nonneg; [done|lia].
  - apply (sub1_below _ w); [done..|lia].
Qed.

Lemma inside_neighbour d m :
  goMaze m = true ->
  inside m (X (icarus m) + DX d) (Y (icarus m) + DY d) = true ->
  neighbour d (X (icarus m)) (Y (icarus m))
  = (X (icarus m) + DX d, Y (icarus m) + DY d).
Proof.
  intros Hgo. apply goMaze_facts in Hgo as (_ & Hh & Hw & Hx & Hy & _).
  unfold inside. destruct (Width m) as [w| |]; [|by rewrite andb_false_r..].
  specialize (Hw w eq_refl). intros H.
  unfold GoInt.in_range, GoInt.min_int, GoInt.max_int in *.
  destruct d; simpl in *; f_equal; try lia;
    unfold GoInt.add, GoInt.sub; apply wrap_id;
    unfold GoInt.in_range, GoInt.min_int, GoInt.max_int; lia.
Qed.

(** C1, the claim as written, fails: in the wall-less 2 x 2 grid the
    survey at (0,0) shows no wall to the west, yet the move to the west is
    refused; and on the goal the survey handed back shows no wall at all,
    yet every move is refused. *)
Lemma move_iff_no_wall_counterexample :
  (noWallSeen W openSquare = true /\ succeeded W openSquare = false) /\
  (noWallSeen N atGoal = true /\ succeeded N atGoal = false).
Proof. repeat split; reflexivity. Qed.

(** C1, amended: in every maze Go can hold, a move in direction [d]
    succeeds if and only if [LookAround] delivers a survey (Icarus is not
    on the goal) that shows no wall in direction [d] and the coordinate
    one step in direction [d] is inside the grid; on every successful move
    Icarus's position becomes exactly that coordinate, the grid is
    untouched and the step counter is incremented (by exactly 1 unless it
    was the largest int). *)
Theorem move_survey_consistency d m :
  goMaze m = true ->
  (succeeded d m = true <->
   surveyedOpen d m = true /\
   inside m (X (icarus m) + DX d) (Y (icarus m) + DY d) = true) /\
  (forall m', Move d m = Ok (m', None) ->
     icarus m' = mkCoordinate (X (icarus m) + DX d) (Y (icarus m) + DY d) /\
     rooms m' = rooms m /\
     StepsTaken m' = StepsTaken m +i 1 /\
     (StepsTaken m < GoInt.max_int -> StepsTaken m' = StepsTaken m + 1)).
Proof.
  intros Hgo. split; [split|].
  - unfold succeeded, surveyedOpen.
    destruct (Move d m) as [[m' [e|]]| |] eqn:Hmove; try done. intros _.
    apply Move_inv in Hmove. inversion Hmove as [| | |s Hlook Hwall Hin Heq].
    rewrite Hlook, Hwall. split; [done|].
    by rewrite (neighbour_inside d m Hgo Hin) in Hin.
  - unfold succeeded, surveyedOpen. intros [Hsurvey Hin].
    rewrite Move_unfold.
    destruct (LookAround m) as [[s [e|]]| |]; try done. simpl.
    destruct (wall d s); [done|].
    rewrite (inside_neighbour d m Hgo Hin). simpl.
    apply goMaze_facts in Hgo as (Hrect & _).
    by rewrite (GetRoom_inside m _ _ Hrect Hin).
  - intros m' Hmove. apply Move_inv in Hmove.
    inversion Hmove as [| | |s Hlook Hwall Hin Heq].
    rewrite (neighbour_inside d m Hgo Hin). simpl.
    repeat split. intros Hlt.
    apply goMaze_facts in Hgo as (_ & _ & _ & _ & _ & Hs).
    apply wrap_id.
    unfold GoInt.in_range, GoInt.min_int, GoInt.max_int in *. lia.
Qed.

Lemma move_survey_consistency_witness :
  goMaze openSquare = true /\
  (succeeded E openSquare = true <->
   surveyedOpen E openSquare = true /\
   inside openSquare (X (icarus openSquare) + DX E)
          (Y (icarus openSquare) + DY E) = true) /\
  (forall m', Move E openSquare = Ok (m', None) ->
     icarus m'
     = mkCoordinate (X (icarus openSquare) + DX E)
                    (Y (icarus openSquare) + DY E) /\
     rooms m' = rooms openSquare /\
     StepsTaken m' = StepsTaken openSquare +i 1 /\
     (StepsTaken openSquare < GoInt.max_int ->
      StepsTaken m' = StepsTaken openSquare + 1)).
Proof.
  split; [reflexivity|].
  apply (move_survey_consistency E openSquare). reflexivity.
Defined.

(** ** The candidate edges of Kruskal *)

Lemma rowEdges_fold y (xs : list Z) : forall acc,
  foldl (fun edges x =>
           foldl (fun edges d => edges ++ [(x, y, d)]) edges (take 2 DIRECTIONS))
        acc xs
  = acc ++ (xs ≫= cellEdges y).
Proof.
  induction xs as [|x xs IH]; intros acc.
  - by rewrite app_nil_r.
  - cbn [foldl]. rewrite IH, bind_cons. simpl. by rewrite <- !app_assoc.
Qed.

Lemma edgeRow_spec m w acc r y :
  Width m = Ok w ->
  exists xs r',
    edgeRow m (acc, r) y = Ok (acc ++ (xs ≫= cellEdges y), r')
    /\ xs ≡ₚ upto w.
Proof.
  intros Hw. unfold edgeRow. rewrite Hw. cbn [mbind res_bind].
  destruct (Perm_spec r w (Width_nonneg m w Hw)) as (xs & r1 & -> & Hxs).
  cbn [mbind res_bind]. rewrite rowEdges_fold. by exists xs, r1.
Qed.

Lemma edgeRows_spec m w (ys : list Z) : forall acc r,
  Width m = Ok w ->
  exists es r',
    foldM (edgeRow m) (acc, r) ys = Ok (acc ++ es, r')
    /\ es ≡ₚ (ys ≫= fun y => upto w ≫= cellEdges y).
Proof.
  induction ys as [|y ys IH]; intros acc r Hw.
  - exists [], r. by rewrite app_nil_r.
  - rewrite foldM_cons.
    destruct (edgeRow_spec m w acc r y Hw) as (xs & r1 & -> & Hxs).
    cbn [mbind res_bind].
    destruct (IH (acc ++ (xs ≫= cellEdges y)) r1 Hw) as (es & r' & -> & Hes).
    exists ((xs ≫= cellEdges y) ++ es), r'. split.
    + by rewrite app_assoc.
    + rewrite bind_cons, Hes. by rewrite Hxs.
Qed.

(** [kruskalEdges] returns for every grid and generator, and lists the
    north and west edges of all cells. *)
Lemma kruskalEdges_spec m r :
  exists edges r',
    kruskalEdges m r = Ok (edges, r') /\ edges ≡ₚ northWestEdges m.
Proof.
  unfold kruskalEdges, northWestEdges.
  destruct (Perm_spec r (Height m)) as (ys & r1 & -> & Hys).
  { unfold Height. lia. }
  cbn [mbind res_bind].
  destruct (Width m) as [w| |] eqn:Hw.
  - destruct (edgeRows_spec m w ys [] r1 Hw) as (es & r' & -> & Hes).
    exists es, r'. split; [done|].
    unfold widthOf. rewrite Hw. by rewrite Hes, Hys.
  - assert (Hh : Height m = 0).
    { unfold Width in Hw. unfold Height. by destruct (rooms m). }
    rewrite Hh in Hys. apply Permutation_nil_r in Hys as ->.
    exists [], r1. by rewrite Hh.
  - unfold Width in Hw. by destruct (rooms m).
Qed.

Lemma northWestEdges_elem m e :
  e ∈ northWestEdges m <->
  inside m e.1.1 e.1.2 = true /\ (e.2 = N \/ e.2 = W).
Proof.
  unfold northWestEdges, inside, widthOf. rewrite list_elem_of_bind.
  destruct e as [[x y] d]. simpl. split.
  - intros (y' & Hin & Hy). apply list_elem_of_bind in Hin as (x' & Hin & Hx).
    apply upto_elem in Hy, Hx. unfold cellEdges in Hin.
    destruct (Width m) as [w| |]; [|lia..].
    rewrite !elem_of_cons, elem_of_nil in Hin.
    destruct Hin as [[= -> -> ->]|[[= -> -> ->]|[]]]; (split; [lia|auto]).
  - intros [Hin Hd]. exists y.
    destruct (Width m) as [w| |]; [|by rewrite andb_false_r in Hin..].
    split; [|apply upto_elem; lia].
    apply list_elem_of_bind. exists x. split; [|apply upto_elem; lia].
    unfold cellEdges. rewrite !elem_of_cons.
    destruct Hd as [-> | ->]; auto.
Qed.

Lemma northWestEdges_NoDup m : NoDup (northWestEdges m).
Proof.
  unfold northWestEdges, upto.
  apply NoDup_bind.
  - intros y1 y2 e _ _ H1 H2.
    apply list_elem_of_bind in H1 as (x1 & H1 & _).
    apply list_elem_of_bind in H2 as (x2 & H2 & _).
    unfold cellEdges in *. rewrite !elem_of_cons, elem_of_nil in H1, H2.
    destruct H1 as [->|[->|[]]], H2 as [[=]|[[=]|[]]]; done.
  - intros y _. apply NoDup_bind.
    + intros x1 x2 e _ _ H1 H2.
      unfold cellEdges in *. rewrite !elem_of_cons, elem_of_nil in H1, H2.
      destruct H1 as [->|[->|[]]], H2 as [[=]|[[=]|[]]]; done.
    + intros x _. unfold cellEdges.
      apply NoDup_cons. split; [|apply NoDup_singleton].
      rewrite list_elem_of_singleton. done.
    + apply NoDup_fmap_2; [apply Nat2Z.inj'|apply NoDup_seq].
  - apply NoDup_fmap_2; [apply Nat2Z.inj'|apply NoDup_seq].
Qed.

Lemma edgeBetween_unique m a b e :
  inside m a.1 a.2 = true -> inside m b.1 b.2 = true ->
  adjacent a b = true ->
  (joins a b e /\ e ∈ northWestEdges m) <-> e = edgeBetween a b.
Proof.
  intros Ha Hb Hadj. rewrite northWestEdges_elem.
  destruct a as [ax ay], b as [bx by_], e as [[x y] d].
  unfold joins, adjacent, edgeBetween in *. simpl in *. split.
  - intros [Hj [_ Hd]].
    destruct Hd as [-> | ->]; simpl in Hj;
      destruct Hj as [[[= -> ->] [= <- <-]]|[[= -> ->] [= <- <-]]];
      repeat case_match; try lia; done.
  - intros He.
    repeat case_match; injection He as -> -> ->; simpl;
      (split; [|split; [done|auto]]);
      [left|right|left|right]; split; f_equal; lia.
Qed.

Lemma filter_unique {A} (P : A -> Prop) `{!forall x, Decision (P x)}
    (l : list A) (a : A) :
  NoDup l -> (forall x, (P x /\ x ∈ l) <-> x = a) -> length (filter P l) = 1%nat.
Proof.
  intros Hnd Huniq.
  assert (Hperm : filter P l ≡ₚ [a]).
  { apply NoDup_Permutation.
    - by apply NoDup_filter.
    - apply NoDup_singleton.
    - intros x. rewrite list_elem_of_filter, list_elem_of_singleton.
      apply Huniq. }
  by rewrite Hperm.
Qed.

(** C4, the claim as written, fails: [kruskal] lists north and west
    edges, not east and south ones.  On the grid of one row and two
    columns the wall between the two rooms is listed as the west edge of
    the room (1,0); the east edge of the room (0,0) is not listed, and no
    candidate is an east or a south edge. *)
Lemma kruskal_edges_counterexample :
  exists edges r',
    kruskalEdges closedPair counting = Ok (edges, r') /\
    ((1, 0, W) ∈ edges) /\ ((0, 0, E) ∉ edges) /\
    Forall (fun e => snd e <> E /\ snd e <> S) edges.
Proof.
  eexists _, _. split; [vm_compute; reflexivity|].
  split; [|split].
  - rewrite !elem_of_cons. tauto.
  - rewrite !not_elem_of_cons. repeat split; try done. apply not_elem_of_nil.
  - repeat constructor; done.
Qed.

(** C4, amended: for every grid and every state of the generator, the
    candidate edges [kruskal] enumerates are north and west edges of
    cells of the grid, and every internal wall, i.e. every pair of
    adjacent cells of the grid, is covered by exactly one candidate
    edge. *)
Theorem kruskal_candidate_edges m r :
  exists edges r',
    kruskalEdges m r = Ok (edges, r') /\
    (forall e, e ∈ edges ->
               inside m e.1.1 e.1.2 = true /\ (e.2 = N \/ e.2 = W)) /\
    forall a b,
      inside m a.1 a.2 = true -> inside m b.1 b.2 = true ->
      adjacent a b = true ->
      length (filter (joins a b) edges) = 1%nat.
Proof.
  destruct (kruskalEdges_spec m r) as (edges & r' & Hrun & Hperm).
  exists edges, r'. split; [done|]. split.
  - intros e He. rewrite Hperm in He. by apply northWestEdges_elem.
  - intros a b Ha Hb Hadj. rewrite Hperm.
    apply (filter_unique _ _ (edgeBetween a b)).
    + apply northWestEdges_NoDup.
    + intros e. by apply edgeBetween_unique.
Qed.

Lemma kruskal_candidate_edges_witness :
  exists edges r',
    kruskalEdges openSquare counting = Ok (edges, r') /\
    Forall (fun e => snd e = N \/ snd e = W) edges /\
    length (filter (joins (0, 0) (1, 0)) edges) = 1%nat.
Proof.
  destruct (kruskal_candidate_edges openSquare counting)
    as (edges & r' & Hrun & Hnw & Hone).
  exists edges, r'. split; [exact Hrun|]. split.
  - apply Forall_forall. intros e He. by destruct (Hnw e He).
  - apply (Hone (0, 0) (1, 0)); reflexivity.
Defined.

(** The candidates that leave the grid are processed like the others: the
    room outside is a fresh one, never connected, so the wall towards it
    is removed.  On the 1 x 1 grid [kruskal] removes the north and the
    west border wall; on the 2 x 2 grid it removes 3 internal walls. *)
Example kruskal_opens_border :
  ((fun r => Walls (load r.1 (InGrid 0 0)))
     <$> kruskal countingFrom 4 closedCell counting)
  = Ok (mkSurvey false true true false) /\
  (removedInternalWalls ∘ fst <$> kruskal countingFrom 8 closedSquare counting)
  = Ok 3%nat.
Proof. split; reflexivity. Qed.

(** ** The backtracker *)

(** *** The [visited] flag is only ever set *)

Lemma DIRECTIONS_lookup i :
  0 <= i < 4 -> exists d, DIRECTIONS !! Z.to_nat i = Some d.
Proof.
  intros Hi.
  assert (Hc : i = 0 \/ i = 1 \/ i = 2 \/ i = 3) by lia.
  destruct Hc as [->|[->|[->| ->]]]; by eexists.
Qed.

Lemma dirIndex_lookup d : DIRECTIONS !! Z.to_nat (dirIndex d) = Some d.
Proof. by destruct d. Qed.

Lemma grows_refl m : grows m m.
Proof. by split. Qed.

Lemma grows_trans m1 m2 m3 : grows m1 m2 -> grows m2 m3 -> grows m1 m3.
Proof.
  intros [Hs1 Hv1] [Hs2 Hv2]. split; [congruence|]. auto.
Qed.

(** An update by a function that keeps (or sets) the flag never clears a
    flag. *)
Lemma grows_update m p f :
  (forall r, Visited r = true -> Visited (f r) = true) ->
  grows m (update m p f).
Proof.
  intros Hf. split; [apply shape_update|]. intros q Hq.
  destruct (decide (p = q)) as [<-|Hne]; [|by rewrite load_update_other].
  destruct p as [x y|]; [|done].
  destruct (roomAt m x y) as [r|] eqn:Hr.
  - rewrite load_update_same by eauto. by apply Hf.
  - cbn [load] in *.
    rewrite (roomAt_None_shape m (update m (InGrid x y) f) x y); [|by rewrite shape_update|done].
    by rewrite Hr in Hq.
Qed.

(** One carving step: the two walls go, the neighbour is marked. *)
Lemma carve_step_grows m croom x y d :
  is_Some (roomAt m x y) ->
  let m1 := update (update (update m croom (RmWall d)) (InGrid x y)
                           (RmWall (OPPOSITE d))) (InGrid x y) markVisited in
  grows m m1 /\ Visited (load m1 (InGrid x y)) = true.
Proof.
  intros Hroom m1. split.
  - eapply grows_trans; [|eapply grows_trans]; apply grows_update; done.
  - subst m1. rewrite load_update_same; [done|].
    eapply roomAt_shape; [|exact Hroom]. by rewrite !shape_update.
Qed.

Section CarveLoop.
Variable rec : Maze -> Z -> Z -> Rand -> res (Maze * Rand).
Hypothesis rec_grows :
  forall m x y g m' g', rec m x y g = Ok (m', g') -> grows m m'.

Lemma carveLoop_grows x y (p : list Z) : forall m g m' g',
  carveLoop rec x y p m g = Ok (m', g') ->
  grows m m' /\
  forall i d, i ∈ p -> DIRECTIONS !! Z.to_nat i = Some d ->
    inside m (x +i DX d) (y +i DY d) = true ->
    Visited (load m' (InGrid (x +i DX d) (y +i DY d))) = true.
Proof.
  induction p as [|i p IH]; intros m g m' g'.
  { intros [= <- <-]. split; [apply grows_refl|]. intros i d Hi.
    by apply elem_of_nil in Hi. }
  cbn [carveLoop].
  destruct (DIRECTIONS !! Z.to_nat i) as [d|] eqn:Hd; [|done].
  destruct (GetRoom m x y) as [[croom e]| |]; [|done..].
  cbn [mbind res_bind].
  destruct (GetRoom m (x +i DX d) (y +i DY d)) as [[room [err|]]| |]
    eqn:Hget; [| |done..]; cbn [mbind res_bind].
  - (* the neighbour is outside *)
    intros Hloop. destruct (IH _ _ _ _ Hloop) as [Hg Hmarks].
    split; [done|]. intros i' d' Hi' Hd' Hin.
    apply elem_of_cons in Hi' as [->|Hi']; [|by eauto].
    assert (d' = d) as -> by congruence.
    apply GetRoom_err_inv in Hget as (_ & _ & Hout).
    apply outside_not_inside in Hout. congruence.
  - apply GetRoom_ok_room in Hget as [-> Hroom].
    destruct (Visited (load m (InGrid (x +i DX d) (y +i DY d)))) eqn:Hv.
    + (* the neighbour is visited already *)
      intros Hloop. destruct (IH _ _ _ _ Hloop) as [Hg Hmarks].
      split; [done|]. intros i' d' Hi' Hd' Hin.
      apply elem_of_cons in Hi' as [->|Hi']; [|by eauto].
      assert (d' = d) as -> by congruence. by apply Hg.
    + (* carve, mark, recurse *)
      destruct (carve_step_grows m croom _ _ d Hroom) as [Hg1 Hv1].
      destruct (rec _ _ _ g) as [[m2 g2]| |] eqn:Hrec; [|done..].
      cbn [mbind res_bind]. intros Hloop.
      apply rec_grows in Hrec.
      destruct (IH _ _ _ _ Hloop) as [Hg2 Hmarks].
      assert (Hg : grows m m2) by (by eapply grows_trans).
      split; [by eapply grows_trans|].
      intros i' d' Hi' Hd' Hin.
      apply elem_of_cons in Hi' as [->|Hi'].
      * assert (d' = d) as -> by congruence.
        apply Hg2, Hrec, Hv1.
      * apply (Hmarks i' d' Hi' Hd').
        rewrite (inside_shape m2 m); [done|apply Hg].
Qed.
End CarveLoop.

Lemma carvePassagesFrom_grows fuel : forall m x y g m' g',
  carvePassagesFrom fuel m x y g = Ok (m', g') -> grows m m'.
Proof.
  induction fuel as [|fuel IH]; intros m x y g m' g'; [done|].
  cbn [carvePassagesFrom].
  destruct (Perm g 4) as [[p g1]| |]; [|done..]. cbn [mbind res_bind].
  intros Hloop. by apply (carveLoop_grows _ IH) in Hloop as [? _].
Qed.

(** Whenever the backtracker returns, every room of the grid next to its
    starting point is marked visited. *)
Lemma carvePassagesFrom_marks fuel m x y g m' g' d :
  carvePassagesFrom fuel m x y g = Ok (m', g') ->
  inside m (x +i DX d) (y +i DY d) = true ->
  Visited (load m' (InGrid (x +i DX d) (y +i DY d))) = true.
Proof.
  destruct fuel as [|fuel]; [done|]. cbn [carvePassagesFrom].
  destruct (Perm_spec g 4 ltac:(lia)) as (p & g1 & -> & Hp).
  cbn [mbind res_bind]. intros Hloop Hin.
  apply (carveLoop_grows _ (carvePassagesFrom_grows fuel)) in Hloop
    as [_ Hmarks].
  apply (Hmarks (dirIndex d) d); [|apply dirIndex_lookup|done].
  rewrite Hp. apply upto_elem. destruct d; simpl; lia.
Qed.

Lemma visited_not_allUnvisited m x y :
  Visited (load m (InGrid x y)) = true -> allUnvisited m = false.
Proof.
  cbn [load]. unfold roomAt.
  destruct ((x <? 0) || (y <? 0)); [done|].
  destruct (rooms m !! Z.to_nat y) as [row|] eqn:Hrow; [|done]. simpl.
  destruct (row !! Z.to_nat x) as [r|] eqn:Hr; [|done]. simpl. intros Hv.
  apply not_true_is_false. unfold allUnvisited. rewrite forallb_forall.
  intros Hall. apply list_elem_of_lookup_2, list_elem_of_In in Hrow, Hr.
  specialize (Hall row Hrow). rewrite forallb_forall in Hall.
  specialize (Hall r Hr). by rewrite Hv in Hall.
Qed.

(** *** Termination *)

Lemma filter_length_le {A} (P Q : A -> Prop)
    `{!forall x, Decision (P x)} `{!forall x, Decision (Q x)} (l : list A) :
  (forall x, x ∈ l -> Q x -> P x) ->
  (length (filter Q l) <= length (filter P l))%nat.
Proof.
  induction l as [|a l IH]; intros Himp; [done|].
  rewrite !filter_cons.
  assert (IH' : (length (filter Q l) <= length (filter P l))%nat).
  { apply IH. intros x Hx. apply Himp. by right. }
  destruct (decide (Q a)) as [HQ|HQ].
  - rewrite decide_True by (apply Himp; [by left|done]). simpl. lia.
  - destruct (decide (P a)); simpl; lia.
Qed.

Lemma filter_length_lt {A} (P Q : A -> Prop)
    `{!forall x, Decision (P x)} `{!forall x, Decision (Q x)} (l : list A) c :
  (forall x, x ∈ l -> Q x -> P x) -> c ∈ l -> P c -> ~ Q c ->
  (length (filter Q l) < length (filter P l))%nat.
Proof.
  induction l as [|a l IH]; intros Himp Hc HP HQ.
  { by apply elem_of_nil in Hc. }
  rewrite !filter_cons.
  assert (Himp' : forall x, x ∈ l -> Q x -> P x).
  { intros x Hx. apply Himp. by right. }
  pose proof (filter_length_le P Q l Himp') as Hle.
  apply elem_of_cons in Hc as [<-|Hc].
  - rewrite decide_False by done. rewrite decide_True by done. simpl. lia.
  - specialize (IH Himp' Hc HP HQ).
    destruct (decide (Q a)) as [HQa|HQa].
    + rewrite decide_True by (apply Himp; [by left|done]). simpl. lia.
    + destruct (decide (P a)); simpl; lia.
Qed.

Lemma pending_grows m m' : grows m m' -> (pending m' <= pending m)%nat.
Proof.
  intros [Hs Hv]. unfold pending. rewrite (cells_shape m' m Hs).
  apply filter_length_le. intros c _ Hc.
  destruct (Visited (load m (InGrid c.1 c.2))) eqn:Hm; [|done].
  by rewrite (Hv _ Hm) in Hc.
Qed.

Lemma pending_marked m m' x y :
  grows m m' -> inside m x y = true ->
  Visited (load m (InGrid x y)) = false ->
  Visited (load m' (InGrid x y)) = true ->
  (pending m' < pending m)%nat.
Proof.
  intros [Hs Hv] Hin Hm Hm'. unfold pending. rewrite (cells_shape m' m Hs).
  apply (filter_length_lt _ _ _ (x, y)).
  - intros c _ Hc.
    destruct (Visited (load m (InGrid c.1 c.2))) eqn:Hmc; [|done].
    by rewrite (Hv _ Hmc) in Hc.
  - by apply cells_elem.
  - done.
  - cbn [fst snd]. by rewrite Hm'.
Qed.

Section CarveReturns.
Variable rec : Maze -> Z -> Z -> Rand -> res (Maze * Rand).
Variable n : nat.
Hypothesis rec_grows :
  forall m x y g m' g', rec m x y g = Ok (m', g') -> grows m m'.
Hypothesis rec_returns :
  forall m x y g, regular m = true -> (pending m < n)%nat ->
    exists m' g', rec m x y g = Ok (m', g').

Lemma carveLoop_returns x y (p : list Z) : forall m g,
  Forall (fun i => 0 <= i < 4) p -> regular m = true ->
  (pending m <= n)%nat ->
  exists m' g', carveLoop rec x y p m g = Ok (m', g').
Proof.
  induction p as [|i p IH]; intros m g Hp Hreg Hpend; [by eexists _, _|].
  apply Forall_cons in Hp as [Hi Hp]. cbn [carveLoop].
  destruct (DIRECTIONS_lookup i Hi) as [d ->].
  destruct (GetRoom_regular m x y Hreg) as [[croom e] ->].
  cbn [mbind res_bind].
  destruct (GetRoom_regular m (x +i DX d) (y +i DY d) Hreg)
    as [[room [err|]] Hget]; rewrite Hget; cbn [mbind res_bind].
  { by apply IH. }
  destruct (GetRoom_ok_room _ _ _ _ Hget) as [-> Hroom].
  apply GetRoom_ok_inv in Hget as [_ Hin].
  destruct (Visited (load m (InGrid (x +i DX d) (y +i DY d)))) eqn:Hv.
  { by apply IH. }
  destruct (carve_step_grows m croom _ _ d Hroom) as [Hg1 Hv1].
  set (m1 := update _ _ markVisited) in *.
  assert (Hlt : (pending m1 < pending m)%nat)
    by (by eapply pending_marked).
  assert (Hreg1 : regular m1 = true)
    by (eapply regular_shape; [apply Hg1|done]).
  destruct (rec_returns m1 (x +i DX d) (y +i DY d) g Hreg1 ltac:(lia))
    as (m2 & g2 & Hrec).
  rewrite Hrec. cbn [mbind res_bind].
  apply rec_grows in Hrec.
  apply IH; [done| |].
  - eapply regular_shape; [apply Hrec|done].
  - apply pending_grows in Hrec. lia.
Qed.
End CarveReturns.

Lemma carvePassagesFrom_returns fuel : forall m x y g,
  regular m = true -> (pending m < fuel)%nat ->
  exists m' g', carvePassagesFrom fuel m x y g = Ok (m', g').
Proof.
  induction fuel as [|fuel IH]; intros m x y g Hreg Hpend; [lia|].
  cbn [carvePassagesFrom].
  destruct (Perm_spec g 4 ltac:(lia)) as (p & g1 & Hperm & _).
  rewrite Hperm. cbn [mbind res_bind].
  apply (carveLoop_returns _ fuel (carvePassagesFrom_grows fuel) IH);
    [by eapply Perm_bounds|done|lia].
Qed.

(** The backtracker terminates: on every grid of equal, existing rows, from
    every start and for every state of the generator, it returns once the
    fuel exceeds the number of rooms not yet visited; the result has the
    shape of the grid it was given. *)
Theorem backtracker_terminates m x y g :
  regular m = true ->
  exists m' g',
    carvePassagesFrom (Datatypes.S (pending m)) m x y g = Ok (m', g') /\
    shape m' = shape m.
Proof.
  intros Hreg.
  destruct (carvePassagesFrom_returns (Datatypes.S (pending m)) m x y g Hreg
              ltac:(lia)) as (m' & g' & Hrun).
  exists m', g'. split; [done|].
  by apply carvePassagesFrom_grows in Hrun as [? _].
Qed.

(** C8 fails on the code: [carvePassagesFrom] ends on its TODO and never
    resets the flag.  On every grid of equal, existing rows, from every
    start that has a neighbour in the grid and for every state of the
    generator, the backtracker returns and that neighbour is still marked
    visited. *)
Theorem backtracker_leaves_visited m x y g d :
  regular m = true ->
  inside m (x +i DX d) (y +i DY d) = true ->
  exists m' g',
    carvePassagesFrom (Datatypes.S (pending m)) m x y g = Ok (m', g') /\
    Visited (load m' (InGrid (x +i DX d) (y +i DY d))) = true /\
    allUnvisited m' = false.
Proof.
  intros Hreg Hin.
  destruct (backtracker_terminates m x y g Hreg) as (m' & g' & Hrun & _).
  exists m', g'. split; [done|].
  pose proof (carvePassagesFrom_marks _ _ _ _ _ _ _ d Hrun Hin) as Hv.
  split; [done|]. by eapply visited_not_allUnvisited.
Qed.

Lemma backtracker_leaves_visited_witness :
  allUnvisited closedPair = true /\
  exists m' g',
    carvePassagesFrom (Datatypes.S (pending closedPair)) closedPair 0 0
                      counting = Ok (m', g') /\
    Visited (load m' (InGrid (0 +i DX E) (0 +i DY E))) = true /\
    allUnvisited m' = false.
Proof.
  split; [reflexivity|].
  apply (backtracker_leaves_visited closedPair 0 0 counting E);
    reflexivity.
Defined.

(** *** Both sides of a wall are removed *)

Lemma wall_setWall d0 d b s :
  wall d0 (setWall d b s) = if decide (d0 = d) then b else wall d0 s.
Proof. by destruct d0, d, s. Qed.

(** The wall flags after one carving step from [croom] towards the room at
    (nx, ny) in direction [d]. *)
Lemma carve_step_walls m croom nx ny d x y :
  wallsAt (update (update (update m croom (RmWall d)) (InGrid nx ny)
                          (RmWall (OPPOSITE d))) (InGrid nx ny) markVisited)
          x y
  = (fun s =>
       let s := if decide (croom = InGrid x y) then setWall d false s else s in
       if decide (InGrid nx ny = InGrid x y)
       then setWall (OPPOSITE d) false s else s)
    <$> wallsAt m x y.
Proof.
  unfold wallsAt. rewrite !roomAt_update.
  destruct (roomAt m x y) as [r|]; [|by repeat case_decide].
  by repeat case_decide.
Qed.

Lemma step_back x y d :
  x + DX d + DX (OPPOSITE d) = x /\ y + DY d + DY (OPPOSITE d) = y.
Proof. destruct d; simpl; lia. Qed.

(** Closing the impossible cases of a comparison of coordinates. *)
Ltac coords :=
  repeat match goal with
         | H : InGrid _ _ = InGrid _ _ |- _ => injection H as ? ?
         end;
  first
    [ exfalso; lia
    | exfalso;
      match goal with
      | H : InGrid _ _ <> InGrid _ _ |- _ => solve [apply H; f_equal; lia]
      end
    | exfalso;
      match goal with
      | Hb : wallsAt ?m ?a ?b = Some _, Hn : wallsAt ?m ?c ?e = None |- _ =>
          replace a with c in Hb by lia; replace b with e in Hb by lia;
          congruence
      end ].

Lemma carve_step_symmetric m croom x y d :
  Symmetric m ->
  croom = InGrid x y \/ (croom = Fresh /\ wallsAt m x y = None) ->
  Symmetric (update (update (update m croom (RmWall d))
                            (InGrid (x + DX d) (y + DY d))
                            (RmWall (OPPOSITE d)))
                    (InGrid (x + DX d) (y + DY d)) markVisited).
Proof.
  intros Hsym Hcroom x0 y0 d0 sa sb. rewrite !carve_step_walls.
  destruct (wallsAt m x0 y0) as [sa0|] eqn:Ha; [|done].
  destruct (wallsAt m (x0 + DX d0) (y0 + DY d0)) as [sb0|] eqn:Hb; [|done].
  pose proof (Hsym x0 y0 d0 sa0 sb0 Ha Hb) as Hagree.
  intros [= <-] [= <-]. cbn zeta.
  destruct Hcroom as [-> | [-> Hnone]];
    destruct d, d0; cbn [DX DY OPPOSITE] in *;
    repeat case_decide; rewrite ?wall_setWall; repeat case_decide;
    try done; try congruence; coords.
Qed.

(** A step that lands in the grid did not wrap around. *)
Lemma step_inside m x y d :
  fitsInt m = true -> GoInt.in_range x -> GoInt.in_range y ->
  inside m (x +i DX d) (y +i DY d) = true ->
  x +i DX d = x + DX d /\ y +i DY d = y + DY d.
Proof.
  unfold fitsInt, inside, widthOf. intros Hfit Hx Hy Hin.
  destruct (Width m) as [w| |]; [|by rewrite andb_false_r in Hin..].
  assert (Hw : w <= GoInt.max_int) by lia.
  assert (Hh : Height m <= GoInt.max_int) by lia.
  assert (H0 : forall z, GoInt.in_range z -> z +i 0 = z + 0).
  { intros z Hz. unfold GoInt.add. rewrite Z.add_0_r. by apply wrap_id. }
  destruct d; cbn [DX DY] in *; (split; [|]); try (by apply H0).
  - apply (sub1_below y (Height m)); [done..|].
    change (y -i 1) with (y +i -1). lia.
  - apply add1_nonneg; [done|lia].
  - apply add1_nonneg; [done|lia].
  - apply (sub1_below x w); [done..|].
    change (x -i 1) with (x +i -1). lia.
Qed.

Lemma carvable_grows m m' :
  grows m m' -> carvable m -> Symmetric m' -> carvable m'.
Proof.
  intros [Hs _] (Hreg & Hfit & _) Hsym. split; [|split; [|done]].
  - by eapply regular_shape.
  - by rewrite (fitsInt_shape m' m Hs).
Qed.

Section CarveSymmetric.
Variable rec : Maze -> Z -> Z -> Rand -> res (Maze * Rand).
Hypothesis rec_grows :
  forall m x y g m' g', rec m x y g = Ok (m', g') -> grows m m'.
Hypothesis rec_symmetric :
  forall m x y g m' g',
    carvable m -> GoInt.in_range x -> GoInt.in_range y ->
    rec m x y g = Ok (m', g') -> Symmetric m'.

Lemma carveLoop_symmetric x y (p : list Z) : forall m g m' g',
  carvable m -> GoInt.in_range x -> GoInt.in_range y ->
  carveLoop rec x y p m g = Ok (m', g') -> Symmetric m'.
Proof.
  induction p as [|i p IH]; intros m g m' g' Hcarv Hx Hy.
  { intros [= <- <-]. apply Hcarv. }
  cbn [carveLoop].
  destruct (DIRECTIONS !! Z.to_nat i) as [d|]; [|done].
  destruct (GetRoom m x y) as [[croom e]| |] eqn:Hcroom; [|done..].
  cbn [mbind res_bind].
  destruct (GetRoom m (x +i DX d) (y +i DY d)) as [[room [err|]]| |]
    eqn:Hget; [| |done..]; cbn [mbind res_bind].
  { by apply IH. }
  destruct (GetRoom_ok_room _ _ _ _ Hget) as [-> Hroom].
  apply GetRoom_ok_inv in Hget as [_ Hin].
  destruct (Visited (load m (InGrid (x +i DX d) (y +i DY d)))) eqn:Hv.
  { by apply IH. }
  destruct (carve_step_grows m croom _ _ d Hroom) as [Hg1 _].
  destruct Hcarv as (Hreg & Hfit & Hsym).
  destruct (step_inside m x y d Hfit Hx Hy Hin) as [Hnx Hny].
  assert (Hsym1 : Symmetric
            (update (update (update m croom (RmWall d))
                            (InGrid (x +i DX d) (y +i DY d))
                            (RmWall (OPPOSITE d)))
                    (InGrid (x +i DX d) (y +i DY d)) markVisited)).
  { rewrite Hnx, Hny. apply carve_step_symmetric; [done|].
    destruct e as [e|].
    - apply GetRoom_err_inv in Hcroom as (-> & _ & Hout). right.
      split; [done|]. apply outside_wallsAt; [|done].
      by apply regular_spec in Hreg as [? _].
    - apply GetRoom_ok_inv in Hcroom as [-> _]. by left. }
  set (m1 := update _ _ markVisited) in *.
  assert (Hcarv1 : carvable m1) by (by eapply carvable_grows).
  destruct (rec m1 _ _ g) as [[m2 g2]| |] eqn:Hrec; [|done..].
  cbn [mbind res_bind].
  assert (Hcarv2 : carvable m2).
  { eapply carvable_grows; [by eapply rec_grows|done|].
    eapply rec_symmetric; [done| | |done]; apply wrap_in_range. }
  by apply IH.
Qed.
End CarveSymmetric.

Lemma carvePassagesFrom_symmetric fuel : forall m x y g m' g',
  carvable m -> GoInt.in_range x -> GoInt.in_range y ->
  carvePassagesFrom fuel m x y g = Ok (m', g') -> Symmetric m'.
Proof.
  induction fuel as [|fuel IH]; intros m x y g m' g' Hcarv Hx Hy; [done|].
  cbn [carvePassagesFrom].
  destruct (Perm g 4) as [[p g1]| |]; [|done..]. cbn [mbind res_bind].
  by apply (carveLoop_symmetric _ (carvePassagesFrom_grows fuel) IH).
Qed.

(** The two readings of symmetry agree on grids of equal rows. *)
Lemma Symmetric_symmetric m : Symmetric m -> symmetric m = true.
Proof.
  intros Hsym. unfold symmetric.
  apply forallb_forall. intros y _. apply forallb_forall. intros x _.
  apply forallb_forall. intros d _. unfold wallsAgree.
  destruct (roomAt m x y) as [a|] eqn:Ha; [|done].
  destruct (roomAt m (x + DX d) (y + DY d)) as [b|] eqn:Hb; [|done].
  apply bool_decide_eq_true. apply (Hsym x y d); unfold wallsAt.
  - by rewrite Ha.
  - by rewrite Hb.
Qed.

Lemma symmetric_Symmetric m :
  rectangular m = true -> symmetric m = true -> Symmetric m.
Proof.
  intros Hrect Hsym x y d sa sb Ha Hb. unfold wallsAt in *.
  destruct (roomAt m x y) as [a|] eqn:Hra; [|done].
  destruct (roomAt m (x + DX d) (y + DY d)) as [b|] eqn:Hrb; [|done].
  injection Ha as <-. injection Hb as <-.
  pose proof (roomAt_Some_inside m x y a Hrect Hra) as Hin.
  unfold symmetric in Hsym. rewrite forallb_forall in Hsym.
  assert (Hy : In y (upto (Height m))).
  { apply list_elem_of_In, upto_elem. unfold inside in Hin.
    destruct (Width m); lia. }
  specialize (Hsym y Hy). rewrite forallb_forall in Hsym.
  assert (Hxin : In x (upto (widthOf m))).
  { apply list_elem_of_In, upto_elem. unfold inside, widthOf in *.
    destruct (Width m); lia. }
  specialize (Hsym x Hxin). rewrite forallb_forall in Hsym.
  assert (Hd : In d DIRECTIONS) by (destruct d; simpl; auto).
  specialize (Hsym d Hd). unfold wallsAgree in Hsym.
  rewrite Hra, Hrb in Hsym. by apply bool_decide_eq_true in Hsym.
Qed.

(** X19: The backtracker updates both sides of every wall it removes: started
    on a grid with symmetric walls it returns one. *)
Theorem backtracker_keeps_symmetry fuel m x y g m' g' :
  regular m = true -> fitsInt m = true ->
  GoInt.in_range x -> GoInt.in_range y ->
  symmetric m = true ->
  carvePassagesFrom fuel m x y g = Ok (m', g') ->
  symmetric m' = true.
Proof.
  intros Hreg Hfit Hx Hy Hsym Hrun. apply Symmetric_symmetric.
  apply (carvePassagesFrom_symmetric fuel m x y g m' g'); [|done..].
  split; [done|]. split; [done|].
  apply symmetric_Symmetric; [|done]. by apply regular_spec in Hreg as [? _].
Qed.

(** *** The start is not marked *)

(** The backtracker never marks the room it starts from, so it can come
    back to it: on the fully walled 2 x 2 grid, with the raw values all 5,
    it removes all four internal walls and leaves a cycle. *)
Example backtracker_cycle :
  (removedInternalWalls ∘ fst <$> carvePassagesFrom 5 closedSquare 0 0 fives)
  = Ok 4%nat.
Proof. reflexivity. Qed.

(** ** Recursive division *)

Lemma chooseOrientation_wide w h g :
  h < w -> chooseOrientation w h g = Ok (VERTICAL, g).
Proof.
  intros H. unfold chooseOrientation.
  replace (w <? h) with false by lia. by replace (w >? h) with true by lia.
Qed.

Lemma chooseOrientation_tall w h g :
  w < h -> chooseOrientation w h g = Ok (HORIZONTAL, g).
Proof.
  intros H. unfold chooseOrientation. by replace (w <? h) with true by lia.
Qed.

Lemma chooseOrientation_square w g :
  exists o, chooseOrientation w w g = Ok (o, advance g).
Proof.
  unfold chooseOrientation.
  replace (w <? w) with false by lia. replace (w >? w) with false by lia.
  destruct (Intn_two g) as [-> | ->]; by eexists.
Qed.

Lemma chooseOrientation_returns w h g :
  exists o g', chooseOrientation w h g = Ok (o, g').
Proof.
  unfold chooseOrientation.
  destruct (w <? h); [by eexists _, _|].
  destruct (w >? h); [by eexists _, _|].
  destruct (Intn_two g) as [-> | ->]; by eexists _, _.
Qed.

Lemma divide_small fuel m x y width height o g :
  width < 2 \/ height < 2 -> divide fuel m x y width height o g = Ok (m, g).
Proof.
  intros H. destruct fuel; simpl;
    by replace ((width <? 2) || (height <? 2)) with true by lia.
Qed.

(** The two halves of a 2 x 2 grid are not divided further. *)
Ltac halves :=
  change (0 -i 0 +i 1) with 1; change (0 +i 2 -i 0 -i 1) with 1;
  first [ rewrite chooseOrientation_wide by lia
        | rewrite chooseOrientation_tall by lia ];
  cbn [mbind res_bind]; rewrite divide_small by lia;
  cbn [mbind res_bind];
  first [ rewrite chooseOrientation_wide by lia
        | rewrite chooseOrientation_tall by lia ];
  cbn [mbind res_bind]; rewrite divide_small by lia.

Lemma divide_2x2 fuel o g :
  exists m,
    divide (Datatypes.S fuel) (blankGrid 2 2) 0 0 2 2 o g = Ok (m, advance g) /\
    m ∈ [oneWall 1 0 S; oneWall 0 0 S; oneWall 0 1 E; oneWall 0 0 E].
Proof.
  cbn [divide]. change ((2 <? 2) || (2 <? 2)) with false. cbn iota.
  change (2 >? 2) with false. cbn iota. cbn [mbind res_bind].
  destruct (o =? HORIZONTAL);
    destruct (Intn_two g) as [-> | ->]; cbn [mbind res_bind];
    change (upto 2) with [0; 1]; cbn [foldM mbind res_bind];
    change (0 +i 0) with 0; change (0 +i 1) with 1;
    change (0 =? 0) with true; change (1 =? 0) with false;
    change (0 =? 1) with false; change (1 =? 1) with true;
    cbn iota; cbn [mbind res_bind].
  - change (GetRoom (blankGrid 2 2) 1 0)
      with (@Ok (RoomRef * option error) (InGrid 1 0, None)).
    cbn [mbind res_bind]. halves.
    eexists. split; [done|]. rewrite !elem_of_cons. auto 6.
  - change (GetRoom (blankGrid 2 2) 0 0)
      with (@Ok (RoomRef * option error) (InGrid 0 0, None)).
    cbn [mbind res_bind]. halves.
    eexists. split; [done|]. rewrite !elem_of_cons. auto 6.
  - change (GetRoom (blankGrid 2 2) 0 1)
      with (@Ok (RoomRef * option error) (InGrid 0 1, None)).
    cbn [mbind res_bind]. halves.
    eexists. split; [done|]. rewrite !elem_of_cons. auto 6.
  - change (GetRoom (blankGrid 2 2) 0 0)
      with (@Ok (RoomRef * option error) (InGrid 0 0, None)).
    cbn [mbind res_bind]. halves.
    eexists. split; [done|]. rewrite !elem_of_cons. auto 6.
Qed.

Lemma oneSided_AddWall m p d :
  d = S \/ d = E -> oneSided m -> oneSided (update m p (AddWall d)).
Proof.
  intros Hd Hone q.
  apply (load_update_all
           (fun r => Top (Walls r) = false /\ Left (Walls r) = false));
    [done| |done].
  intros r [Ht Hl]. by destruct Hd as [-> | ->].
Qed.

Lemma divide_oneSided fuel : forall m x y width height o g m' g',
  oneSided m -> divide fuel m x y width height o g = Ok (m', g') ->
  oneSided m'.
Proof.
  induction fuel as [|fuel IH]; intros m x y width height o g m' g' Hone;
    cbn [divide];
    (destruct ((width <? 2) || (height <? 2)); [by intros [= <- _]|]);
    [done|].
  destruct (o =? HORIZONTAL).
  - destruct (if height >? 2 then _ else _) as [[wy g1]| |]; [|done..].
    cbn [mbind res_bind].
    destruct (Intn g1 width) as [[v g2]| |]; [|done..]. cbn [mbind res_bind].
    destruct (foldM _ m _) as [m1| |] eqn:Hwalls; [|done..].
    cbn [mbind res_bind].
    assert (Hone1 : oneSided m1).
    { eapply (foldM_invariant oneSided); [|exact Hone|exact Hwalls].
      intros s k s' Hs. cbn beta zeta. case_match; [by intros [= <-]|].
      destruct (GetRoom s _ _) as [[room e]| |]; [|done..].
      intros [= <-]. apply oneSided_AddWall; auto. }
    destruct (chooseOrientation _ _ g2) as [[o1 g3]| |]; [|done..].
    cbn [mbind res_bind].
    destruct (divide fuel m1 _ _ _ _ o1 g3) as [[m2 g4]| |] eqn:Hdiv;
      [|done..].
    cbn [mbind res_bind].
    destruct (chooseOrientation _ _ g4) as [[o2 g5]| |]; [|done..].
    cbn [mbind res_bind]. apply IH. by eapply IH.
  - destruct (if width >? 2 then _ else _) as [[wx g1]| |]; [|done..].
    cbn [mbind res_bind].
    destruct (Intn g1 height) as [[v g2]| |]; [|done..]. cbn [mbind res_bind].
    destruct (foldM _ m _) as [m1| |] eqn:Hwalls; [|done..].
    cbn [mbind res_bind].
    assert (Hone1 : oneSided m1).
    { eapply (foldM_invariant oneSided); [|exact Hone|exact Hwalls].
      intros s k s' Hs. cbn beta zeta. case_match; [by intros [= <-]|].
      destruct (GetRoom s _ _) as [[room e]| |]; [|done..].
      intros [= <-]. apply oneSided_AddWall; auto. }
    destruct (chooseOrientation _ _ g2) as [[o1 g3]| |]; [|done..].
    cbn [mbind res_bind].
    destruct (divide fuel m1 _ _ _ _ o1 g3) as [[m2 g4]| |] eqn:Hdiv;
      [|done..].
    cbn [mbind res_bind].
    destruct (chooseOrientation _ _ g4) as [[o2 g5]| |]; [|done..].
    cbn [mbind res_bind]. apply IH. by eapply IH.
Qed.

Lemma addBorders_oneSided m m' :
  oneSided m -> addBorders m = Ok m' -> oneSided m'.
Proof.
  intros Hone. unfold addBorders.
  destruct (Width m) as [w| |]; [|done..]. cbn [mbind res_bind].
  destruct (foldM _ m _) as [m1| |] eqn:Hsouth; [|done..].
  cbn [mbind res_bind]. intros Heast.
  assert (Hone1 : oneSided m1).
  { eapply (foldM_invariant oneSided); [|exact Hone|exact Hsouth].
    intros s k s' Hs. cbn beta.
    destruct (GetRoom s _ _) as [[room e]| |]; [|done..].
    intros [= <-]. apply oneSided_AddWall; auto. }
  eapply (foldM_invariant oneSided); [|exact Hone1|exact Heast].
  intros s k s' Hs. cbn beta.
  destruct (GetRoom s _ _) as [[room e]| |]; [|done..].
  intros [= <-]. apply oneSided_AddWall; auto.
Qed.

(** Whatever the size of the grid, the recursive division never writes
    the north or the west flag of a room: every wall it builds exists on
    its south or east side only. *)
Lemma recursiveDivision_oneSided fuel h w g m g' :
  recursiveDivision fuel h w g = Ok (m, g') -> oneSided m.
Proof.
  unfold recursiveDivision.
  destruct (emptyMaze h w) as [m0| |] eqn:Hm0; [|done..].
  apply emptyMaze_inv in Hm0 as ->. cbn [mbind res_bind].
  destruct (Width _) as [w0| |]; [|done..]. cbn [mbind res_bind].
  destruct (chooseOrientation _ _ g) as [[o g1]| |]; [|done..].
  cbn [mbind res_bind].
  destruct (divide fuel _ _ _ _ _ o g1) as [[m1 g2]| |] eqn:Hdiv; [|done..].
  cbn [mbind res_bind].
  destruct (addBorders m1) as [m2| |] eqn:Hb; [|done..].
  cbn [mbind res_bind]. intros [= <- _].
  eapply addBorders_oneSided; [|exact Hb].
  eapply divide_oneSided; [|exact Hdiv].
  intros p. by rewrite (blankGrid_blank h w p).
Qed.

(** C2 fails on the code: [divide] writes a wall on one side only (the
    south or east flag of one room, never the north or west flag of the
    room across), so for every state of the generator the 2 x 2 maze of
    the recursive division has a pair of adjacent rooms whose flags
    disagree, while the grid it started from is symmetric. *)
Theorem recursiveDivision_not_symmetric fuel g :
  symmetric (blankGrid 2 2) = true /\
  exists m g',
    recursiveDivision (Datatypes.S fuel) 2 2 g = Ok (m, g') /\
    symmetric m = false.
Proof.
  split; [done|].
  unfold recursiveDivision. rewrite emptyMaze_spec by lia.
  cbn [mbind res_bind].
  change (Width (blankGrid 2 2)) with (@Ok Z 2).
  change (Height (blankGrid 2 2)) with 2. cbn [mbind res_bind].
  destruct (chooseOrientation_square 2 g) as [o ->]. cbn [mbind res_bind].
  destruct (divide_2x2 fuel o (advance g)) as (m & -> & Hm).
  cbn [mbind res_bind].
  rewrite !elem_of_cons, elem_of_nil in Hm.
  destruct Hm as [->|[->|[->|[->|[]]]]];
    (eexists _, _; split; [vm_compute; reflexivity|vm_compute; reflexivity]).
Qed.

(** The doc comments of the move methods promise "Will not permit moving
    through walls".  In [dividedSquare] the room (1,0) has a south wall,
    the room (1,1) below it no north wall: Icarus walks up through the
    wall, and is blocked by it on the way back. *)
Example walks_through_division_wall :
  (m ← dividedSquare; Ok (Bottom (Walls (load m (InGrid 1 0))))) = Ok true /\
  (m ← dividedSquare; '(m', e) ← MoveUp m; Ok (icarus m', e))
  = Ok (mkCoordinate 1 0, None) /\
  (m ← dividedSquare; '(m, _) ← MoveUp m; '(m', e) ← MoveDown m;
   Ok (icarus m', e))
  = Ok (mkCoordinate 1 0, Some ErrWall).
Proof. repeat split; reflexivity. Qed.

(** ** Prim *)

Lemma RmWall_zeroRoom d : RmWall d zeroRoom = zeroRoom.
Proof. by destruct d. Qed.

(** Taking a wall out of a blank grid changes nothing. *)
Lemma update_blank m p d : blank m -> update m p (RmWall d) = m.
Proof. intros Hb. apply update_id. by rewrite Hb, RmWall_zeroRoom. Qed.

Lemma connectFirst_blank m r l inn order :
  blank m -> connectFirst m r l inn order = m.
Proof.
  intros Hb. induction order as [|[n neighbor] order IH]; [done|].
  cbn [connectFirst]. destruct (isIn inn n); [|done].
  rewrite (update_blank m r) by done. by apply update_blank.
Qed.

Lemma primLoop_nil fuel m inn w : primLoop fuel m [] inn w = Ok (m, w).
Proof. by destruct fuel. Qed.

Lemma primLoop_blank fuel : forall m frontiers inn w m' w',
  blank m -> primLoop fuel m frontiers inn w = Ok (m', w') -> m' = m.
Proof.
  induction fuel as [|fuel IH]; intros m frontiers inn w m' w' Hb;
    (destruct frontiers as [|fr frontiers]; [by intros [= <- _]|]);
    [done|].
  cbn [primLoop].
  destruct (randomRoom _ w) as [[r w1]| |]; [|done..]. cbn [mbind res_bind].
  destruct (mget r _) as [l|]; [|done].
  destruct (neighbors m l.1 l.2) as [nbs| |]; [|done..].
  cbn [mbind res_bind].
  destruct (mrange (mapiter w1) nbs) as [[order rt]| |]; [|done..].
  cbn [mbind res_bind].
  destruct (mrange rt nbs) as [[order' rt']| |]; [|done..].
  cbn [mbind res_bind]. rewrite connectFirst_blank by done.
  by apply IH.
Qed.

(** Prim returns the wall-less grid it allocated. *)
Lemma prim_returns_blank fuel h w wd m wd' :
  prim fuel h w wd = Ok (m, wd') -> m = blankGrid h w.
Proof.
  unfold prim. destruct (emptyMaze h w) as [m0| |] eqn:Hm0; [|done..].
  apply emptyMaze_inv in Hm0 as ->. cbn [mbind res_bind]. unfold primFrom.
  destruct (Width _) as [wd0| |]; [|done..]. cbn [mbind res_bind].
  destruct (Intn (rnd wd) wd0) as [[x g]| |]; [|done..]. cbn [mbind res_bind].
  destruct (Intn g _) as [[y g1]| |]; [|done..]. cbn [mbind res_bind].
  destruct (GetRoom _ x y) as [[room e]| |]; [|done..]. cbn [mbind res_bind].
  destruct (neighbors _ x y) as [nbs| |]; [|done..]. cbn [mbind res_bind].
  destruct (mrange _ nbs) as [[order rt]| |]; [|done..]. cbn [mbind res_bind].
  apply primLoop_blank, blankGrid_blank.
Qed.

(** C5 fails on the code: [prim] carves into [emptyMaze()], the grid
    without walls, so whenever it returns on a 2 x 2 grid the result has
    all 4 internal walls open instead of the 2*2 - 1 = 3 of a spanning
    tree. *)
Theorem prim_square_not_spanning fuel wd m wd' :
  prim fuel 2 2 wd = Ok (m, wd') ->
  m = blankGrid 2 2 /\
  removedInternalWalls m = 4%nat /\
  Z.of_nat (removedInternalWalls m) <> 2 * 2 - 1.
Proof.
  intros Hrun. apply prim_returns_blank in Hrun as ->. by repeat split.
Qed.

Lemma prim_square_not_spanning_witness :
  exists m wd',
    prim 5 2 2 (mkWorld counting counting) = Ok (m, wd') /\
    m = blankGrid 2 2 /\
    removedInternalWalls m = 4%nat /\
    Z.of_nat (removedInternalWalls m) <> 2 * 2 - 1.
Proof.
  eexists _, _. split; [vm_compute; reflexivity|].
  eapply (prim_square_not_spanning 5 (mkWorld counting counting)).
  vm_compute. reflexivity.
Defined.

(** The first inner loop connects the room to one neighbour, the first
    included one in the order the runtime delivers, or to none. *)
Lemma connectFirst_first m r l inn order :
  connectFirst m r l inn order
  = match find (fun e => isIn inn e.1) order with
    | Some (n, neighbor) =>
        update (update m r (RmWall (direction l.1 l.2 neighbor.1 neighbor.2)))
               n (RmWall (OPPOSITE (direction l.1 l.2 neighbor.1 neighbor.2)))
    | None => m
    end.
Proof.
  induction order as [|[n neighbor] order IH]; [done|].
  cbn [connectFirst find fst]. by destruct (isIn inn n).
Qed.

(** Prim keeps its first room in the frontier and includes it a second
    time: started on the fully walled 2 x 2 grid, with all raw values 0,
    it too removes all four internal walls. *)
Example prim_cycle :
  (removedInternalWalls ∘ fst
     <$> primFrom 8 closedSquare (mkWorld zeros rotated))
  = Ok 4%nat.
Proof. reflexivity. Qed.

(** On the fully walled 2 x 2 grid, which [prim] does not start from, the
    order of the scan would decide which wall of the room (1,1) comes
    down. *)
Example prim_scan_on_walled_grid :
  neighbors closedSquare 1 1 = Ok cornerNeighbours /\
  (fst <$> mrange insertionOrder cornerNeighbours) = Ok cornerNeighbours /\
  (fst <$> mrange rotated cornerNeighbours) = Ok (reverse cornerNeighbours) /\
  Walls (load (connectFirst closedSquare (InGrid 1 1) (1, 1) othersIn
                            cornerNeighbours) (InGrid 1 1))
  = mkSurvey false true true true /\
  Walls (load (connectFirst closedSquare (InGrid 1 1) (1, 1) othersIn
                            (reverse cornerNeighbours)) (InGrid 1 1))
  = mkSurvey true true true false.
Proof. repeat split; reflexivity. Qed.

(** The record of the rounds is the record of the run of [primLoop]: the
    two return, panic or run out of fuel together. *)
Lemma primRounds_run fuel : forall m frontiers inn w,
  ((fun _ => tt) <$> primRounds fuel m frontiers inn w)
  = ((fun _ => tt) <$> primLoop fuel m frontiers inn w).
Proof.
  induction fuel as [|fuel IH]; intros m frontiers inn w;
    (destruct frontiers as [|fr frontiers]; [done|]); [done|].
  cbn [primRounds primLoop].
  destruct (randomRoom _ w) as [[r w1]| |]; [|done..]. cbn [mbind res_bind].
  destruct (mget r _) as [l|]; [|done].
  destruct (neighbors m l.1 l.2) as [nbs| |]; [|done..].
  cbn [mbind res_bind].
  destruct (mrange (mapiter w1) nbs) as [[order rt]| |]; [|done..].
  cbn [mbind res_bind].
  destruct (mrange rt nbs) as [[order' rt']| |]; [|done..].
  cbn [mbind res_bind].
  match goal with
  | |- context [primRounds fuel ?m' ?f' ?i' ?w'] =>
      specialize (IH m' f' i' w');
      destruct (primRounds fuel m' f' i' w'), (primLoop fuel m' f' i' w')
  end; done.
Qed.

Lemma primRoundsOf_run fuel h w wd :
  ((fun _ => tt) <$> primRoundsOf fuel h w wd)
  = ((fun _ => tt) <$> prim fuel h w wd).
Proof.
  unfold primRoundsOf, prim, primFrom, loc.
  destruct (emptyMaze h w) as [m| |]; [|done..]. cbn [mbind res_bind].
  destruct (Width m) as [wd0| |]; [|done..]. cbn [mbind res_bind].
  destruct (Intn (rnd wd) wd0) as [[x g]| |]; [|done..]. cbn [mbind res_bind].
  destruct (Intn g _) as [[y g1]| |]; [|done..]. cbn [mbind res_bind].
  destruct (GetRoom m x y) as [[room e]| |]; [|done..]. cbn [mbind res_bind].
  destruct (neighbors m x y) as [nbs| |]; [|done..]. cbn [mbind res_bind].
  destruct (@mrange RoomRef (Z * Z) (mapiter wd) nbs) as [[order rt]| |];
    [|done..].
  cbn [mbind res_bind]. apply primRounds_run.
Qed.

(** C3 fails on the code: the neighbours are scanned by ranging over a Go
    map, whose order the runtime chooses.  In the run of [prim] for a
    2 x 2 grid with all raw values of math/rand 0, and a runtime that
    ranges over the maps as [countingFrom 2] dictates, the room (1,1) is
    taken from the frontier last, after its north neighbour (1,0) and its
    west neighbour (0,1), and is connected with the west one, where the
    scan north, west, south, east meets the north one.  With the same raw
    values of math/rand and a runtime that ranges in insertion order the
    rounds are others, and the room is connected with the north one.
    Both runs return the same maze, the grid without walls. *)
Theorem prim_scan_order_not_fixed :
  primRoundsOf 5 2 2 (mkWorld zeros (mkRand (countingFrom 2) 0))
  = Ok [((1, 0), Some (0, 0)); ((0, 1), Some (0, 0));
        ((0, 0), Some (0, 1)); ((1, 1), Some (0, 1))] /\
  primRoundsOf 5 2 2 (mkWorld zeros insertionOrder)
  = Ok [((0, 0), None); ((0, 1), Some (0, 0));
        ((1, 0), Some (0, 0)); ((1, 1), Some (1, 0))] /\
  direction 1 1 1 0 = N /\ direction 1 1 0 1 = W /\
  (fst <$> prim 5 2 2 (mkWorld zeros (mkRand (countingFrom 2) 0)))
  = Ok (blankGrid 2 2) /\
  (fst <$> prim 5 2 2 (mkWorld zeros insertionOrder)) = Ok (blankGrid 2 2).
Proof. repeat split; reflexivity. Qed.

(** ** Degenerate and trivial grids *)

(** A direction whose neighbour is outside of the grid is skipped. *)
Lemma carveLoop_skip rec x y i p m g d c :
  DIRECTIONS !! Z.to_nat i = Some d ->
  GetRoom m x y = Ok c ->
  GetRoom m (x +i DX d) (y +i DY d) = Ok (Fresh, Some ErrOutside) ->
  carveLoop rec x y (i :: p) m g = carveLoop rec x y p m g.
Proof.
  intros Hd Hc Hn. cbn [carveLoop]. rewrite Hd, Hc. destruct c as [croom e].
  cbn [mbind res_bind]. by rewrite Hn.
Qed.

Lemma carveLoop_closedCell rec (p : list Z) g :
  Forall (fun i => 0 <= i < 4) p ->
  carveLoop rec 0 0 p closedCell g = Ok (closedCell, g).
Proof.
  induction 1 as [|i p Hi _ IH]; [done|].
  destruct (DIRECTIONS_lookup i Hi) as [d Hd].
  rewrite (carveLoop_skip rec 0 0 i p closedCell g d (InGrid 0 0, None) Hd);
    [exact IH|done|by destruct d].
Qed.

(** On the 1 x 1 grid the backtracker returns without carving. *)
Lemma carve_closedCell fuel g :
  exists g', carvePassagesFrom (Datatypes.S fuel) closedCell 0 0 g
             = Ok (closedCell, g').
Proof.
  cbn [carvePassagesFrom].
  destruct (Perm_spec g 4 ltac:(lia)) as (p & g' & Hp & _).
  rewrite Hp. cbn [mbind res_bind]. exists g'.
  apply carveLoop_closedCell. by eapply Perm_bounds.
Qed.

(** On the 1 x 1 grid Prim returns the grid it started from. *)
Lemma prim_single fuel w :
  exists w', prim (Datatypes.S fuel) 1 1 w = Ok (blankGrid 1 1, w').
Proof.
  unfold prim. rewrite emptyMaze_spec by lia. cbn [mbind res_bind].
  unfold primFrom.
  change (Width (blankGrid 1 1)) with (@Ok Z 1).
  change (Height (blankGrid 1 1)) with 1.
  cbn [mbind res_bind]. rewrite Intn_one. cbn [mbind res_bind].
  rewrite Intn_one. cbn [mbind res_bind].
  change (GetRoom (blankGrid 1 1) 0 0)
    with (@Ok (RoomRef * option error) (InGrid 0 0, None)).
  cbn [mbind res_bind].
  change (neighbors (blankGrid 1 1) 0 0) with (@Ok (gomap RoomRef loc) []).
  cbn [mbind res_bind]. rewrite mrange_nil. cbn [mbind res_bind foldl].
  change (mset (InGrid 0 0) (0, 0) []) with [(InGrid 0 0, (0, 0))].
  cbn [primLoop]. unfold randomRoom. cbn [rnd mapiter].
  rewrite mrange_one. cbn [mbind res_bind fmap list_fmap length fst].
  change (Z.of_nat 1) with 1. rewrite Intn_one. cbn [mbind res_bind].
  change ([InGrid 0 0] !! Z.to_nat 0) with (Some (InGrid 0 0)).
  cbn [mbind res_bind].
  change (mget (InGrid 0 0) [(InGrid 0 0, (0, 0))]) with (Some (0, 0)).
  cbn [fst snd rnd mapiter].
  change (neighbors (blankGrid 1 1) 0 0) with (@Ok (gomap RoomRef loc) []).
  cbn [mbind res_bind]. rewrite mrange_nil. cbn [mbind res_bind].
  rewrite mrange_nil. cbn [mbind res_bind connectFirst].
  change (addFrontiers _ (mdelete (InGrid 0 0) [(InGrid 0 0, (0, 0))]) [])
    with (@nil (RoomRef * loc)).
  rewrite primLoop_nil. by eexists.
Qed.

(** A grid of one row or one column is not divided: the recursive
    division only adds the borders. *)
Lemma recursiveDivision_thin fuel h w g :
  0 < h -> 0 < w -> w < 2 \/ h < 2 ->
  exists g',
    recursiveDivision fuel h w g
    = (m ← addBorders (blankGrid h w); Ok (m, g')).
Proof.
  intros Hh Hw Hthin. unfold recursiveDivision.
  rewrite emptyMaze_spec by lia. cbn [mbind res_bind].
  rewrite Width_blankGrid by lia. cbn [mbind res_bind].
  rewrite Height_blankGrid by lia.
  destruct (chooseOrientation_returns w h g) as (o & g' & ->).
  cbn [mbind res_bind]. rewrite divide_small by done.
  cbn [mbind res_bind]. by exists g'.
Qed.

(** C9, the claim as written, fails: for width and height 0 the grid
    constructor returns a grid (the one without rows), not an error, and
    so does the recursive division for a grid of one row and no column;
    and a grid of height 1 is carved further: the backtracker takes the
    wall out of the fully walled 1 x 2 corridor. *)
Lemma degenerate_grid_counterexample :
  createMaze 0 0 = Ok (blankGrid 0 0) /\
  (fst <$> recursiveDivision 1 1 0 counting) = Ok (blankGrid 1 0) /\
  carved closedPair = false /\
  (carved ∘ fst <$> carvePassagesFrom 3 closedPair 0 0 counting) = Ok true.
Proof. repeat split; reflexivity. Qed.

(** C9, amended: there is no DegenerateGrid error value; for every
    non-negative height and width, 0 included, the grid constructor
    returns the grid of exactly that shape without walls.  A region of
    width or height below 2 is returned by [divide] at once and untouched,
    so the recursive division of a grid of one row or one column only
    adds the borders; on the 1 x 1 grid the backtracker and Prim return,
    for every state of the generator, the grid they were given. *)
Theorem trivial_grids_returned :
  (forall h w, 0 <= h -> 0 <= w -> createMaze h w = Ok (blankGrid h w)) /\
  (forall fuel m x y width height o g,
     width < 2 \/ height < 2 ->
     divide fuel m x y width height o g = Ok (m, g)) /\
  (forall fuel h w g,
     0 < h -> 0 < w -> w < 2 \/ h < 2 ->
     exists g',
       recursiveDivision fuel h w g
       = (m ← addBorders (blankGrid h w); Ok (m, g'))) /\
  (forall fuel g,
     exists g', carvePassagesFrom (Datatypes.S fuel) closedCell 0 0 g
                = Ok (closedCell, g')) /\
  (forall fuel w,
     exists w', prim (Datatypes.S fuel) 1 1 w = Ok (blankGrid 1 1, w')).
Proof.
  split; [|split; [|split; [|split]]].
  - apply emptyMaze_spec.
  - apply divide_small.
  - apply recursiveDivision_thin.
  - apply carve_closedCell.
  - apply prim_single.
Qed.

Lemma trivial_grids_returned_witness :
  createMaze 0 3 = Ok (blankGrid 0 3) /\
  divide 0 closedPair 0 0 2 1 HORIZONTAL counting = Ok (closedPair, counting).
Proof.
  split.
  - apply (proj1 trivial_grids_returned 0 3); lia.
  - apply (proj1 (proj2 trivial_grids_returned)). right. lia.
Defined.

(** ** The grid without rows *)

Lemma Width_Panic m : Width m = Panic <-> rooms m = [].
Proof. unfold Width. by destruct (rooms m). Qed.

(** X1: [GetRoom] panics on one kind of grid only, the one without rows, and
    there only for coordinates that are not negative: [Width] indexes
    [m.rooms[0]] once the two sign checks have passed.  For a negative
    coordinate even that grid answers with the boundary error. *)
Theorem GetRoom_panics_iff m x y :
  rectangular m = true ->
  (GetRoom m x y = Panic <-> rooms m = [] /\ 0 <= x /\ 0 <= y) /\
  GetRoom m x y <> Timeout.
Proof.
  intros Hrect. destruct (rooms m) as [|row rs] eqn:Hrooms.
  - unfold GetRoom, Width. rewrite Hrooms.
    destruct ((x <? 0) || (y <? 0)) eqn:Hneg; cbn [mbind res_bind].
    + split; [|done]. split; [done|]. lia.
    + split; [|done]. split; [|done]. intros _. split; [done|]. lia.
  - assert (Hreg : regular m = true).
    { apply regular_spec. split; [done|]. by rewrite Hrooms. }
    destruct (GetRoom_regular m x y Hreg) as [r ->].
    split; [|done]. split; [done|]. by intros [? _].
Qed.

Lemma GetRoom_panics_iff_witness :
  rectangular (blankGrid 0 3) = true /\
  GetRoom (blankGrid 0 3) 0 0 = Panic /\
  GetRoom (blankGrid 0 3) (-1) 0 = Ok (Fresh, Some ErrOutside).
Proof.
  split; [reflexivity|]. split; [|reflexivity].
  apply (GetRoom_panics_iff (blankGrid 0 3) 0 0); [reflexivity|].
  repeat split; lia.
Defined.

(** ** The start and the treasure *)

(** The ways [SetStartPoint] can return. *)
Lemma SetStartPoint_inv m x y m' e :
  SetStartPoint m x y = Ok (m', e) ->
  (e = Some ErrOutside /\ m' = m /\ outside m x y = true) \/
  (e = Some ErrStartInTreasure /\ m' = m /\ inside m x y = true /\
   Treasure (load m (InGrid x y)) = true) \/
  (e = None /\ inside m x y = true /\
   Treasure (load m (InGrid x y)) = false /\
   rooms m' = rooms (update m (InGrid x y) markStart) /\
   icarus m' = mkCoordinate x y /\ start m' = start m /\ end_ m' = end_ m /\
   StepsTaken m' = StepsTaken m).
Proof.
  unfold SetStartPoint.
  destruct (GetRoom m x y) as [[r [err|]]| |] eqn:Hget; [| |done..];
    cbn [mbind res_bind].
  - intros [= <- <-]. apply GetRoom_err_inv in Hget as (_ & -> & Hout). auto.
  - apply GetRoom_ok_inv in Hget as [-> Hin].
    destruct (Treasure (load m (InGrid x y))) eqn:Ht.
    + intros [= <- <-]. right. left. by repeat split.
    + intros [= <- <-]. right. right. cbn [rooms icarus start end_ StepsTaken].
      repeat split; try done.
      all: unfold update, store; by destruct ((x <? 0) || (y <? 0)).
Qed.

Lemma SetTreasure_inv m x y m' e :
  SetTreasure m x y = Ok (m', e) ->
  (e = Some ErrOutside /\ m' = m /\ outside m x y = true) \/
  (e = Some ErrTreasureAtStart /\ m' = m /\ inside m x y = true /\
   Start (load m (InGrid x y)) = true) \/
  (e = None /\ inside m x y = true /\
   Start (load m (InGrid x y)) = false /\
   rooms m' = rooms (update m (InGrid x y) markTreasure) /\
   end_ m' = mkCoordinate x y /\ start m' = start m /\ icarus m' = icarus m /\
   StepsTaken m' = StepsTaken m).
Proof.
  unfold SetTreasure.
  destruct (GetRoom m x y) as [[r [err|]]| |] eqn:Hget; [| |done..];
    cbn [mbind res_bind].
  - intros [= <- <-]. apply GetRoom_err_inv in Hget as (_ & -> & Hout). auto.
  - apply GetRoom_ok_inv in Hget as [-> Hin].
    destruct (Start (load m (InGrid x y))) eqn:Ht.
    + intros [= <- <-]. right. left. by repeat split.
    + intros [= <- <-]. right. right. cbn [rooms icarus start end_ StepsTaken].
      repeat split; try done.
      all: unfold update, store; by destruct ((x <? 0) || (y <? 0)).
Qed.

(** What [load], the bounds checks and [GetRoom] see of a maze is its
    grid. *)
Lemma load_rooms m m' q : rooms m' = rooms m -> load m' q = load m q.
Proof. intros H. destruct q as [x y|]; [|done]. cbn [load]. unfold roomAt. by rewrite H. Qed.

Lemma shape_rooms m m' : rooms m' = rooms m -> shape m' = shape m.
Proof. unfold shape. by intros ->. Qed.

Lemma inside_is_Some m x y :
  rectangular m = true -> inside m x y = true <-> is_Some (roomAt m x y).
Proof.
  intros Hrect. split; [by apply roomAt_inside|].
  intros [r Hr]. by eapply roomAt_Some_inside.
Qed.

Lemma load_update m p f q :
  load (update m p f) q
  = if decide (p = q) then
      match q with
      | InGrid x y => default zeroRoom (f <$> roomAt m x y)
      | Fresh => zeroRoom
      end
    else load m q.
Proof.
  destruct q as [x y|]; [|by case_decide]. cbn [load].
  rewrite roomAt_update. by case_decide.
Qed.

(** X2: The two setters never put both marks on one room, whatever they
    return. *)
Theorem setters_keep_marks_apart m x y m' e :
  marksApart m ->
  SetStartPoint m x y = Ok (m', e) \/ SetTreasure m x y = Ok (m', e) ->
  marksApart m'.
Proof.
  intros Hm [H|H].
  - apply SetStartPoint_inv in H
      as [(_ & -> & _)|[(_ & -> & _)|(_ & _ & Ht & Hrooms & _)]]; [done..|].
    intros q. rewrite (load_rooms _ _ q Hrooms), load_update.
    case_decide as Hq; [subst q|apply Hm]. cbn [load] in Ht.
    destruct (roomAt m x y) as [r|]; [|done]. simpl in *.
    by rewrite Ht.
  - apply SetTreasure_inv in H
      as [(_ & -> & _)|[(_ & -> & _)|(_ & _ & Ht & Hrooms & _)]]; [done..|].
    intros q. rewrite (load_rooms _ _ q Hrooms), load_update.
    case_decide as Hq; [subst q|apply Hm]. cbn [load] in Ht.
    destruct (roomAt m x y) as [r|]; [|done]. simpl in *.
    by rewrite Ht.
Qed.

Lemma setters_keep_marks_apart_witness :
  marksApart (blankGrid 2 2) /\
  exists m', SetStartPoint (blankGrid 2 2) 1 0 = Ok (m', None) /\ marksApart m'.
Proof.
  assert (H : marksApart (blankGrid 2 2)).
  { intros q. by rewrite blankGrid_blank. }
  split; [exact H|]. eexists. split; [reflexivity|].
  eapply (setters_keep_marks_apart (blankGrid 2 2) 1 0); [exact H|].
  left. reflexivity.
Defined.

Lemma GetRoom_rooms m m' x y : rooms m' = rooms m -> GetRoom m' x y = GetRoom m x y.
Proof. intros H. unfold GetRoom, Width, Height, roomAt. by rewrite H. Qed.

(** X3: [SetStartPoint] never clears the mark an earlier call has set, and
    never writes the [start] field: after two successful calls both rooms
    carry the mark, Icarus is at the second one, and the first room
    refuses the treasure. *)
Theorem second_start_keeps_first_mark m x1 y1 m1 x2 y2 m2 :
  SetStartPoint m x1 y1 = Ok (m1, None) ->
  SetStartPoint m1 x2 y2 = Ok (m2, None) ->
  Start (load m2 (InGrid x1 y1)) = true /\
  Start (load m2 (InGrid x2 y2)) = true /\
  icarus m2 = mkCoordinate x2 y2 /\
  start m2 = start m /\
  SetTreasure m2 x1 y1 = Ok (m2, Some ErrTreasureAtStart).
Proof.
  intros H1 H2.
  assert (Hroom1 : is_Some (roomAt m x1 y1)).
  { unfold SetStartPoint in H1.
    destruct (GetRoom m x1 y1) as [[r [err|]]| |] eqn:Hget; [done| |done..].
    by apply GetRoom_ok_room in Hget as [_ ?]. }
  assert (Hroom2 : is_Some (roomAt m1 x2 y2)).
  { unfold SetStartPoint in H2.
    destruct (GetRoom m1 x2 y2) as [[r [err|]]| |] eqn:Hget; [done| |done..].
    by apply GetRoom_ok_room in Hget as [_ ?]. }
  apply SetStartPoint_inv in H1
    as [(? & _)|[(? & _)|(_ & Hin1 & _ & Hrooms1 & _ & Hs1 & _)]]; [done..|].
  apply SetStartPoint_inv in H2
    as [(? & _)|[(? & _)|(_ & Hin2 & _ & Hrooms2 & Hic & Hs2 & _)]]; [done..|].
  assert (Hst1 : Start (load m1 (InGrid x1 y1)) = true).
  { rewrite (load_rooms _ _ _ Hrooms1), load_update_same by done. done. }
  assert (Hst : Start (load m2 (InGrid x1 y1)) = true).
  { rewrite (load_rooms _ _ _ Hrooms2), load_update.
    case_decide as Hq; [|done]. injection Hq as -> ->.
    destruct Hroom2 as [r ->]. done. }
  split; [done|]. split.
  { rewrite (load_rooms _ _ _ Hrooms2), load_update_same by done. done. }
  split; [done|]. split; [congruence|].
  unfold SetTreasure.
  assert (Hget : GetRoom m2 x1 y1 = Ok (InGrid x1 y1, None)).
  { rewrite (GetRoom_rooms _ _ _ _ Hrooms2).
    rewrite <- (GetRoom_shape m1) by (by rewrite shape_update).
    rewrite (GetRoom_rooms _ _ _ _ Hrooms1).
    rewrite <- (GetRoom_shape m) by (by rewrite shape_update).
    unfold GetRoom in *. unfold inside in Hin1.
    replace ((x1 <? 0) || (y1 <? 0)) with false by lia.
    destruct (Width m) as [w| |]; [|by rewrite andb_false_r in Hin1..].
    cbn [mbind res_bind].
    replace ((x1 >=? w) || (y1 >=? Height m)) with false by lia.
    by destruct Hroom1 as [r ->]. }
  rewrite Hget. cbn [mbind res_bind]. by rewrite Hst.
Qed.

Lemma second_start_keeps_first_mark_witness :
  exists m1 m2,
    SetStartPoint (blankGrid 2 2) 0 0 = Ok (m1, None) /\
    SetStartPoint m1 1 1 = Ok (m2, None) /\
    Start (load m2 (InGrid 0 0)) = true /\
    icarus m2 = mkCoordinate 1 1 /\
    SetTreasure m2 0 0 = Ok (m2, Some ErrTreasureAtStart).
Proof.
  eexists _, _. split; [reflexivity|]. split; [reflexivity|].
  destruct (second_start_keeps_first_mark (blankGrid 2 2) 0 0 _ 1 1 _
              eq_refl eq_refl) as (H1 & _ & H2 & _ & H3).
  by repeat split.
Defined.

(** X4: Once both setters have succeeded, in either order, Icarus and the
    treasure are in different rooms, and the first look around does not
    report victory. *)
Theorem treasure_not_at_start m x y a b m1 m2 :
  (SetStartPoint m x y = Ok (m1, None) /\ SetTreasure m1 a b = Ok (m2, None)) \/
  (SetTreasure m a b = Ok (m1, None) /\ SetStartPoint m1 x y = Ok (m2, None)) ->
  icarus m2 = mkCoordinate x y /\ end_ m2 = mkCoordinate a b /\
  (x, y) <> (a, b) /\ reportsVictory m2 = false.
Proof.
  intros H.
  assert (Hpos : icarus m2 = mkCoordinate x y /\ end_ m2 = mkCoordinate a b /\
                 (x, y) <> (a, b)).
  { destruct H as [[H1 H2]|[H1 H2]].
    - assert (Hroom : is_Some (roomAt m x y)).
      { unfold SetStartPoint in H1.
        destruct (GetRoom m x y) as [[r [err|]]| |] eqn:Hget; [done| |done..].
        by apply GetRoom_ok_room in Hget as [_ ?]. }
      apply SetStartPoint_inv in H1
        as [(? & _)|[(? & _)|(_ & _ & _ & Hrooms1 & Hic & _ & _)]]; [done..|].
      apply SetTreasure_inv in H2
        as [(? & _)|[(? & _)|(_ & _ & Hst & _ & Hend & _ & Hic2 & _)]];
        [done..|].
      split; [congruence|]. split; [done|]. intros [= <- <-].
      rewrite (load_rooms _ _ _ Hrooms1), load_update_same in Hst by done.
      done.
    - assert (Hroom : is_Some (roomAt m a b)).
      { unfold SetTreasure in H1.
        destruct (GetRoom m a b) as [[r [err|]]| |] eqn:Hget; [done| |done..].
        by apply GetRoom_ok_room in Hget as [_ ?]. }
      apply SetTreasure_inv in H1
        as [(? & _)|[(? & _)|(_ & _ & _ & Hrooms1 & Hend & _ & _)]]; [done..|].
      apply SetStartPoint_inv in H2
        as [(? & _)|[(? & _)|(_ & _ & Htr & _ & Hic & _ & Hend2 & _)]];
        [done..|].
      split; [done|]. split; [congruence|]. intros [= -> ->].
      rewrite (load_rooms _ _ _ Hrooms1), load_update_same in Htr by done.
      done. }
  destruct Hpos as (Hic & Hend & Hne). repeat split; try done.
  unfold reportsVictory.
  destruct (LookAround m2) as [[s [e|]]| |] eqn:Hlook; try done.
  apply LookAround_error_inv in Hlook as [Heq _].
  rewrite Hic, Hend in Heq. by injection Heq as -> ->.
Qed.

Lemma treasure_not_at_start_witness :
  exists m1 m2,
    SetTreasure (blankGrid 2 2) 1 1 = Ok (m1, None) /\
    SetStartPoint m1 0 0 = Ok (m2, None) /\
    (0, 0) <> (1, 1) /\ reportsVictory m2 = false.
Proof.
  eexists _, _. split; [reflexivity|]. split; [reflexivity|].
  destruct (treasure_not_at_start (blankGrid 2 2) 0 0 1 1 _ _
              (or_intror (conj eq_refl eq_refl))) as (_ & _ & H1 & H2).
  by split.
Defined.

(** ** Sessions of moves *)

Lemma Move_regular d m :
  regular m = true -> exists r, Move d m = Ok r.
Proof.
  intros Hreg. rewrite Move_unfold. unfold LookAround, Discover.
  destruct (_ && _); [by eexists|].
  destruct (GetRoom_regular m (X (icarus m)) (Y (icarus m)) Hreg)
    as [[r [e|]] ->]; cbn [mbind res_bind].
  - cbn [wall zeroSurvey]. 
    destruct (wall d zeroSurvey); [by eexists|].
    destruct (GetRoom_regular m (neighbour d (X (icarus m)) (Y (icarus m))).1
                (neighbour d (X (icarus m)) (Y (icarus m))).2 Hreg)
      as [[r' [e'|]] ->]; by eexists.
  - destruct (wall d _); [by eexists|].
    destruct (GetRoom_regular m (neighbour d (X (icarus m)) (Y (icarus m))).1
                (neighbour d (X (icarus m)) (Y (icarus m))).2 Hreg)
      as [[r' [e'|]] ->]; by eexists.
Qed.

Lemma Move_keeps m d m' e :
  Move d m = Ok (m', e) ->
  rooms m' = rooms m /\ start m' = start m /\ end_ m' = end_ m.
Proof. intros H. apply Move_inv in H. by inversion H. Qed.

Lemma inside_rooms m m' x y : rooms m' = rooms m -> inside m' x y = inside m x y.
Proof. intros H. unfold inside, Width, Height. by rewrite H. Qed.

Lemma regular_rooms m m' : rooms m' = rooms m -> regular m' = regular m.
Proof. intros H. unfold regular, rectangular. by rewrite H. Qed.

Lemma Move_keeps_inside d m m' e :
  inside m (X (icarus m)) (Y (icarus m)) = true ->
  Move d m = Ok (m', e) ->
  inside m' (X (icarus m')) (Y (icarus m')) = true.
Proof.
  intros Hin H. apply Move_inv in H.
  inversion H as [| | |s Hlook Hwall Hin' Heq]; subst; try done.
Qed.

(** X5: Icarus never leaves the grid: on a grid of equal, existing rows every
    session of moves returns, and it leaves Icarus in the grid, the rooms
    and the goal as they were. *)
Theorem play_keeps_icarus_inside ds : forall m,
  regular m = true ->
  inside m (X (icarus m)) (Y (icarus m)) = true ->
  exists m', play ds m = Ok m' /\
    inside m' (X (icarus m')) (Y (icarus m')) = true /\
    rooms m' = rooms m /\ start m' = start m /\ end_ m' = end_ m.
Proof.
  induction ds as [|d ds IH]; intros m Hreg Hin; [by exists m|].
  cbn [play]. destruct (Move_regular d m Hreg) as [[m1 e] Hmove].
  rewrite Hmove. cbn [mbind res_bind].
  pose proof (Move_keeps_inside d m m1 e Hin Hmove) as Hin1.
  apply Move_keeps in Hmove as (Hr & Hs & He).
  destruct (IH m1) as (m' & Hplay & Hin' & Hr' & Hs' & He'); [|done|].
  { by rewrite (regular_rooms m m1). }
  exists m'. repeat split; try done; congruence.
Qed.

Lemma play_keeps_icarus_inside_witness :
  exists m', play [E; N; S; S; E] openSquare = Ok m' /\
    inside m' (X (icarus m')) (Y (icarus m')) = true /\
    rooms m' = rooms openSquare.
Proof.
  destruct (play_keeps_icarus_inside [E; N; S; S; E] openSquare eq_refl eq_refl)
    as (m' & H1 & H2 & H3 & _).
  by exists m'.
Defined.

Lemma LookAround_survey m s :
  rectangular m = true ->
  inside m (X (icarus m)) (Y (icarus m)) = true ->
  LookAround m = Ok (s, None) ->
  wallsAt m (X (icarus m)) (Y (icarus m)) = Some s.
Proof.
  intros Hrect Hin. unfold LookAround, Discover.
  destruct (_ && _); [done|].
  rewrite (GetRoom_inside m _ _ Hrect Hin). cbn [mbind res_bind load].
  destruct (roomAt_inside m _ _ Hrect Hin) as [r Hr].
  unfold wallsAt. rewrite Hr. by intros [= <-].
Qed.

Lemma LookAround_off_goal m :
  rectangular m = true ->
  inside m (X (icarus m)) (Y (icarus m)) = true ->
  icarus m <> end_ m ->
  exists s, LookAround m = Ok (s, None) /\
            wallsAt m (X (icarus m)) (Y (icarus m)) = Some s.
Proof.
  intros Hrect Hin Hne. unfold LookAround, Discover.
  destruct ((X (end_ m) =? X (icarus m)) && (Y (end_ m) =? Y (icarus m)))
    eqn:Heq.
  { exfalso. apply Hne, Coordinate_eq; lia. }
  rewrite (GetRoom_inside m _ _ Hrect Hin). cbn [mbind res_bind load].
  destruct (roomAt_inside m _ _ Hrect Hin) as [r Hr].
  unfold wallsAt. rewrite Hr. by eexists.
Qed.

Lemma neighbour_back d x y :
  GoInt.in_range x -> GoInt.in_range y ->
  neighbour (OPPOSITE d) (x + DX d) (y + DY d) = (x, y).
Proof.
  intros Hx Hy.
  destruct d; cbn [neighbour OPPOSITE DX DY]; unfold GoInt.add, GoInt.sub;
    f_equal; rewrite ?Z.add_0_r;
    first [ done
          | replace (x + 1 - 1) with x by lia; by apply wrap_id
          | replace (x + -1 + 1) with x by lia; by apply wrap_id
          | replace (y + 1 - 1) with y by lia; by apply wrap_id
          | replace (y + -1 + 1) with y by lia; by apply wrap_id ].
Qed.

(** X6: In a maze whose walls are symmetric every accepted move can be taken
    back: unless it ended on the treasure, the opposite move is accepted
    as well and returns Icarus to the room he came from. *)
Theorem move_can_be_undone d m m' :
  goMaze m = true -> symmetric m = true ->
  inside m (X (icarus m)) (Y (icarus m)) = true ->
  Move d m = Ok (m', None) ->
  icarus m' <> end_ m' ->
  exists m'', Move (OPPOSITE d) m' = Ok (m'', None) /\
              icarus m'' = icarus m /\ rooms m'' = rooms m.
Proof.
  intros Hgo Hsym Hin Hmove Hne.
  pose proof (goMaze_facts m Hgo) as (Hrect & _ & _ & Hx & Hy & _).
  apply Move_inv in Hmove.
  inversion Hmove as [| | |s Hlook Hwall Hin' Heq]. subst m'.
  pose proof (neighbour_inside d m Hgo Hin') as Hnb.
  rewrite Hnb in *. cbn [fst snd] in *. clear Hnb.
  set (m' := moveIcarus m _ _) in *.
  apply (LookAround_survey m s Hrect Hin) in Hlook.
  assert (Hrect' : rectangular m' = true) by done.
  assert (Hinm' : inside m' (X (icarus m')) (Y (icarus m')) = true) by done.
  destruct (LookAround_off_goal m' Hrect' Hinm' Hne) as (s' & Hlook' & Hs').
  pose proof (symmetric_Symmetric m Hrect Hsym _ _ d s s' Hlook Hs') as Hagree.
  rewrite Move_unfold, Hlook'. cbn [mbind res_bind].
  rewrite <- Hagree, Hwall. cbn [icarus m' moveIcarus X Y].
  rewrite (neighbour_back d _ _ Hx Hy). cbn [fst snd].
  assert (Hget : GetRoom m' (X (icarus m)) (Y (icarus m))
                 = Ok (InGrid (X (icarus m)) (Y (icarus m)), None)).
  { by apply GetRoom_inside. }
  rewrite Hget. cbn [mbind res_bind]. eexists. split; [done|].
  split; [|done]. cbn [icarus moveIcarus]. by destruct (icarus m).
Qed.

Lemma move_can_be_undone_witness :
  exists m' m'',
    Move E openSquare = Ok (m', None) /\
    Move W m' = Ok (m'', None) /\ icarus m'' = icarus openSquare.
Proof.
  eexists _. 
  destruct (move_can_be_undone E openSquare _ eq_refl eq_refl eq_refl eq_refl)
    as (m'' & H1 & H2 & _); [done|].
  exists m''. split; [reflexivity|]. by split.
Defined.

Lemma Move_at_goal d m :
  icarus m = end_ m -> Move d m = Ok (m, Some ErrVictory).
Proof.
  intros H. rewrite Move_unfold, (LookAround_at_goal m H). done.
Qed.

Lemma play_at_goal ds m : icarus m = end_ m -> play ds m = Ok m.
Proof.
  intros H. induction ds as [|d ds IH]; [done|].
  cbn [play]. rewrite (Move_at_goal d m H). done.
Qed.

(** X7: [createMaze] is left as the stub that returns [emptyMaze()]: Icarus
    and the treasure are both at (0,0), no room is marked.  In the maze it
    returns the first look around reports victory, every move is refused
    with that same error, and no session of moves changes anything. *)
Theorem createMaze_unplayable h w m ds :
  createMaze h w = Ok m ->
  LookAround m = Ok (zeroSurvey, Some ErrVictory) /\
  (forall d, Move d m = Ok (m, Some ErrVictory)) /\
  play ds m = Ok m /\
  (forall q, Start (load m q) = false /\ Treasure (load m q) = false).
Proof.
  intros H. apply emptyMaze_inv in H as ->.
  split; [by apply LookAround_at_goal|]. split; [|split].
  - intros d. by apply Move_at_goal.
  - by apply play_at_goal.
  - intros q. by rewrite blankGrid_blank.
Qed.

Lemma createMaze_unplayable_witness :
  createMaze 3 4 = Ok (blankGrid 3 4) /\
  LookAround (blankGrid 3 4) = Ok (zeroSurvey, Some ErrVictory) /\
  play [E; S; W] (blankGrid 3 4) = Ok (blankGrid 3 4).
Proof.
  split; [reflexivity|].
  destruct (createMaze_unplayable 3 4 (blankGrid 3 4) [E; S; W] eq_refl)
    as (H1 & _ & H2 & _).
  by split.
Defined.

(** ** The starting grids, continued *)

Lemma emptyMaze_negative h w :
  h < 0 \/ (0 < h /\ w < 0) -> emptyMaze h w = Panic.
Proof.
  intros [Hh|[Hh Hw]].
  - unfold emptyMaze, make. by replace (h <? 0) with true by lia.
  - unfold emptyMaze. rewrite (make_spec [] h) by lia. cbn [mbind res_bind].
    unfold upto. destruct (Z.to_nat h) as [|n] eqn:Hn; [lia|].
    cbn [seq fmap list_fmap]. rewrite foldM_Panic; [done|].
    unfold make. by replace (w <? 0) with true by lia.
Qed.

(** X8: [emptyMaze] panics exactly when [make] is given a negative length:
    for a negative height, and for a negative width unless the height is
    0 (the rows are then never made). *)
Theorem emptyMaze_panics_iff h w :
  (emptyMaze h w = Panic <-> h < 0 \/ (0 < h /\ w < 0)) /\
  (emptyMaze h w = Ok (blankGrid h w) <-> 0 <= h /\ (h = 0 \/ 0 <= w)).
Proof.
  destruct (decide (h < 0 \/ (0 < h /\ w < 0))) as [Hneg|Hok].
  - rewrite (emptyMaze_negative h w Hneg).
    split; split; intros; first [done|lia].
  - assert (Hrun : emptyMaze h w = Ok (blankGrid h w)).
    { destruct (decide (h = 0)) as [->|Hne]; [done|].
      apply emptyMaze_spec; lia. }
    rewrite Hrun. split; split; intros; first [done|lia].
Qed.

(** A loop [for k := 0; k < n; k++] whose body returns and takes the
    invariant from [k] to [k + 1] returns, with the invariant at [n]. *)
Lemma foldM_seq {St} (I : Z -> St -> Prop) (f : St -> Z -> res St)
    (cnt : nat) : forall (k : nat) s,
  I (Z.of_nat k) s ->
  (forall j s, Z.of_nat k <= j < Z.of_nat (k + cnt) -> I j s ->
     exists s', f s j = Ok s' /\ I (j + 1) s') ->
  exists s', foldM f s (Z.of_nat <$> seq k cnt) = Ok s'
             /\ I (Z.of_nat (k + cnt)) s'.
Proof.
  induction cnt as [|cnt IH]; intros k s Hs Hstep.
  - exists s. by rewrite Nat.add_0_r.
  - cbn [seq fmap list_fmap]. rewrite foldM_cons.
    destruct (Hstep (Z.of_nat k) s ltac:(lia) Hs) as (s1 & -> & Hs1).
    cbn [mbind res_bind].
    destruct (IH (Datatypes.S k) s1) as (s' & Hrun & Hs').
    + by replace (Z.of_nat (Datatypes.S k)) with (Z.of_nat k + 1) by lia.
    + intros j s0 Hj. apply Hstep. lia.
    + exists s'. split; [done|].
      by replace (k + Datatypes.S cnt)%nat with (Datatypes.S k + cnt)%nat by lia.
Qed.

Lemma foldM_upto {St} (I : Z -> St -> Prop) (f : St -> Z -> res St) n s :
  0 <= n -> I 0 s ->
  (forall k s, 0 <= k < n -> I k s -> exists s', f s k = Ok s' /\ I (k + 1) s') ->
  exists s', foldM f s (upto n) = Ok s' /\ I n s'.
Proof.
  intros Hn Hs Hstep. unfold upto.
  destruct (foldM_seq I f (Z.to_nat n) 0 s Hs) as (s' & Hrun & Hs').
  - intros j s0 Hj. apply Hstep. lia.
  - exists s'. split; [done|]. by replace n with (Z.of_nat (0 + Z.to_nat n)) by lia.
Qed.

Lemma roomAt_uniformGrid r h w x y :
  roomAt (uniformGrid r h w) x y
  = if (0 <=? x) && (x <? w) && (0 <=? y) && (y <? h) then Some r else None.
Proof.
  unfold roomAt, uniformGrid. cbn [rooms].
  destruct ((x <? 0) || (y <? 0)) eqn:Hneg.
  { by replace ((0 <=? x) && (x <? w) && (0 <=? y) && (y <? h)) with false by lia. }
  destruct (decide (y < h)) as [Hy|Hy].
  - rewrite lookup_replicate_2 by lia. cbn [mbind option_bind].
    destruct (decide (x < w)) as [Hx|Hx].
    + rewrite lookup_replicate_2 by lia.
      by replace ((0 <=? x) && (x <? w) && (0 <=? y) && (y <? h)) with true by lia.
    + assert (replicate (Z.to_nat w) r !! Z.to_nat x = None) as ->
        by (apply lookup_replicate_None; lia).
      by replace ((0 <=? x) && (x <? w) && (0 <=? y) && (y <? h)) with false by lia.
  - assert (replicate (Z.to_nat h) (replicate (Z.to_nat w) r) !! Z.to_nat y
            = None) as -> by (apply lookup_replicate_None; lia).
    by replace ((0 <=? x) && (x <? w) && (0 <=? y) && (y <? h)) with false by lia.
Qed.

(** Two grids of one shape that hold the same rooms are equal. *)
Lemma rooms_ext m m' :
  shape m = shape m' -> (forall x y, roomAt m x y = roomAt m' x y) ->
  rooms m = rooms m'.
Proof.
  intros Hs Hr. apply list_eq. intros i.
  pose proof (f_equal (fun l => l !! i) Hs) as Hi. cbn beta in Hi.
  unfold shape in Hi. rewrite !list_lookup_fmap in Hi.
  destruct (rooms m !! i) as [row|] eqn:Hrow,
           (rooms m' !! i) as [row'|] eqn:Hrow'; try done.
  f_equal. apply list_eq. intros j.
  specialize (Hr (Z.of_nat j) (Z.of_nat i)). unfold roomAt in Hr.
  assert (Hb : (Z.of_nat j <? 0) || (Z.of_nat i <? 0) = false)
    by (apply orb_false_intro; apply Z.ltb_ge; lia).
  rewrite Hb, !Nat2Z.id, Hrow, Hrow' in Hr. done.
Qed.

Lemma store_update m x y r :
  roomAt m x y = Some r ->
  store m (InGrid x y) (wallIn r) = update m (InGrid x y) wallIn.
Proof. intros H. unfold update. cbn [load]. by rewrite H. Qed.

Lemma mkMaze_rooms m rs :
  rooms m = rs -> m = mkMaze rs (start m) (end_ m) (icarus m) (StepsTaken m).
Proof. intros <-. by destruct m. Qed.

Lemma store_fields m p r :
  start (store m p r) = start m /\ end_ (store m p r) = end_ m /\
  icarus (store m p r) = icarus m /\ StepsTaken (store m p r) = StepsTaken m.
Proof.
  unfold store. destruct p as [x y|]; [|done].
  by destruct ((x <? 0) || (y <? 0)).
Qed.

Lemma fullMaze_row h w k z :
  0 <= w -> 0 <= k < h -> walledUpTo h w k 0 z ->
  exists z',
    foldM (fun z x =>
             match roomAt z x k with
             | Some r => Ok (store z (InGrid x k) (wallIn r))
             | None => Panic
             end) z (upto w) = Ok z'
    /\ walledUpTo h w (k + 1) 0 z'.
Proof.
  intros Hw Hk Hz.
  destruct (foldM_upto (walledUpTo h w k)
              (fun z x =>
                 match roomAt z x k with
                 | Some r => Ok (store z (InGrid x k) (wallIn r))
                 | None => Panic
                 end) w z Hw Hz) as (z' & Hrun & Hz').
  - intros j s Hj (Hs & Hf1 & Hf2 & Hf3 & Hf4 & Hr).
    assert (Hjk : roomAt s j k = Some zeroRoom).
    { rewrite Hr. replace ((k <? k) || ((k =? k) && (j <? j))) with false by lia.
      unfold blankGrid. fold (uniformGrid zeroRoom h w).
      rewrite roomAt_uniformGrid.
      by replace ((0 <=? j) && (j <? w) && (0 <=? k) && (k <? h)) with true by lia. }
    rewrite Hjk. eexists. split; [done|].
    pose proof (store_fields s (InGrid j k) (wallIn zeroRoom))
      as (Hg1 & Hg2 & Hg3 & Hg4).
    split; [by rewrite shape_store|].
    split; [congruence|]. split; [congruence|]. split; [congruence|].
    split; [congruence|].
    intros x y. rewrite (store_update s j k zeroRoom Hjk), roomAt_update, Hr.
    case_decide as Hq.
    + injection Hq as <- <-.
      replace ((k <? k) || ((k =? k) && (j <? j))) with false by lia.
      by replace ((k <? k) || ((k =? k) && (j <? j + 1))) with true by lia.
    + assert (Hxy : x <> j \/ y <> k).
      { destruct (decide (x = j)) as [->|]; [|by left].
        destruct (decide (y = k)) as [->|]; [|by right]. done. }
      by replace ((y <? k) || ((y =? k) && (x <? j + 1)))
        with ((y <? k) || ((y =? k) && (x <? j))) by lia.
  - exists z'. split; [done|].
    destruct Hz' as (Hs & Hf1 & Hf2 & Hf3 & Hf4 & Hr).
    repeat (split; [done|]). intros x y. rewrite Hr.
    destruct (decide (0 <= x < w)) as [Hx|Hx].
    + by replace ((y <? k + 1) || ((y =? k + 1) && (x <? 0)))
        with ((y <? k) || ((y =? k) && (x <? w))) by lia.
    + assert (Hnone : roomAt (blankGrid h w) x y = None).
      { unfold blankGrid. fold (uniformGrid zeroRoom h w).
        rewrite roomAt_uniformGrid.
        by replace ((0 <=? x) && (x <? w) && (0 <=? y) && (y <? h))
          with false by lia. }
      rewrite Hnone. by repeat case_match.
Qed.

(** X9: [fullMaze] returns the grid of the configured size in which every
    room has its four walls and no mark, Icarus and the treasure at (0,0);
    like [emptyMaze] it panics on a negative size. *)
Theorem fullMaze_spec h w :
  (0 <= h -> 0 <= w -> fullMaze h w = Ok (fullGrid h w)) /\
  (h < 0 \/ (0 < h /\ w < 0) -> fullMaze h w = Panic).
Proof.
  split.
  - intros Hh Hw. unfold fullMaze. rewrite emptyMaze_spec by done.
    cbn [mbind res_bind].
    destruct (foldM_upto (fun k => walledUpTo h w k 0)
                (fun z y =>
                   foldM (fun z x =>
                            match roomAt z x y with
                            | Some r => Ok (store z (InGrid x y) (wallIn r))
                            | None => Panic
                            end) z (upto w))
                h (blankGrid h w) Hh) as (z & Hrun & Hz).
    + repeat (split; [done|]). intros x y.
      destruct ((y <? 0) || ((y =? 0) && (x <? 0))) eqn:Hb; [|done].
      unfold roomAt. by replace ((x <? 0) || (y <? 0)) with true by lia.
    + intros k s Hk Hs. by apply fullMaze_row.
    + rewrite Hrun. f_equal.
      destruct Hz as (Hs & Hf1 & Hf2 & Hf3 & Hf4 & Hr).
      rewrite (mkMaze_rooms z (rooms (fullGrid h w))).
      { by rewrite Hf1, Hf2, Hf3, Hf4. }
      apply rooms_ext.
      { rewrite Hs. unfold shape, fullGrid, uniformGrid, blankGrid.
        cbn [rooms]. rewrite !fmap_replicate. by rewrite !length_replicate. }
      intros x y. rewrite Hr. unfold fullGrid, blankGrid.
      fold (uniformGrid zeroRoom h w). rewrite !roomAt_uniformGrid.
      destruct (y <? h) eqn:Hy.
      * cbn [orb]. by case_match.
      * rewrite andb_false_r. by case_match.
  - intros Hneg. unfold fullMaze. by rewrite emptyMaze_negative.
Qed.

Lemma fullMaze_spec_witness :
  fullMaze 2 3 = Ok (fullGrid 2 3) /\ fullMaze 2 (-1) = Panic.
Proof.
  split.
  - apply (proj1 (fullMaze_spec 2 3)); lia.
  - apply (proj2 (fullMaze_spec 2 (-1))). right. lia.
Defined.

Lemma blankGrid_regular h w : 0 < h -> regular (blankGrid h w) = true.
Proof.
  intros Hh. unfold regular, rectangular, blankGrid. cbn [rooms].
  destruct (Z.to_nat h) as [|n] eqn:Hn; [lia|]. cbn [replicate hd].
  apply forallb_forall. intros row Hrow.
  apply list_elem_of_In in Hrow. rewrite <- replicate_S in Hrow.
  apply elem_of_replicate in Hrow as [-> _]. by apply Nat.eqb_eq.
Qed.

(** ** The server *)

Lemma MoveDirection_known ErrVictoryText d m sc :
  MoveDirection ErrVictoryText (directionName d) (serving m sc)
  = '(m', err) ← Move d m;
    match err with
    | Some err =>
        Ok (serving m' sc,
            JSON 409 (Reply.mk zeroSurvey false (errorText ErrVictoryText err) true))
    | None =>
        '(s, e) ← LookAround m';
        match e with
        | Some ErrVictory =>
            Ok (serving m' (sc ++ [StepsTaken m']),
                JSON StatusOK
                     (Reply.mk s true
                        ("Victory achieved in " +:+ formatInt (StepsTaken m')
                         +:+ " steps " +:+ newline)
                        false))
        | Some _ => Panic
        | None => Ok (serving m' sc, JSON StatusOK (Reply.mk s false EmptyString false))
        end
    end.
Proof. by destruct d. Qed.

Lemma MoveDirection_unknown ErrVictoryText param m sc :
  unknownDirection param ->
  MoveDirection ErrVictoryText param (serving m sc)
  = '(s, e) ← LookAround m;
    match e with
    | Some ErrVictory =>
        Ok (serving m (sc ++ [StepsTaken m]),
            JSON StatusOK
                 (Reply.mk s true
                    ("Victory achieved in " +:+ formatInt (StepsTaken m)
                     +:+ " steps " +:+ newline)
                    false))
    | Some _ => Panic
    | None => Ok (serving m sc, JSON StatusOK (Reply.mk s false EmptyString false))
    end.
Proof.
  intros Hun. unfold MoveDirection. cbn [currentMaze serving].
  destruct (String.eqb_spec param "left") as [->|_]; [by destruct (Hun W)|].
  destruct (String.eqb_spec param "right") as [->|_]; [by destruct (Hun E)|].
  destruct (String.eqb_spec param "down") as [->|_]; [by destruct (Hun S)|].
  destruct (String.eqb_spec param "up") as [->|_]; [by destruct (Hun N)|].
  done.
Qed.

Lemma known_or_unknown param :
  (exists d, param = directionName d) \/ unknownDirection param.
Proof.
  destruct (decide (param = "left")) as [->|?]; [left; by exists W|].
  destruct (decide (param = "right")) as [->|?]; [left; by exists E|].
  destruct (decide (param = "down")) as [->|?]; [left; by exists S|].
  destruct (decide (param = "up")) as [->|?]; [left; by exists N|].
  right. by intros [].
Qed.

Lemma LookAround_regular m :
  regular m = true ->
  exists s e, LookAround m = Ok (s, e) /\ (e = None \/ e = Some ErrVictory).
Proof.
  intros Hreg. unfold LookAround, Discover.
  destruct (_ && _); [by eexists _, _; split; [|right]|].
  destruct (GetRoom_regular m (X (icarus m)) (Y (icarus m)) Hreg)
    as [[r [e|]] ->]; cbn [mbind res_bind]; eexists _, _; split; eauto.
Qed.

(** X10: Once a maze has been made, [MoveDirection] answers every request,
    whatever the parameter, with status 200 or 409 and leaves the grid as
    it is: the branch that calls [err.Error()] on the nil [err] is never
    reached, since [LookAround] returns no error but the victory.  Before
    the first maze is made every request panics on the nil
    [currentMaze]. *)
Theorem MoveDirection_answers ErrVictoryText param m sc :
  regular m = true ->
  (exists m' sc' code r,
     MoveDirection ErrVictoryText param (serving m sc)
     = Ok (serving m' sc', JSON code r) /\
     (code = 200 \/ code = 409) /\ rooms m' = rooms m) /\
  MoveDirection ErrVictoryText param (mkServer None sc) = Panic.
Proof.
  intros Hreg. split; [|done].
  assert (Hlook : forall m' sc',
    regular m' = true -> rooms m' = rooms m ->
    exists m'' sc'' code r,
      ('(s, e) ← LookAround m';
       match e with
       | Some ErrVictory =>
           Ok (serving m' (sc' ++ [StepsTaken m']),
               JSON StatusOK
                    (Reply.mk s true
                       ("Victory achieved in " +:+ formatInt (StepsTaken m')
                        +:+ " steps " +:+ newline)
                       false))
       | Some _ => Panic
       | None => Ok (serving m' sc', JSON StatusOK (Reply.mk s false EmptyString false))
       end) = Ok (serving m'' sc'', JSON code r) /\
      (code = 200 \/ code = 409) /\ rooms m'' = rooms m).
  { intros m' sc' Hreg' Hrooms.
    destruct (LookAround_regular m' Hreg') as (s & e & -> & [-> | ->]);
      cbn [mbind res_bind]; eexists _, _, _, _; (split; [done|]); auto. }
  destruct (known_or_unknown param) as [[d ->]|Hun].
  - rewrite MoveDirection_known.
    destruct (Move_regular d m Hreg) as [[m' [e|]] Hmove]; rewrite Hmove;
      cbn [mbind res_bind]; apply Move_keeps in Hmove as (Hrooms & _).
    + eexists _, _, _, _. split; [done|]. auto.
    + apply Hlook; [|done]. by rewrite (regular_rooms m m').
  - rewrite MoveDirection_unknown by done. by apply Hlook.
Qed.

Lemma MoveDirection_answers_witness :
  exists m' sc' code r,
    MoveDirection "Victory" "sideways" (serving openSquare [])
    = Ok (serving m' sc', JSON code r) /\
    (code = 200 \/ code = 409) /\ rooms m' = rooms openSquare.
Proof.
  apply (MoveDirection_answers "Victory" "sideways" openSquare []).
  reflexivity.
Defined.

(** X11: A request for one of the four moves is answered with status 409
    exactly when the move is refused; the reply then carries the text of
    the error and the error flag, and the maze and the scores are what
    they were. *)
Theorem MoveDirection_conflict ErrVictoryText d m sc sv' code r :
  MoveDirection ErrVictoryText (directionName d) (serving m sc)
  = Ok (sv', JSON code r) ->
  (code = 409 <-> exists e, Move d m = Ok (m, Some e)) /\
  (forall e, Move d m = Ok (m, Some e) ->
     code = 409 /\ sv' = serving m sc /\
     r = conflictReply (errorText ErrVictoryText e)).
Proof.
  rewrite MoveDirection_known.
  destruct (Move d m) as [[m' [e|]]| |] eqn:Hmove; cbn [mbind res_bind];
    [| |done..].
  - intros [= <- <- <-].
    assert (m' = m) as ->.
    { apply Move_inv in Hmove. by inversion Hmove. }
    split; [split; [by exists e|done]|]. by intros e' [= <-].
  - destruct (LookAround m') as [[s [[]|]]| |]; cbn [mbind res_bind];
      try done; intros [= <- <- <-]; (split; [split; [done|by intros [? [=]]]|done]).
Qed.

Lemma MoveDirection_conflict_witness :
  exists sv' code r,
    MoveDirection "Victory" "left" (serving openSquare [])
    = Ok (sv', JSON code r) /\
    code = 409 /\ sv' = serving openSquare [] /\
    r = conflictReply "room outside of maze boundaries".
Proof.
  eexists _, _, _. split; [reflexivity|].
  apply (proj2 (MoveDirection_conflict "Victory" W openSquare [] _ _ _ eq_refl)
           ErrOutside).
  reflexivity.
Defined.

(** X12: An accepted move is answered with status 200.  The reply reports
    victory exactly when the move ended on the treasure; the steps taken
    are then appended to the scores and named in the message.  Otherwise
    the scores stay and the reply carries the survey of the room Icarus
    has entered. *)
Theorem MoveDirection_accepted ErrVictoryText d m sc m' :
  regular m = true ->
  Move d m = Ok (m', None) ->
  (icarus m' = end_ m ->
   MoveDirection ErrVictoryText (directionName d) (serving m sc)
   = Ok (serving m' (sc ++ [StepsTaken m']),
         JSON 200 (victoryReply zeroSurvey (StepsTaken m')))) /\
  (icarus m' <> end_ m ->
   exists s,
     Discover m' (X (icarus m')) (Y (icarus m')) = Ok (s, None) /\
     MoveDirection ErrVictoryText (directionName d) (serving m sc)
     = Ok (serving m' sc, JSON 200 (Reply.mk s false EmptyString false))).
Proof.
  intros Hreg Hmove. rewrite MoveDirection_known, Hmove. cbn [mbind res_bind].
  pose proof (Move_keeps _ _ _ _ Hmove) as (Hrooms & _ & Hend).
  split.
  - intros Hgoal. rewrite <- Hend in Hgoal.
    by rewrite (LookAround_at_goal m' Hgoal).
  - intros Hne. rewrite <- Hend in Hne. unfold LookAround.
    destruct ((X (end_ m') =? X (icarus m')) && (Y (end_ m') =? Y (icarus m')))
      eqn:Heq.
    { exfalso. apply Hne, Coordinate_eq; lia. }
    unfold Discover.
    assert (Hreg' : regular m' = true) by (by rewrite (regular_rooms m m')).
    destruct (GetRoom_regular m' (X (icarus m')) (Y (icarus m')) Hreg')
      as [[p [e|]] ->]; cbn [mbind res_bind]; by eexists.
Qed.

Lemma MoveDirection_accepted_witness :
  exists m',
    Move E (moveIcarus openSquare 0 1) = Ok (m', None) /\
    icarus m' = end_ (moveIcarus openSquare 0 1) /\
    MoveDirection "Victory" "right" (serving (moveIcarus openSquare 0 1) [7])
    = Ok (serving m' [7; 2], JSON 200 (victoryReply zeroSurvey 2)).
Proof.
  eexists. split; [reflexivity|]. split; [reflexivity|].
  apply (proj1 (MoveDirection_accepted "Victory" E (moveIcarus openSquare 0 1)
                  [7] _ eq_refl eq_refl)).
  reflexivity.
Defined.

(** X13: A request whose parameter is none of "left", "right", "down", "up"
    moves nothing and is answered like an accepted move.  With Icarus on
    the treasure the four moves are refused and record nothing, but every
    such request reports victory and appends the steps taken to the scores
    once more. *)
Theorem MoveDirection_on_treasure ErrVictoryText m sc :
  icarus m = end_ m ->
  (forall d,
     MoveDirection ErrVictoryText (directionName d) (serving m sc)
     = Ok (serving m sc, JSON 409 (conflictReply ErrVictoryText))) /\
  (forall param, unknownDirection param ->
     MoveDirection ErrVictoryText param (serving m sc)
     = Ok (serving m (sc ++ [StepsTaken m]),
           JSON 200 (victoryReply zeroSurvey (StepsTaken m)))).
Proof.
  intros Hgoal. split.
  - intros d. by rewrite MoveDirection_known, (Move_at_goal d m Hgoal).
  - intros param Hun.
    by rewrite MoveDirection_unknown, (LookAround_at_goal m Hgoal).
Qed.

Lemma MoveDirection_on_treasure_witness :
  unknownDirection "north" /\
  MoveDirection "Victory" "north" (serving atGoal [2])
  = Ok (serving atGoal [2; 2], JSON 200 (victoryReply zeroSurvey 2)).
Proof.
  assert (H : unknownDirection "north") by (by intros []).
  split; [exact H|].
  apply (proj2 (MoveDirection_on_treasure "Victory" atGoal [2] eq_refl) "north" H).
Defined.

Lemma GetStartingPoint_returns height width sv :
  0 < height -> 0 <= width ->
  GetStartingPoint height width sv
  = Ok (serving (blankGrid height width) (scores sv),
        JSON 200 (Reply.mk zeroSurvey false EmptyString false)).
Proof.
  intros Hh Hw. unfold GetStartingPoint, initializeMaze, createMaze.
  rewrite emptyMaze_spec by lia.
  cbn [mbind res_bind currentMaze Icarus blankGrid icarus zeroCoordinate X Y].
  fold (blankGrid height width). unfold Discover.
  destruct (GetRoom_regular (blankGrid height width) 0 0
              (blankGrid_regular height width Hh)) as [[p [e|]] ->];
    cbn [mbind res_bind]; [done|].
  by rewrite blankGrid_blank.
Qed.

(** X14: [GetStartingPoint] makes the wall-less grid of the configured size
    and answers with the empty survey; the branch that exits ("Icarus is
    outside of the maze") is never taken, since [Discover] returns no
    error.  With no row configured the handler panics in [Width]; a
    negative size panics in [make]. *)
Theorem GetStartingPoint_outcome height width sv :
  (0 < height /\ 0 <= width ->
   GetStartingPoint height width sv
   = Ok (serving (blankGrid height width) (scores sv),
         JSON 200 (Reply.mk zeroSurvey false EmptyString false))) /\
  (height <= 0 \/ width < 0 -> GetStartingPoint height width sv = Panic).
Proof.
  split.
  - intros [Hh Hw]. by apply GetStartingPoint_returns.
  - intros Hbad. unfold GetStartingPoint, initializeMaze, createMaze.
    destruct (decide (height = 0)) as [->|Hne].
    + by destruct (decide (0 <= width)).
    + rewrite emptyMaze_negative; [done|lia].
Qed.

Lemma GetStartingPoint_outcome_witness :
  GetStartingPoint 2 3 (mkServer None [5])
  = Ok (serving (blankGrid 2 3) [5],
        JSON 200 (Reply.mk zeroSurvey false EmptyString false)) /\
  GetStartingPoint 0 3 (mkServer None [5]) = Panic.
Proof.
  split.
  - apply (proj1 (GetStartingPoint_outcome 2 3 (mkServer None [5]))). lia.
  - apply (proj2 (GetStartingPoint_outcome 0 3 (mkServer None [5]))). lia.
Defined.

(** X15: The server as it stands cannot be played: [createMaze] puts Icarus
    and the treasure into the same room, so after /awake every request
    for one of the four moves is refused with the victory error, status
    409, and changes neither the maze nor the scores. *)
Theorem awake_then_move_refused ErrVictoryText height width sv d :
  0 < height -> 0 <= width ->
  exists sv1 r,
    GetStartingPoint height width sv = Ok (sv1, r) /\
    MoveDirection ErrVictoryText (directionName d) sv1
    = Ok (sv1, JSON 409 (conflictReply ErrVictoryText)) /\
    scores sv1 = scores sv.
Proof.
  intros Hh Hw. eexists _, _. split; [|split].
  - by apply GetStartingPoint_returns.
  - by rewrite MoveDirection_known, Move_at_goal.
  - done.
Qed.

Lemma awake_then_move_refused_witness :
  exists sv1 r,
    GetStartingPoint 2 2 (mkServer None []) = Ok (sv1, r) /\
    MoveDirection "Victory" "down" sv1
    = Ok (sv1, JSON 409 (conflictReply "Victory")) /\
    scores sv1 = [].
Proof.
  apply (awake_then_move_refused "Victory" 2 2 (mkServer None []) S); lia.
Defined.

(** ** Passages *)

Lemma opens_refl m : opens m m.
Proof. by split. Qed.

Lemma opens_trans m1 m2 m3 : opens m1 m2 -> opens m2 m3 -> opens m1 m3.
Proof.
  intros [Hs1 H1] [Hs2 H2]. split; [congruence|]. intros q.
  destruct (H1 q) as (Hw1 & Hst1 & Ht1), (H2 q) as (Hw2 & Hst2 & Ht2).
  split; [auto|]. split; congruence.
Qed.

Lemma opens_update m p f :
  (forall r d, wall d (Walls r) = false -> wall d (Walls (f r)) = false) ->
  (forall r, Start (f r) = Start r /\ Treasure (f r) = Treasure r) ->
  opens m (update m p f).
Proof.
  intros Hw Hmarks. split; [apply shape_update|]. intros q.
  rewrite load_update. case_decide as Hq; [subst q|done].
  destruct p as [x y|]; [|done]. cbn [load].
  destruct (roomAt m x y) as [r|]; [|done]. cbn [fmap option_fmap option_map default].
  split; [by apply Hw|apply Hmarks].
Qed.

Lemma opens_RmWall m p d : opens m (update m p (RmWall d)).
Proof.
  apply opens_update; [|done]. intros r d0. cbn [RmWall Walls].
  rewrite wall_setWall. by case_decide.
Qed.

Lemma opens_markVisited m p : opens m (update m p markVisited).
Proof. by apply opens_update. Qed.

Lemma carve_step_opens m croom room d :
  opens m (update (update (update m croom (RmWall d)) room
                          (RmWall (OPPOSITE d))) room markVisited).
Proof.
  eapply opens_trans; [|eapply opens_trans];
    [apply opens_RmWall|apply opens_RmWall|apply opens_markVisited].
Qed.

Lemma openBetween_walls m x y d :
  openBetween m (x, y, d) = true <->
  exists sa sb,
    wallsAt m x y = Some sa /\ wallsAt m (x + DX d) (y + DY d) = Some sb /\
    wall d sa = false /\ wall (OPPOSITE d) sb = false.
Proof.
  unfold openBetween, wallsAt. cbn [fst snd].
  destruct (roomAt m x y) as [a|]; [|split; [done|by intros (?&?&[=]&_)]].
  destruct (roomAt m _ _) as [b|]; [|split; [done|by intros (?&?&_&[=]&_)]].
  cbn [fmap option_fmap option_map]. split.
  - intros H. exists (Walls a), (Walls b).
    by destruct (wall d (Walls a)), (wall (OPPOSITE d) (Walls b)).
  - intros (sa & sb & [= <-] & [= <-] & -> & ->). done.
Qed.

Lemma wallsAt_load m x y s :
  wallsAt m x y = Some s -> Walls (load m (InGrid x y)) = s.
Proof.
  unfold wallsAt. cbn [load]. destruct (roomAt m x y); [|done].
  by intros [= <-].
Qed.

Lemma wallsAt_opens m m' x y s :
  opens m m' -> wallsAt m x y = Some s ->
  exists s', wallsAt m' x y = Some s' /\
             forall d, wall d s = false -> wall d s' = false.
Proof.
  intros [Hs Hq] Hw.
  assert (Hsome : is_Some (roomAt m' x y)).
  { apply (roomAt_shape m); [done|]. unfold wallsAt in Hw.
    by destruct (roomAt m x y). }
  destruct Hsome as [r' Hr']. exists (Walls r'). split.
  { unfold wallsAt. by rewrite Hr'. }
  intros d Hd. destruct (Hq (InGrid x y)) as (Hwall & _).
  rewrite (wallsAt_load m x y s Hw) in Hwall. specialize (Hwall d Hd).
  cbn [load] in Hwall. by rewrite Hr' in Hwall.
Qed.

Lemma openBetween_opens m m' e :
  opens m m' -> openBetween m e = true -> openBetween m' e = true.
Proof.
  destruct e as [[x y] d]. intros Ho. rewrite !openBetween_walls.
  intros (sa & sb & Ha & Hb & Hda & Hdb).
  destruct (wallsAt_opens m m' _ _ _ Ho Ha) as (sa' & Ha' & Hsa).
  destruct (wallsAt_opens m m' _ _ _ Ho Hb) as (sb' & Hb' & Hsb).
  exists sa', sb'. auto.
Qed.

Lemma passage_opens m m' a b : opens m m' -> passage m a b -> passage m' a b.
Proof.
  intros Ho (d & -> & Hopen). exists d. split; [done|].
  by eapply openBetween_opens.
Qed.

Lemma connected_opens m m' a b :
  opens m m' -> connected m a b -> connected m' a b.
Proof.
  intros Ho. apply rtc_subrel. intros ? ?. by apply passage_opens.
Qed.

Lemma OPPOSITE_OPPOSITE d : OPPOSITE (OPPOSITE d) = d.
Proof. by destruct d. Qed.

Lemma passage_sym m a b : passage m a b -> passage m b a.
Proof.
  destruct a as [x y]. intros (d & -> & Hopen). cbn [fst snd] in *.
  exists (OPPOSITE d). cbn [fst snd].
  destruct (step_back x y d) as [Hx Hy]. rewrite Hx, Hy. split; [done|].
  apply openBetween_walls in Hopen as (sa & sb & Ha & Hb & Hda & Hdb).
  apply openBetween_walls. rewrite Hx, Hy, OPPOSITE_OPPOSITE.
  by exists sb, sa.
Qed.

Lemma connected_sym m a b : connected m a b -> connected m b a.
Proof.
  induction 1 as [|a b c Hab _ IH]; [done|].
  eapply rtc_r; [exact IH|]. by apply passage_sym.
Qed.

(** ** The backtracker reaches every room *)

(** A step from a room of the grid does not wrap around. *)
Lemma step_from_inside m x y d :
  fitsInt m = true -> inside m x y = true ->
  x +i DX d = x + DX d /\ y +i DY d = y + DY d.
Proof.
  unfold fitsInt, inside, widthOf. intros Hfit Hin.
  destruct (Width m) as [w| |]; [|by rewrite andb_false_r in Hin..].
  unfold GoInt.add.
  split; apply wrap_id; unfold GoInt.in_range, GoInt.min_int, GoInt.max_int in *;
    destruct d; cbn [DX DY]; lia.
Qed.

(** One carving step leaves the flag of all rooms but the one entered as
    it was. *)
Lemma carve_step_visited m croom nx ny d q :
  q <> InGrid nx ny ->
  Visited (load (update (update (update m croom (RmWall d)) (InGrid nx ny)
                                (RmWall (OPPOSITE d)))
                        (InGrid nx ny) markVisited) q)
  = Visited (load m q).
Proof.
  intros Hne. rewrite !load_update_other by done.
  rewrite load_update. case_decide as Hq; [subst q|done].
  destruct croom as [x y|]; [|done]. cbn [load].
  by destruct (roomAt m x y).
Qed.

(** One carving step opens the passage between the two rooms. *)
Lemma carve_step_passage m x y d :
  is_Some (roomAt m x y) -> is_Some (roomAt m (x + DX d) (y + DY d)) ->
  passage (update (update (update m (InGrid x y) (RmWall d))
                          (InGrid (x + DX d) (y + DY d))
                          (RmWall (OPPOSITE d)))
                  (InGrid (x + DX d) (y + DY d)) markVisited)
          (x, y) (x + DX d, y + DY d).
Proof.
  intros [ra Hra] [rb Hrb]. exists d. split; [done|]. cbn [fst snd].
  apply openBetween_walls. rewrite !carve_step_walls.
  unfold wallsAt. rewrite Hra, Hrb. cbn [fmap option_fmap option_map].
  eexists _, _. split; [done|]. split; [done|].
  assert (Hne : InGrid (x + DX d) (y + DY d) <> InGrid x y).
  { intros [= Hx Hy]. destruct d; cbn [DX DY] in *; lia. }
  split.
  - destruct (decide (InGrid (x + DX d) (y + DY d) = InGrid x y)); [done|].
    destruct (decide (InGrid x y = InGrid x y)); [|done].
    rewrite wall_setWall. by rewrite decide_True.
  - destruct (decide (InGrid (x + DX d) (y + DY d)
                      = InGrid (x + DX d) (y + DY d))); [|done].
    rewrite wall_setWall. by rewrite decide_True.
Qed.

Section CarveOpens.
Variable rec : Maze -> Z -> Z -> Rand -> res (Maze * Rand).
Hypothesis rec_opens :
  forall m x y g m' g', rec m x y g = Ok (m', g') -> opens m m'.

Lemma carveLoop_opens x y (p : list Z) : forall m g m' g',
  carveLoop rec x y p m g = Ok (m', g') -> opens m m'.
Proof.
  induction p as [|i p IH]; intros m g m' g'.
  { intros [= <- <-]. apply opens_refl. }
  cbn [carveLoop].
  destruct (DIRECTIONS !! Z.to_nat i) as [d|]; [|done].
  destruct (GetRoom m x y) as [[croom e]| |]; [|done..].
  cbn [mbind res_bind].
  destruct (GetRoom m (x +i DX d) (y +i DY d)) as [[room [err|]]| |];
    [| |done..]; cbn [mbind res_bind]; [by apply IH|].
  destruct (Visited (load m room)); [by apply IH|].
  destruct (rec _ _ _ g) as [[m2 g2]| |] eqn:Hrec; [|done..].
  cbn [mbind res_bind]. intros Hloop.
  eapply opens_trans; [apply carve_step_opens|].
  eapply opens_trans; [by eapply rec_opens|by eapply IH].
Qed.
End CarveOpens.

Lemma carvePassagesFrom_opens fuel : forall m x y g m' g',
  carvePassagesFrom fuel m x y g = Ok (m', g') -> opens m m'.
Proof.
  induction fuel as [|fuel IH]; intros m x y g m' g'; [done|].
  cbn [carvePassagesFrom].
  destruct (Perm g 4) as [[p g1]| |]; [|done..]. cbn [mbind res_bind].
  by apply (carveLoop_opens _ IH).
Qed.

Lemma explored_refl m x y : explored m m x y.
Proof. intros a b _ H1 H2. congruence. Qed.

Section CarveExplores.
Variable rec : Maze -> Z -> Z -> Rand -> res (Maze * Rand).
Hypothesis rec_grows :
  forall m x y g m' g', rec m x y g = Ok (m', g') -> grows m m'.
Hypothesis rec_opens :
  forall m x y g m' g', rec m x y g = Ok (m', g') -> opens m m'.
Hypothesis rec_marks :
  forall m x y g m' g' d,
    rec m x y g = Ok (m', g') ->
    inside m (x +i DX d) (y +i DY d) = true ->
    Visited (load m' (InGrid (x +i DX d) (y +i DY d))) = true.
Hypothesis rec_explores :
  forall m x y g m' g',
    regular m = true -> fitsInt m = true -> inside m x y = true ->
    rec m x y g = Ok (m', g') -> explored m m' x y.

Lemma carveLoop_explores x y (p : list Z) : forall m g m' g',
  regular m = true -> fitsInt m = true -> inside m x y = true ->
  carveLoop rec x y p m g = Ok (m', g') -> explored m m' x y.
Proof.
  induction p as [|i p IH]; intros m g m' g' Hreg Hfit Hin.
  { intros [= <- <-]. apply explored_refl. }
  pose proof (proj1 (regular_spec m) Hreg) as [Hrect _].
  cbn [carveLoop].
  destruct (DIRECTIONS !! Z.to_nat i) as [d|]; [|done].
  rewrite (GetRoom_inside m x y Hrect Hin). cbn [mbind res_bind].
  destruct (step_from_inside m x y d Hfit Hin) as [-> ->].
  destruct (GetRoom m (x + DX d) (y + DY d)) as [[room [err|]]| |] eqn:Hget;
    [| |done..]; cbn [mbind res_bind]; [by apply IH|].
  destruct (GetRoom_ok_room _ _ _ _ Hget) as [-> Hroom].
  apply GetRoom_ok_inv in Hget as [_ Hinn].
  destruct (Visited (load m (InGrid (x + DX d) (y + DY d)))) eqn:Hv;
    [by apply IH|].
  pose proof (carve_step_grows m (InGrid x y) _ _ d Hroom) as [Hg1 Hv1].
  pose proof (carve_step_opens m (InGrid x y) (InGrid (x + DX d) (y + DY d)) d)
    as Ho1.
  pose proof (carve_step_passage m x y d (roomAt_inside m x y Hrect Hin) Hroom)
    as Hpass.
  pose proof (fun q => carve_step_visited m (InGrid x y) (x + DX d) (y + DY d)
                         d q) as Hsame.
  set (m1 := update _ _ markVisited) in *.
  destruct (rec m1 _ _ g) as [[m2 g2]| |] eqn:Hrec; [|done..].
  cbn [mbind res_bind]. intros Hloop.
  pose proof (rec_grows _ _ _ _ _ _ Hrec) as Hg2.
  pose proof (rec_opens _ _ _ _ _ _ Hrec) as Ho2.
  assert (Hs1 : shape m1 = shape m) by apply Hg1.
  assert (Hs2 : shape m2 = shape m) by (destruct Hg2; congruence).
  assert (Hreg1 : regular m1 = true) by (by eapply regular_shape).
  assert (Hreg2 : regular m2 = true) by (by eapply regular_shape).
  assert (Hfit1 : fitsInt m1 = true) by (by rewrite (fitsInt_shape m1 m)).
  assert (Hfit2 : fitsInt m2 = true) by (by rewrite (fitsInt_shape m2 m)).
  assert (Hin1 : forall a b, inside m1 a b = inside m a b)
    by (intros; by apply inside_shape).
  assert (Hin2 : forall a b, inside m2 a b = inside m a b)
    by (intros; by apply inside_shape).
  assert (Hrest : explored m2 m' x y).
  { apply (IH m2 g2 m' g'); [done..|by rewrite Hin2|done]. }
  pose proof (carveLoop_grows rec rec_grows x y p _ _ _ _ Hloop) as [Hg3 _].
  pose proof (carveLoop_opens rec rec_opens x y p _ _ _ _ Hloop) as Ho3.
  assert (Hsub : explored m1 m2 (x + DX d) (y + DY d)).
  { apply (rec_explores m1 _ _ g m2 g2); [done..|by rewrite Hin1|done]. }
  intros a b Hab Hva Hva'.
  destruct (Visited (load m2 (InGrid a b))) eqn:Hva2.
  2:{ destruct (Hrest a b) as [Hc Hcl]; [by rewrite Hin2|done..|].
      split; [done|]. intros d0 Hd0. apply Hcl. by rewrite Hin2. }
  destruct (decide (InGrid a b = InGrid (x + DX d) (y + DY d))) as [Heq|Hne].
  - injection Heq as -> ->. split.
    + apply rtc_once. eapply passage_opens; [|exact Hpass].
      by eapply opens_trans.
    + intros d0 Hd0. apply Hg3.
      assert (Hstep := step_from_inside m1 (x + DX d) (y + DY d) d0 Hfit1).
      rewrite Hin1 in Hstep. destruct (Hstep Hinn) as [Hx Hy].
      rewrite <- Hx, <- Hy. eapply rec_marks; [exact Hrec|].
      by rewrite Hx, Hy, Hin1.
  - destruct (Hsub a b) as [Hc Hcl]; [by rewrite Hin1| |done|].
    { by rewrite Hsame. }
    split.
    + eapply rtc_l.
      * eapply passage_opens; [|exact Hpass]. by eapply opens_trans.
      * by eapply connected_opens.
    + intros d0 Hd0. apply Hg3, Hcl. by rewrite Hin1.
Qed.
End CarveExplores.

Lemma carvePassagesFrom_explores fuel : forall m x y g m' g',
  regular m = true -> fitsInt m = true -> inside m x y = true ->
  carvePassagesFrom fuel m x y g = Ok (m', g') -> explored m m' x y.
Proof.
  induction fuel as [|fuel IH]; intros m x y g m' g' Hreg Hfit Hin; [done|].
  cbn [carvePassagesFrom].
  destruct (Perm g 4) as [[p g1]| |]; [|done..]. cbn [mbind res_bind].
  apply (carveLoop_explores _ (carvePassagesFrom_grows fuel)
           (carvePassagesFrom_opens fuel)
           (fun m x y g m' g' d => carvePassagesFrom_marks fuel m x y g m' g' d)
           IH); done.
Qed.

Lemma allUnvisited_load m q :
  allUnvisited m = true -> Visited (load m q) = false.
Proof.
  intros Hall. destruct (Visited (load m q)) eqn:Hv; [|done].
  destruct q as [x y|]; [|done].
  by rewrite (visited_not_allUnvisited m x y Hv) in Hall.
Qed.

Lemma inside_bounds m a b :
  inside m a b = true <-> 0 <= a < widthOf m /\ 0 <= b < Height m.
Proof.
  unfold inside, widthOf, Width, Height.
  destruct (rooms m) as [|row rs].
  - rewrite andb_false_r. cbn [length]. split; [done|lia].
  - rewrite !andb_true_iff, !Z.leb_le, !Z.ltb_lt. lia.
Qed.

(** A set of rooms that holds one room of the grid and, with every room,
    the rooms around it, holds all rooms of the grid. *)
Lemma closed_covers m (V : Z -> Z -> Prop) a0 b0 :
  (forall a b d, inside m a b = true -> V a b ->
     inside m (a + DX d) (b + DY d) = true -> V (a + DX d) (b + DY d)) ->
  inside m a0 b0 = true -> V a0 b0 ->
  forall a b, inside m a b = true -> V a b.
Proof.
  intros Hcl Hin0 Hv0.
  assert (H : forall (n : nat) a b,
            Z.abs (a - a0) + Z.abs (b - b0) = Z.of_nat n ->
            inside m a b = true -> V a b).
  { induction n as [|n IH]; intros a b Hn Hin.
    - assert (a = a0) as -> by lia. assert (b = b0) as -> by lia. done.
    - apply inside_bounds in Hin0 as Hb0. apply inside_bounds in Hin as Hb.
      destruct (decide (a = a0)) as [->|Ha].
      + destruct (decide (b0 < b)) as [Hlt|Hge].
        * replace a0 with (a0 + DX S) by (cbn; lia).
          replace b with (b - 1 + DY S) by (cbn; lia).
          assert (Hin' : inside m a0 (b - 1) = true)
            by (apply inside_bounds; lia).
          apply Hcl; [done|apply IH; [lia|done]|].
          cbn [DX DY]. apply inside_bounds. lia.
        * replace a0 with (a0 + DX N) by (cbn; lia).
          replace b with (b + 1 + DY N) by (cbn; lia).
          assert (Hin' : inside m a0 (b + 1) = true)
            by (apply inside_bounds; lia).
          apply Hcl; [done|apply IH; [lia|done]|].
          cbn [DX DY]. apply inside_bounds. lia.
      + destruct (decide (a0 < a)) as [Hlt|Hge].
        * replace a with (a - 1 + DX E) by (cbn; lia).
          replace b with (b + DY E) by (cbn; lia).
          assert (Hin' : inside m (a - 1) b = true)
            by (apply inside_bounds; lia).
          apply Hcl; [done|apply IH; [lia|done]|].
          cbn [DX DY]. apply inside_bounds. lia.
        * replace a with (a + 1 + DX W) by (cbn; lia).
          replace b with (b + DY W) by (cbn; lia).
          assert (Hin' : inside m (a + 1) b = true)
            by (apply inside_bounds; lia).
          apply Hcl; [done|apply IH; [lia|done]|].
          cbn [DX DY]. apply inside_bounds. lia. }
  intros a b. apply (H (Z.to_nat (Z.abs (a - a0) + Z.abs (b - b0)))). lia.
Qed.

(** In a grid of two rooms or more every room has a room next to it. *)
Lemma inside_has_neighbour m x y :
  inside m x y = true -> 1 < Height m * widthOf m ->
  exists d, inside m (x + DX d) (y + DY d) = true.
Proof.
  intros Hin Hsize. apply inside_bounds in Hin.
  destruct (decide (1 < widthOf m)) as [Hw|Hw].
  - destruct (decide (x = 0)) as [->|Hx].
    + exists E. apply inside_bounds. cbn [DX DY]. lia.
    + exists W. apply inside_bounds. cbn [DX DY]. lia.
  - assert (Hh : 1 < Height m) by nia.
    destruct (decide (y = 0)) as [->|Hy].
    + exists S. apply inside_bounds. cbn [DX DY]. lia.
    + exists N. apply inside_bounds. cbn [DX DY]. lia.
Qed.

Lemma carve_visits_all fuel m x y g m' g' :
  regular m = true -> fitsInt m = true -> allUnvisited m = true ->
  inside m x y = true -> 1 < Height m * widthOf m ->
  carvePassagesFrom fuel m x y g = Ok (m', g') ->
  forall a b, inside m a b = true -> Visited (load m' (InGrid a b)) = true.
Proof.
  intros Hreg Hfit Hall Hin Hsize Hrun.
  pose proof (carvePassagesFrom_explores fuel m x y g m' g' Hreg Hfit Hin Hrun)
    as Hexp.
  destruct (inside_has_neighbour m x y Hin Hsize) as [d Hd].
  apply (closed_covers m (fun a b => Visited (load m' (InGrid a b)) = true)
           (x + DX d) (y + DY d)); [|done|].
  - intros a b d0 Hab Hv Hnext.
    by apply (Hexp a b Hab (allUnvisited_load m _ Hall) Hv).
  - destruct (step_from_inside m x y d Hfit Hin) as [Hx Hy].
    rewrite <- Hx, <- Hy.
    apply (carvePassagesFrom_marks fuel m x y g m' g' d Hrun).
    by rewrite Hx, Hy.
Qed.

(** X16: Started on a grid of two rooms or more in which no room is marked,
    from any room of the grid and for every state of the generator, the
    backtracker returns and has then marked every room of the grid, the
    one it started from included. *)
Theorem backtracker_visits_every_room m x y g :
  regular m = true -> fitsInt m = true -> allUnvisited m = true ->
  inside m x y = true -> 1 < Height m * widthOf m ->
  exists m' g',
    carvePassagesFrom (Datatypes.S (pending m)) m x y g = Ok (m', g') /\
    forall a b, inside m a b = true -> Visited (load m' (InGrid a b)) = true.
Proof.
  intros Hreg Hfit Hall Hin Hsize.
  destruct (carvePassagesFrom_returns (Datatypes.S (pending m)) m x y g Hreg
              ltac:(lia)) as (m' & g' & Hrun).
  exists m', g'. split; [done|]. by eapply carve_visits_all.
Qed.

Lemma backtracker_visits_every_room_witness :
  exists m' g',
    carvePassagesFrom (Datatypes.S (pending closedSquare)) closedSquare 0 0
                      counting = Ok (m', g') /\
    forall a b, inside closedSquare a b = true ->
                Visited (load m' (InGrid a b)) = true.
Proof.
  apply (backtracker_visits_every_room closedSquare 0 0 counting);
    reflexivity.
Defined.

(** X17: The maze of the backtracker is connected.  Started on a grid in which
    no room is marked, from any room of the grid and for every state of
    the generator, the backtracker returns a maze in which any two rooms
    are joined by a chain of passages, each with the wall down on both of
    its sides. *)
Theorem backtracker_maze_connected m x y g :
  regular m = true -> fitsInt m = true -> allUnvisited m = true ->
  inside m x y = true ->
  exists m' g',
    carvePassagesFrom (Datatypes.S (pending m)) m x y g = Ok (m', g') /\
    forall a b c d,
      inside m a b = true -> inside m c d = true ->
      connected m' (a, b) (c, d).
Proof.
  intros Hreg Hfit Hall Hin.
  destruct (carvePassagesFrom_returns (Datatypes.S (pending m)) m x y g Hreg
              ltac:(lia)) as (m' & g' & Hrun).
  exists m', g'. split; [done|].
  pose proof (carvePassagesFrom_explores _ m x y g m' g' Hreg Hfit Hin Hrun)
    as Hexp.
  assert (Hfrom : forall a b, inside m a b = true ->
                              connected m' (x, y) (a, b)).
  { intros a b Hab.
    destruct (decide ((a, b) = (x, y))) as [[= -> ->]|Hne]; [done|].
    assert (Hsize : 1 < Height m * widthOf m).
    { apply inside_bounds in Hin, Hab.
      destruct (decide (a = x)) as [->|Ha].
      - assert (b <> y) by congruence. nia.
      - nia. }
    apply (Hexp a b Hab (allUnvisited_load m _ Hall)).
    by apply (carve_visits_all (Datatypes.S (pending m)) m x y g m' g'). }
  intros a b c d Hab Hcd. etrans; [|by apply Hfrom].
  apply connected_sym. by apply Hfrom.
Qed.

Lemma backtracker_maze_connected_witness :
  exists m' g',
    carvePassagesFrom (Datatypes.S (pending closedSquare)) closedSquare 0 0
                      counting = Ok (m', g') /\
    connected m' (1, 0) (0, 1).
Proof.
  destruct (backtracker_maze_connected closedSquare 0 0 counting
              eq_refl eq_refl eq_refl eq_refl) as (m' & g' & Hrun & Hconn).
  exists m', g'. split; [exact Hrun|]. by apply Hconn.
Defined.

(** X18: The backtracker only takes walls away: when it returns, the grid has
    the shape it had, no wall has been added and no start or treasure
    mark has changed. *)
Theorem backtracker_only_opens m x y g :
  regular m = true ->
  exists m' g',
    carvePassagesFrom (Datatypes.S (pending m)) m x y g = Ok (m', g') /\
    opens m m'.
Proof.
  intros Hreg.
  destruct (carvePassagesFrom_returns (Datatypes.S (pending m)) m x y g Hreg
              ltac:(lia)) as (m' & g' & Hrun).
  exists m', g'. split; [done|]. by eapply carvePassagesFrom_opens.
Qed.

Lemma backtracker_only_opens_witness :
  exists m' g',
    carvePassagesFrom (Datatypes.S (pending closedPair)) closedPair 0 0
                      counting = Ok (m', g') /\
    opens closedPair m'.
Proof. apply (backtracker_only_opens closedPair 0 0 counting). reflexivity. Defined.

(** ** Connected mazes can be solved *)

Lemma wallsAt_rooms m m' x y : rooms m' = rooms m -> wallsAt m' x y = wallsAt m x y.
Proof. intros H. unfold wallsAt, roomAt. by rewrite H. Qed.

Lemma wallsAt_inside m x y s :
  rectangular m = true -> wallsAt m x y = Some s -> inside m x y = true.
Proof.
  intros Hrect. unfold wallsAt.
  destruct (roomAt m x y) as [r|] eqn:Hr; [|done]. intros _.
  by eapply roomAt_Some_inside.
Qed.

Lemma goMaze_moveIcarus m x y :
  goMaze m = true -> inside m x y = true -> goMaze (moveIcarus m x y) = true.
Proof.
  intros Hgo Hin. pose proof (goMaze_facts m Hgo) as (_ & Hh & Hw & _).
  assert (Hx : intb x = true /\ intb y = true).
  { unfold inside in Hin. destruct (Width m) as [w| |] eqn:Hwd;
      [|by rewrite andb_false_r in Hin..].
    specialize (Hw w eq_refl). unfold intb, GoInt.min_int, GoInt.max_int in *.
    lia. }
  destruct Hx as [Hx Hy].
  assert (Hs : intb (StepsTaken m +i 1) = true).
  { pose proof (wrap_in_range (StepsTaken m + 1)) as Hr.
    unfold intb, GoInt.add, GoInt.in_range in *. lia. }
  unfold goMaze in *. cbn [moveIcarus rooms icarus end_ StepsTaken X Y].
  rewrite !andb_true_iff in *. rewrite Hx, Hy, Hs. tauto.
Qed.

(** A passage can be walked: off the treasure, the move along a passage
    is accepted and takes Icarus to the room at its other end. *)
Lemma Move_along_passage m d :
  goMaze m = true -> icarus m <> end_ m ->
  openBetween m (X (icarus m), Y (icarus m), d) = true ->
  Move d m = Ok (moveIcarus m (X (icarus m) + DX d) (Y (icarus m) + DY d), None).
Proof.
  intros Hgo Hne Hopen.
  pose proof (goMaze_facts m Hgo) as (Hrect & _).
  apply openBetween_walls in Hopen as (sa & sb & Ha & Hb & Hda & _).
  pose proof (wallsAt_inside m _ _ sa Hrect Ha) as Hin.
  pose proof (wallsAt_inside m _ _ sb Hrect Hb) as Hin'.
  destruct (LookAround_off_goal m Hrect Hin Hne) as (s & Hlook & Hs).
  assert (s = sa) as -> by congruence.
  rewrite Move_unfold, Hlook. cbn [mbind res_bind]. rewrite Hda.
  rewrite (inside_neighbour d m Hgo Hin'). cbn [fst snd].
  by rewrite (GetRoom_inside m _ _ Hrect Hin').
Qed.

Lemma walk_to m0 a b :
  connected m0 a b ->
  forall m, goMaze m = true -> rooms m = rooms m0 ->
    icarus m = mkCoordinate a.1 a.2 ->
    exists ds m',
      walks ds m m' /\
      play ds m = Ok m' /\ rooms m' = rooms m /\ end_ m' = end_ m /\
      (icarus m' = end_ m \/ icarus m' = mkCoordinate b.1 b.2).
Proof.
  induction 1 as [a|a a' b Hstep _ IH]; intros m Hgo Hrooms Hic.
  { exists [], m. split; [constructor|]. by repeat split; [..|right]. }
  destruct (decide (icarus m = end_ m)) as [Hgoal|Hne].
  { exists [], m. split; [constructor|]. by repeat split; [..|left]. }
  destruct Hstep as (d & -> & Hopen). cbn [fst snd] in IH.
  assert (Hopen' : openBetween m (X (icarus m), Y (icarus m), d) = true).
  { rewrite Hic. cbn [X Y]. unfold openBetween in *. cbn [fst snd] in *.
    unfold roomAt in *. by rewrite Hrooms. }
  pose proof (Move_along_passage m d Hgo Hne Hopen') as Hmove.
  rewrite Hic in Hmove. cbn [X Y] in Hmove.
  set (m1 := moveIcarus m (a.1 + DX d) (a.2 + DY d)) in *.
  assert (Hin' : inside m (a.1 + DX d) (a.2 + DY d) = true).
  { apply Move_inv in Hmove.
    apply openBetween_walls in Hopen' as (sa & sb & _ & Hb & _).
    rewrite Hic in Hb. cbn [X Y] in Hb.
    eapply wallsAt_inside; [|exact Hb]. by apply goMaze_facts in Hgo as [? _]. }
  destruct (IH m1) as (ds & m' & Hwalk & Hplay & Hr & He & Hend).
  - by apply goMaze_moveIcarus.
  - done.
  - done.
  - exists (d :: ds), m'. split; [by econstructor|].
    cbn [play]. rewrite Hmove. cbn [mbind res_bind].
    by repeat split.
Qed.

(** X20: A maze in which passages join Icarus's room to the room of the
    treasure can be solved: there is a sequence of moves, every one of
    them accepted (the move method returns no error), that ends with
    Icarus on the treasure, where [LookAround] reports victory; the rooms
    are left as they were. *)
Theorem connected_maze_solvable m :
  goMaze m = true ->
  connected m (X (icarus m), Y (icarus m)) (X (end_ m), Y (end_ m)) ->
  exists ds m',
    walks ds m m' /\
    play ds m = Ok m' /\ icarus m' = end_ m' /\ rooms m' = rooms m /\
    LookAround m' = Ok (zeroSurvey, Some ErrVictory).
Proof.
  intros Hgo Hconn.
  destruct (walk_to m _ _ Hconn m Hgo eq_refl)
    as (ds & m' & Hwalk & Hplay & Hr & He & Hic).
  { by destruct (icarus m). }
  exists ds, m'. cbn [fst snd] in Hic.
  assert (Hgoal : icarus m' = end_ m').
  { rewrite He. destruct Hic as [->| ->]; [done|]. by destruct (end_ m). }
  repeat split; try done. by apply LookAround_at_goal.
Qed.

Lemma connected_maze_solvable_witness :
  exists ds m',
    walks ds openSquare m' /\
    play ds openSquare = Ok m' /\ icarus m' = end_ m' /\
    rooms m' = rooms openSquare /\
    LookAround m' = Ok (zeroSurvey, Some ErrVictory).
Proof.
  apply (connected_maze_solvable openSquare); [reflexivity|].
  eapply rtc_l; [exists E; split; reflexivity|].
  eapply rtc_l; [exists S; split; reflexivity|].
  apply rtc_refl.
Defined.

Lemma backtracker_keeps_symmetry_witness :
  exists m' g',
    carvePassagesFrom 5 closedSquare 0 0 counting = Ok (m', g') /\
    symmetric m' = true.
Proof.
  assert (Hrun : {r | carvePassagesFrom 5 closedSquare 0 0 counting = Ok r}).
  { eexists. vm_compute. reflexivity. }
  destruct Hrun as [[m' g'] Hrun]. exists m', g'. split; [exact Hrun|].
  apply (backtracker_keeps_symmetry 5 closedSquare 0 0 counting _ g');
    [reflexivity|reflexivity|
     unfold GoInt.in_range, GoInt.min_int, GoInt.max_int; lia|
     unfold GoInt.in_range, GoInt.min_int, GoInt.max_int; lia|
     reflexivity|exact Hrun].
Defined.

(** ** Recursive division, continued *)

Lemma addi_id a b : GoInt.in_range (a + b) -> a +i b = a + b.
Proof. apply wrap_id. Qed.

Lemma subi_id a b : GoInt.in_range (a - b) -> a -i b = a - b.
Proof. apply wrap_id. Qed.

(** Closing a side condition on the range of an [int]. *)
Ltac in_int :=
  unfold GoInt.in_range, GoInt.min_int, GoInt.max_int in *; lia.

Lemma builds_refl m : builds m m.
Proof. by split. Qed.

Lemma builds_trans m1 m2 m3 : builds m1 m2 -> builds m2 m3 -> builds m1 m3.
Proof.
  intros [Hs1 H1] [Hs2 H2]. split; [congruence|]. intros q.
  destruct (H1 q) as (Hw1 & Hst1 & Ht1 & Hv1),
           (H2 q) as (Hw2 & Hst2 & Ht2 & Hv2).
  split; [auto|]. repeat split; congruence.
Qed.

Lemma builds_AddWall m p d : builds m (update m p (AddWall d)).
Proof.
  split; [apply shape_update|]. intros q.
  rewrite load_update. case_decide as Hq; [subst q|done].
  destruct p as [x y|]; [|done]. cbn [load].
  destruct (roomAt m x y) as [r|]; [|done].
  unfold default, id. cbn [fmap option_fmap option_map].
  split; [|done]. intros d0. cbn [AddWall Walls].
  rewrite wall_setWall. by case_decide.
Qed.

(** A loop whose body builds, on every grid of equal, existing rows,
    returns and builds. *)
Lemma loop_builds (f : Maze -> Z -> res Maze) n m :
  (forall s k, regular s = true -> 0 <= k < n ->
     exists s', f s k = Ok s' /\ builds s s') ->
  regular m = true -> 0 <= n ->
  exists m', foldM f m (upto n) = Ok m' /\ builds m m'.
Proof.
  intros Hbody Hreg Hn.
  destruct (foldM_upto (fun _ s => builds m s) f n m Hn (builds_refl m))
    as (m' & Hrun & Hb); [|by exists m'].
  intros k s Hk Hs.
  assert (Hregs : regular s = true) by (eapply regular_shape; [apply Hs|done]).
  destruct (Hbody s k Hregs Hk) as (s' & -> & Hs').
  exists s'. split; [done|]. by eapply builds_trans.
Qed.

(** The body of a wall loop: a wall is added to the room [GetRoom] hands
    out. *)
Lemma add_wall_builds s x y d :
  regular s = true ->
  exists s',
    ('(room, _) ← GetRoom s x y; Ok (update s room (AddWall d))) = Ok s'
    /\ builds s s'.
Proof.
  intros Hreg. destruct (GetRoom_regular s x y Hreg) as [[room e] ->].
  cbn [mbind res_bind]. eexists. split; [done|]. apply builds_AddWall.
Qed.

Lemma regular_builds m m' : builds m m' -> regular m = true -> regular m' = true.
Proof. intros [Hs _]. by apply regular_shape. Qed.

(** [divide] terminates: on a grid of equal, existing rows, for a region
    whose corners are values of an [int], it returns once the fuel covers
    the width plus the height of the region, and it has only built. *)
Lemma divide_returns fuel : forall m x y width height o g,
  regular m = true ->
  0 <= x -> 0 <= y ->
  x + width <= GoInt.max_int -> y + height <= GoInt.max_int ->
  width + height <= Z.of_nat fuel ->
  exists m' g',
    divide fuel m x y width height o g = Ok (m', g') /\ builds m m'.
Proof.
  induction fuel as [|fuel IH]; intros m x y width height o g Hreg Hx Hy Hxw Hyh
                                       Hfuel.
  { rewrite divide_small by lia. exists m, g. split; [done|apply builds_refl]. }
  destruct (decide (width < 2 \/ height < 2)) as [Hsmall|Hbig].
  { rewrite divide_small by done. exists m, g. split; [done|apply builds_refl]. }
  cbn [divide]. replace ((width <? 2) || (height <? 2)) with false by lia.
  destruct (o =? HORIZONTAL).
  - (* a horizontal wall *)
    assert (Hwy : exists v g1,
      (if height >? 2
       then '(v, g) ← Intn g (height -i 2); Ok (y +i v, g)
       else Ok (y, g)) = Ok (y + v, g1) /\ 0 <= v /\ v + 2 <= height).
    { destruct (height >? 2) eqn:Hh.
      - rewrite subi_id by in_int.
        destruct (Intn_spec g (height - 2) ltac:(lia)) as (v & -> & Hv).
        cbn [mbind res_bind]. rewrite addi_id by in_int.
        exists v. eexists. split; [done|lia].
      - exists 0, g. rewrite Z.add_0_r. split; [done|lia]. }
    destruct Hwy as (v & g1 & -> & Hv0 & Hv). cbn [mbind res_bind].
    destruct (Intn_spec g1 width ltac:(lia)) as (v' & -> & Hv').
    cbn [mbind res_bind].
    destruct (loop_builds
                (fun m k =>
                   if x +i k =? x +i v' then Ok m
                   else
                     '(room, _) ← GetRoom m (x +i k) (y + v);
                     Ok (update m room (AddWall mazelib.S)))
                width m) as (m1 & -> & Hb1); [|done|lia|].
    { intros s k Hs Hk. cbn beta. case_match; [|by apply add_wall_builds].
      exists s. split; [done|apply builds_refl]. }
    cbn [mbind res_bind].
    assert (Hh1 : y + v -i y +i 1 = v + 1).
    { rewrite subi_id by in_int. rewrite addi_id by in_int. lia. }
    assert (Hh2 : y +i height -i (y + v) -i 1 = height - v - 1).
    { rewrite (addi_id y height) by in_int.
      rewrite (subi_id (y + height)) by in_int.
      rewrite subi_id by in_int. lia. }
    assert (Hy2 : y + v +i 1 = y + v + 1) by (apply addi_id; in_int).
    rewrite Hh1, Hh2, Hy2.
    destruct (chooseOrientation_returns width (v + 1) (advance g1))
      as (o1 & g2 & Ho1).
    unfold advance in Ho1. rewrite Ho1. cbn [mbind res_bind].
    destruct (IH m1 x y width (v + 1) o1 g2) as (m2 & g3 & -> & Hb2);
      [by eapply regular_builds|lia..|].
    cbn [mbind res_bind].
    destruct (chooseOrientation_returns width (height - v - 1) g3)
      as (o2 & g4 & ->).
    cbn [mbind res_bind].
    destruct (IH m2 x (y + v + 1) width (height - v - 1) o2 g4)
      as (m3 & g5 & -> & Hb3);
      [eapply regular_builds; [exact Hb2|by eapply regular_builds]|lia..|].
    exists m3, g5. split; [done|].
    eapply builds_trans; [exact Hb1|]. by eapply builds_trans.
  - (* a vertical wall *)
    assert (Hwx : exists v g1,
      (if width >? 2
       then '(v, g) ← Intn g (width -i 2); Ok (x +i v, g)
       else Ok (x, g)) = Ok (x + v, g1) /\ 0 <= v /\ v + 2 <= width).
    { destruct (width >? 2) eqn:Hh.
      - rewrite subi_id by in_int.
        destruct (Intn_spec g (width - 2) ltac:(lia)) as (v & -> & Hv).
        cbn [mbind res_bind]. rewrite addi_id by in_int.
        exists v. eexists. split; [done|lia].
      - exists 0, g. rewrite Z.add_0_r. split; [done|lia]. }
    destruct Hwx as (v & g1 & -> & Hv0 & Hv). cbn [mbind res_bind].
    destruct (Intn_spec g1 height ltac:(lia)) as (v' & -> & Hv').
    cbn [mbind res_bind].
    destruct (loop_builds
                (fun m k =>
                   if y +i k =? y +i v' then Ok m
                   else
                     '(room, _) ← GetRoom m (x + v) (y +i k);
                     Ok (update m room (AddWall mazelib.E)))
                height m) as (m1 & -> & Hb1); [|done|lia|].
    { intros s k Hs Hk. cbn beta. case_match; [|by apply add_wall_builds].
      exists s. split; [done|apply builds_refl]. }
    cbn [mbind res_bind].
    assert (Hw1 : x + v -i x +i 1 = v + 1).
    { rewrite subi_id by in_int. rewrite addi_id by in_int. lia. }
    assert (Hw2 : x +i width -i (x + v) -i 1 = width - v - 1).
    { rewrite (addi_id x width) by in_int.
      rewrite (subi_id (x + width)) by in_int.
      rewrite subi_id by in_int. lia. }
    assert (Hx2 : x + v +i 1 = x + v + 1) by (apply addi_id; in_int).
    rewrite Hw1, Hw2, Hx2.
    destruct (chooseOrientation_returns (v + 1) height (advance g1))
      as (o1 & g2 & Ho1).
    unfold advance in Ho1. rewrite Ho1. cbn [mbind res_bind].
    destruct (IH m1 x y (v + 1) height o1 g2) as (m2 & g3 & -> & Hb2);
      [by eapply regular_builds|lia..|].
    cbn [mbind res_bind].
    destruct (chooseOrientation_returns (width - v - 1) height g3)
      as (o2 & g4 & ->).
    cbn [mbind res_bind].
    destruct (IH m2 (x + v + 1) y (width - v - 1) height o2 g4)
      as (m3 & g5 & -> & Hb3);
      [eapply regular_builds; [exact Hb2|by eapply regular_builds]|lia..|].
    exists m3, g5. split; [done|].
    eapply builds_trans; [exact Hb1|]. by eapply builds_trans.
Qed.

Lemma regular_inside_height m : regular m = true -> 0 < Height m.
Proof.
  unfold regular, Height. destruct (rooms m); [done|]. cbn [length]. lia.
Qed.

Lemma Width_widthOf m : regular m = true -> Width m = Ok (widthOf m).
Proof.
  unfold regular, widthOf, Width. by destruct (rooms m).
Qed.

Lemma builds_wall m m' q d :
  builds m m' -> wall d (Walls (load m q)) = true ->
  wall d (Walls (load m' q)) = true.
Proof. intros [_ H]. apply H. Qed.

Lemma inside_builds m m' x y : builds m m' -> inside m' x y = inside m x y.
Proof. intros [Hs _]. by apply inside_shape. Qed.

(** Adding a wall to a room of the grid raises that flag. *)
Lemma AddWall_raises m x y d :
  regular m = true -> inside m x y = true ->
  exists m',
    ('(room, _) ← GetRoom m x y; Ok (update m room (AddWall d))) = Ok m'
    /\ builds m m' /\ wall d (Walls (load m' (InGrid x y))) = true.
Proof.
  intros Hreg Hin. pose proof (proj1 (regular_spec m) Hreg) as [Hrect _].
  rewrite (GetRoom_inside m x y Hrect Hin). cbn [mbind res_bind].
  eexists. split; [done|]. split; [apply builds_AddWall|].
  rewrite load_update_same by (by apply roomAt_inside).
  cbn [AddWall Walls]. rewrite wall_setWall. by rewrite decide_True.
Qed.

(** [addBorders] returns; it only builds, and afterwards every room of the
    last row has its south wall and every room of the last column its
    east wall. *)
Lemma addBorders_returns m :
  regular m = true -> fitsInt m = true ->
  exists m',
    addBorders m = Ok m' /\ builds m m' /\
    (forall x, 0 <= x < widthOf m ->
       Bottom (Walls (load m' (InGrid x (Height m - 1)))) = true) /\
    (forall y, 0 < widthOf m -> 0 <= y < Height m ->
       Right (Walls (load m' (InGrid (widthOf m - 1) y))) = true).
Proof.
  intros Hreg Hfit. unfold addBorders.
  rewrite (Width_widthOf m Hreg). cbn [mbind res_bind].
  pose proof (regular_inside_height m Hreg) as Hh.
  assert (Hfit' : Height m <= GoInt.max_int /\ widthOf m <= GoInt.max_int)
    by (unfold fitsInt in Hfit; lia).
  assert (Hw0 : 0 <= widthOf m).
  { pose proof (Width_widthOf m Hreg) as Hw. by apply Width_nonneg in Hw. }
  rewrite (subi_id (Height m)) by in_int.
  destruct (foldM_upto
              (fun k s => builds m s /\
                 forall x, 0 <= x < k ->
                   Bottom (Walls (load s (InGrid x (Height m - 1)))) = true)
              (fun m0 x =>
                 '(r, _) ← GetRoom m0 x (Height m - 1);
                 Ok (update m0 r (AddWall mazelib.S)))
              (widthOf m) m Hw0) as (m1 & -> & Hb1 & Hsouth).
  { split; [apply builds_refl|]. intros; lia. }
  { intros k s Hk [Hb Hs].
    destruct (AddWall_raises s k (Height m - 1) mazelib.S)
      as (s' & -> & Hb' & Hnew).
    - by eapply regular_builds.
    - rewrite (inside_builds m s _ _ Hb). apply inside_bounds. lia.
    - exists s'. split; [done|]. split; [by eapply builds_trans|].
      intros x Hx. destruct (decide (x = k)) as [->|Hne]; [done|].
      apply (builds_wall s s' _ mazelib.S Hb'). apply Hs. lia. }
  cbn [mbind res_bind].
  destruct (decide (widthOf m = 0)) as [Hzero|Hpos].
  - (* no column: the second loop writes to fresh rooms *)
    destruct (loop_builds
                (fun m0 y =>
                   '(r, _) ← GetRoom m0 (widthOf m -i 1) y;
                   Ok (update m0 r (AddWall mazelib.E)))
                (Height m) m1) as (m2 & -> & Hb2); [| |lia|].
    { intros s k Hs _. by apply add_wall_builds. }
    { by eapply regular_builds. }
    exists m2. split; [done|]. split; [by eapply builds_trans|].
    split; intros; lia.
  - rewrite (subi_id (widthOf m)) by in_int.
    destruct (foldM_upto
                (fun k s => builds m1 s /\
                   forall y, 0 <= y < k ->
                     Right (Walls (load s (InGrid (widthOf m - 1) y))) = true)
                (fun m0 y =>
                   '(r, _) ← GetRoom m0 (widthOf m - 1) y;
                   Ok (update m0 r (AddWall mazelib.E)))
                (Height m) m1 ltac:(lia)) as (m2 & -> & Hb2 & Heast).
    { split; [apply builds_refl|]. intros; lia. }
    { intros k s Hk [Hb Hs].
      destruct (AddWall_raises s (widthOf m - 1) k mazelib.E)
        as (s' & -> & Hb' & Hnew).
      - eapply regular_builds; [exact Hb|]. by eapply regular_builds.
      - rewrite (inside_builds m1 s _ _ Hb), (inside_builds m m1 _ _ Hb1).
        apply inside_bounds. lia.
      - exists s'. split; [done|]. split; [by eapply builds_trans|].
        intros y Hy. destruct (decide (y = k)) as [->|Hne]; [done|].
        apply (builds_wall s s' _ mazelib.E Hb'). apply Hs. lia. }
    exists m2. split; [done|]. split; [by eapply builds_trans|].
    split; [|intros y _; apply Heast]. intros x Hx.
    apply (builds_wall m1 m2 _ mazelib.S Hb2). by apply Hsouth.
Qed.

Lemma blankGrid_fitsInt h w :
  0 < h <= GoInt.max_int -> 0 <= w <= GoInt.max_int ->
  fitsInt (blankGrid h w) = true.
Proof.
  intros Hh Hw. unfold fitsInt, widthOf.
  rewrite Width_blankGrid, Height_blankGrid by lia. lia.
Qed.

Lemma fitsInt_builds m m' : builds m m' -> fitsInt m' = fitsInt m.
Proof. intros [Hs _]. by apply fitsInt_shape. Qed.

(** The recursive division as a whole, on a grid with rooms. *)
Lemma recursiveDivision_run fuel h w g :
  0 < h <= GoInt.max_int -> 0 < w <= GoInt.max_int ->
  h + w <= Z.of_nat fuel ->
  exists m g',
    recursiveDivision fuel h w g = Ok (m, g') /\
    builds (blankGrid h w) m /\
    (forall x, 0 <= x < w -> Bottom (Walls (load m (InGrid x (h - 1)))) = true) /\
    (forall y, 0 <= y < h -> Right (Walls (load m (InGrid (w - 1) y))) = true).
Proof.
  intros Hh Hw Hfuel. unfold recursiveDivision.
  rewrite emptyMaze_spec by lia. cbn [mbind res_bind].
  rewrite Width_blankGrid, Height_blankGrid by lia. cbn [mbind res_bind].
  destruct (chooseOrientation_returns w h g) as (o & g1 & ->).
  cbn [mbind res_bind].
  pose proof (blankGrid_regular h w ltac:(lia)) as Hreg.
  destruct (divide_returns fuel (blankGrid h w) 0 0 w h o g1 Hreg)
    as (m1 & g2 & -> & Hb1); [lia..|].
  cbn [mbind res_bind].
  destruct (addBorders_returns m1) as (m2 & -> & Hb2 & Hsouth & Heast).
  { by eapply regular_builds. }
  { rewrite (fitsInt_builds _ _ Hb1). apply blankGrid_fitsInt; lia. }
  cbn [mbind res_bind]. exists m2, g2. split; [done|].
  split; [by eapply builds_trans|].
  assert (Hhm : Height m1 = h).
  { destruct Hb1 as [Hs _]. rewrite (Height_shape m1 (blankGrid h w) Hs).
    apply Height_blankGrid. lia. }
  assert (Hwm : widthOf m1 = w).
  { destruct Hb1 as [Hs _]. unfold widthOf.
    rewrite (Width_shape m1 (blankGrid h w) Hs), Width_blankGrid by lia. done. }
  rewrite Hhm, Hwm in *. split; [done|]. intros y Hy. apply Heast; lia.
Qed.

(** X21: The recursive division terminates: for a grid with rooms whose sides
    fit an [int] it returns, for every state of the generator, once the
    fuel covers the height plus the width.  It only builds walls on the
    grid [emptyMaze] made, marks no room, and never writes a north or a
    west flag. *)
Theorem recursiveDivision_returns fuel h w g :
  0 < h <= GoInt.max_int -> 0 < w <= GoInt.max_int ->
  h + w <= Z.of_nat fuel ->
  exists m g',
    recursiveDivision fuel h w g = Ok (m, g') /\
    builds (blankGrid h w) m /\ oneSided m.
Proof.
  intros Hh Hw Hfuel.
  destruct (recursiveDivision_run fuel h w g Hh Hw Hfuel)
    as (m & g' & Hrun & Hb & _).
  exists m, g'. split; [done|]. split; [done|].
  by eapply recursiveDivision_oneSided.
Qed.

Lemma recursiveDivision_returns_witness :
  exists m g',
    recursiveDivision 7 3 4 counting = Ok (m, g') /\
    builds (blankGrid 3 4) m /\ oneSided m.
Proof.
  apply (recursiveDivision_returns 7 3 4 counting);
    unfold GoInt.max_int; simpl; lia.
Defined.

(** X22: The borders of the recursive division: in the maze it returns every
    room of the last row has its south wall and every room of the last
    column its east wall; no room has a north or west wall, the first row
    and the first column included. *)
Theorem recursiveDivision_borders fuel h w g :
  0 < h <= GoInt.max_int -> 0 < w <= GoInt.max_int ->
  h + w <= Z.of_nat fuel ->
  exists m g',
    recursiveDivision fuel h w g = Ok (m, g') /\
    (forall x, 0 <= x < w ->
       Bottom (Walls (load m (InGrid x (h - 1)))) = true /\
       Top (Walls (load m (InGrid x 0))) = false) /\
    (forall y, 0 <= y < h ->
       Right (Walls (load m (InGrid (w - 1) y))) = true /\
       Left (Walls (load m (InGrid 0 y))) = false).
Proof.
  intros Hh Hw Hfuel.
  destruct (recursiveDivision_run fuel h w g Hh Hw Hfuel)
    as (m & g' & Hrun & _ & Hsouth & Heast).
  pose proof (recursiveDivision_oneSided _ _ _ _ _ _ Hrun) as Hone.
  exists m, g'. split; [done|]. split.
  - intros x Hx. split; [by apply Hsouth|apply Hone].
  - intros y Hy. split; [by apply Heast|apply Hone].
Qed.

Lemma recursiveDivision_borders_witness :
  exists m g',
    recursiveDivision 4 2 2 zeros = Ok (m, g') /\
    Bottom (Walls (load m (InGrid 1 (2 - 1)))) = true /\
    Right (Walls (load m (InGrid (2 - 1) 0))) = true /\
    Left (Walls (load m (InGrid 0 0))) = false.
Proof.
  destruct (recursiveDivision_borders 4 2 2 zeros)
    as (m & g' & Hrun & Hsouth & Heast);
    [unfold GoInt.max_int; simpl; lia..|].
  exists m, g'. split; [exact Hrun|].
  split; [apply (Hsouth 1); lia|]. split; apply (Heast 0); lia.
Defined.

(** ** The generators on a grid without rooms *)

Lemma Perm_zero g : Perm g 0 = Ok ([], g).
Proof. done. Qed.

(** X23: Without rows or columns the generators part ways: the recursive
    division and Prim panic ([Width] on a grid without rows, [rand.Intn]
    with bound 0), the backtracker panics at its first [GetRoom] unless a
    coordinate of the start is negative, and Kruskal, which has no edge to
    list, returns the grid as it is. *)
Theorem generators_on_empty_grid :
  (forall fuel h w g, h <= 0 \/ w < 0 -> recursiveDivision fuel h w g = Panic) /\
  (forall fuel h w wd, h <= 0 \/ w <= 0 -> prim fuel h w wd = Panic) /\
  (forall fuel m x y g,
     rooms m = [] -> 0 <= x -> 0 <= y ->
     carvePassagesFrom (Datatypes.S fuel) m x y g = Panic) /\
  (forall NewSource fuel m g,
     rooms m = [] -> exists g', kruskal NewSource fuel m g = Ok (m, g')).
Proof.
  split; [|split; [|split]].
  - intros fuel h w g Hbad. unfold recursiveDivision.
    destruct (decide (h = 0)) as [->|Hne]; [done|].
    rewrite emptyMaze_negative; [done|lia].
  - intros fuel h w wd Hbad. unfold prim.
    destruct (decide (h = 0)) as [->|Hne]; [done|].
    destruct (decide (h < 0 \/ w < 0)) as [Hneg|Hpos].
    { rewrite emptyMaze_negative; [done|lia]. }
    assert (w = 0) as -> by lia.
    rewrite emptyMaze_spec by lia. cbn [mbind res_bind]. unfold primFrom.
    rewrite Width_blankGrid by lia. done.
  - intros fuel m x y g Hnil Hx Hy. cbn [carvePassagesFrom].
    destruct (Perm_spec g 4 ltac:(lia)) as (p & g1 & Hp & Hperm).
    pose proof (Perm_bounds g 4 p g1 Hp) as Hb.
    rewrite Hp. cbn [mbind res_bind].
    destruct p as [|i p].
    { apply Permutation_length in Hperm. done. }
    apply Forall_cons in Hb as [Hi _].
    destruct (DIRECTIONS_lookup i Hi) as [d Hd].
    assert (Hget : GetRoom m x y = Panic).
    { unfold GetRoom, Width. rewrite Hnil.
      by replace ((x <? 0) || (y <? 0)) with false by lia. }
    cbn [carveLoop]. by rewrite Hd, Hget.
  - intros NewSource fuel m g Hnil. unfold kruskal, Int63n.
    destruct (Intn_spec g 99 ltac:(lia)) as (seed & -> & _).
    cbn [mbind res_bind]. unfold kruskalEdges.
    assert (Hh : Height m = 0) by (unfold Height; by rewrite Hnil).
    rewrite Hh, Perm_zero. cbn [mbind res_bind foldM length].
    change (Z.of_nat 0) with 0. rewrite Perm_zero.
    cbn [mbind res_bind foldM kmaze]. by eexists.
Qed.

Lemma generators_on_empty_grid_witness :
  recursiveDivision 3 0 2 counting = Panic /\
  prim 3 2 0 (mkWorld counting counting) = Panic /\
  carvePassagesFrom 1 (blankGrid 0 0) 0 0 counting = Panic /\
  exists g', kruskal countingFrom 3 (blankGrid 0 0) counting
             = Ok (blankGrid 0 0, g').
Proof.
  destruct generators_on_empty_grid as (H1 & H2 & H3 & H4).
  split; [apply H1; lia|]. split; [apply H2; lia|].
  split; [apply H3; [reflexivity|lia|lia]|]. apply H4. reflexivity.
Defined.

(** ** Kruskal: the forest *)

Lemma rootIn_lt h k t r : rootIn h k t r -> (t < length h)%nat /\ (r < length h)%nat.
Proof.
  induction 1 as [t Ht|k t p r Ht _ [_ IH]].
  - apply lookup_lt_Some in Ht. done.
  - apply lookup_lt_Some in Ht. done.
Qed.

Lemma rootIn_root h k t r : rootIn h k t r -> h !! r = Some None.
Proof. by induction 1. Qed.

Lemma rootIn_functional h k t r :
  rootIn h k t r -> forall k' r', rootIn h k' t r' -> k = k' /\ r = r'.
Proof.
  induction 1 as [t Ht|k t p r Ht _ IH]; intros k' r' H'.
  - inversion H'; subst; [done|congruence].
  - inversion H' as [|k0 t0 p0 r0 Ht0 Hp0]; subst; [congruence|].
    assert (p0 = p) as -> by congruence.
    destruct (IH _ _ Hp0) as [-> ->]. done.
Qed.

(** [root] finds the root as soon as the fuel exceeds the length of the
    path. *)
Lemma root_spec h k t r :
  rootIn h k t r -> forall fuel, (k < fuel)%nat -> root fuel h t = Ok r.
Proof.
  induction 1 as [t Ht|k t p r Ht _ IH]; intros fuel Hfuel;
    (destruct fuel as [|fuel]; [lia|]); cbn [root]; rewrite Ht; [done|].
  apply IH. lia.
Qed.

(** The nodes on the way to the root are all different, so the way is
    shorter than the heap. *)
Lemma rootIn_path h k t r :
  rootIn h k t r ->
  exists l : list nat,
    length l = Datatypes.S k /\ NoDup l /\
    forall u, u ∈ l ->
      (u < length h)%nat /\ exists k', (k' <= k)%nat /\ rootIn h k' u r.
Proof.
  induction 1 as [t Ht|k t p r Ht Hp (l & Hlen & Hnd & Hl)].
  - exists [t]. split; [done|]. split; [apply NoDup_singleton|].
    intros u Hu. apply list_elem_of_singleton in Hu as ->.
    split; [by apply lookup_lt_Some in Ht|]. exists 0%nat. split; [done|].
    by constructor.
  - exists (t :: l). split; [by rewrite length_cons, Hlen|]. split.
    + apply NoDup_cons. split; [|done]. intros Hin.
      destruct (Hl t Hin) as (_ & k' & Hk' & Hroot).
      assert (Hroot' : rootIn h (Datatypes.S k) t r) by (by econstructor).
      destruct (rootIn_functional _ _ _ _ Hroot _ _ Hroot') as [-> _]. lia.
    + intros u Hu. apply elem_of_cons in Hu as [->|Hu].
      * split; [by apply lookup_lt_Some in Ht|].
        exists (Datatypes.S k). split; [done|]. by econstructor.
      * destruct (Hl u Hu) as (Hlt & k' & Hk' & Hroot).
        split; [done|]. exists k'. split; [lia|done].
Qed.

Lemma rootIn_short h k t r : rootIn h k t r -> (k < length h)%nat.
Proof.
  intros H. destruct (rootIn_path h k t r H) as (l & Hlen & Hnd & Hl).
  assert (Hsub : l ⊆+ seq 0 (length h)).
  { apply NoDup_submseteq; [done|]. intros u Hu.
    apply elem_of_seq. destruct (Hl u Hu) as [? _]. lia. }
  apply submseteq_length in Hsub. rewrite length_seq in Hsub. lia.
Qed.

(** A new node is a root; the old nodes keep their roots. *)
Lemma rootIn_push h k t r : rootIn h k t r -> rootIn (h ++ [None]) k t r.
Proof.
  induction 1 as [t Ht|k t p r Ht _ IH].
  - constructor. by apply lookup_app_l_Some.
  - econstructor; [by apply lookup_app_l_Some|done].
Qed.

Lemma rootIn_new h : rootIn (h ++ [None]) 0 (length h) (length h).
Proof. constructor. by apply list_lookup_middle. Qed.

(** Hanging the root [rn] below the node [tc] leaves the trees with
    another root as they are. *)
Lemma rootIn_link_other h rn tc k t r :
  rootIn h k t r -> r <> rn -> h !! rn = Some None ->
  rootIn (<[rn := Some tc]> h) k t r.
Proof.
  intros H Hne Hrn. induction H as [t Ht|k t p r Ht _ IH].
  - constructor. etrans; [apply list_lookup_insert_ne; congruence|done].
  - econstructor; [|by apply IH].
    etrans; [apply list_lookup_insert_ne; congruence|done].
Qed.

(** The nodes of the tree of [rn] end up in the tree of [tc]. *)
Lemma rootIn_link_same h rn tc kc rc k t :
  rootIn h k t rn ->
  rootIn (<[rn := Some tc]> h) kc tc rc ->
  rootIn (<[rn := Some tc]> h) (k + Datatypes.S kc) t rc.
Proof.
  intros H Hc. remember rn as r eqn:Hr.
  induction H as [t Ht|k t p r Ht Hp IH]; subst.
  - econstructor; [|exact Hc].
    apply list_lookup_insert_eq. by apply lookup_lt_Some in Ht.
  - cbn [Nat.add]. econstructor; [|by apply IH].
    etrans; [apply list_lookup_insert_ne|exact Ht].
    apply rootIn_root in Hp. congruence.
Qed.

(** ** Kruskal: the map of trees *)

Lemma mget_app {K V} `{EqDecision K} (k : K) (m : list (K * V)) kv :
  mget k (m ++ [kv])
  = match mget k m with
    | Some v => Some v
    | None => if decide (kv.1 = k) then Some kv.2 else None
    end.
Proof.
  unfold mget. induction m as [|[k0 v0] m IH]; cbn [app find fst].
  - destruct (decide (kv.1 = k)) as [He|He].
    + by rewrite bool_decide_eq_true_2.
    + by rewrite bool_decide_eq_false_2.
  - destruct (bool_decide (k0 = k)); [done|]. exact IH.
Qed.

Lemma mset_fresh {K V} `{EqDecision K} (k : K) (v : V) m :
  mget k m = None -> mset k v m = m ++ [(k, v)].
Proof. intros H. unfold mset. by rewrite H. Qed.

(** What [ensureTree] leaves behind: the key has a node, the other keys
    have the node they had, and the heap is a forest still. *)
Lemma ensureTree_spec b h key :
  forest b h ->
  exists b' h' t,
    ensureTree b h key = (b', h') /\ forest b' h' /\
    mget key b' = Some t /\
    (forall key' t', mget key' b = Some t' -> mget key' b' = Some t') /\
    (forall k t r, rootIn h k t r -> rootIn h' k t r) /\
    (length h' <= Datatypes.S (length h))%nat /\
    (mget key b = Some t /\ b' = b /\ h' = h \/
     mget key b = None /\ b' = b ++ [(key, length h)] /\ h' = h ++ [None] /\
     t = length h).
Proof.
  intros [Hb Hh]. unfold ensureTree.
  destruct (mget key b) as [t|] eqn:Hget.
  - exists b, h, t. repeat split; try done; [lia|by left].
  - rewrite (mset_fresh key _ b Hget).
    exists (b ++ [(key, length h)]), (h ++ [None]), (length h).
    split; [done|]. split; [split|].
    + intros key' t'. rewrite mget_app, length_app. cbn [length fst snd].
      destruct (mget key' b) as [t0|] eqn:H0.
      * intros [= <-]. apply Hb in H0. lia.
      * case_decide; [|done]. intros [= <-]. lia.
    + intros t. rewrite length_app. cbn [length]. intros Ht.
      destruct (decide (t = length h)) as [->|Hne].
      * eexists _, _. apply rootIn_new.
      * destruct (Hh t ltac:(lia)) as (k & r & Hr).
        exists k, r. by apply rootIn_push.
    + split.
      { rewrite mget_app, Hget. cbn [fst snd]. by rewrite decide_True. }
      split.
      { intros key' t' H'. by rewrite mget_app, H'. }
      split; [intros; by apply rootIn_push|].
      split; [rewrite length_app; cbn [length]; lia|].
      right. done.
Qed.

(** ** Kruskal: one round *)

Lemma joined_opens m m' b h : opens m m' -> joined m b h -> joined m' b h.
Proof.
  intros Ho Hj ax ay bx by_ ta tb ka kb r Ha Hb Hra Hrb.
  eapply connected_opens; [exact Ho|]. by eapply Hj.
Qed.

(** [ensureTree] for the key [ptrOf] makes of a room pointer. *)
Lemma ensure_grove m b h al p key al' :
  grove m b h al -> ptrOf p al = (key, al') ->
  exists b' h' t,
    ensureTree b h key = (b', h') /\ grove m b' h' al' /\
    mget key b' = Some t /\
    (forall key' t', mget key' b = Some t' -> mget key' b' = Some t') /\
    (forall k t r, rootIn h k t r -> rootIn h' k t r) /\
    (length h' <= Datatypes.S (length h))%nat /\
    (p = Fresh ->
     rootIn h' 0 t t /\
     forall ax ay ta ka, mget (AtCell ax ay) b' = Some ta ->
                         ~ rootIn h' ka ta t).
Proof.
  intros (Hf & Hal & Hj) Hptr.
  destruct (ensureTree_spec b h key Hf)
    as (b' & h' & t & Hens & Hf' & Hget & Hkeep & Hroots & Hlen & Hcase).
  exists b', h', t. split; [done|].
  assert (Hfresh : p = Fresh -> mget key b = None).
  { intros ->. injection Hptr as <- <-.
    destruct (mget (Alloc al) b) as [t0|] eqn:H0; [|done].
    apply Hal in H0. lia. }
  assert (Hmono : (al <= al')%nat).
  { destruct p; injection Hptr as <- <-; lia. }
  assert (Hal' : forall n t0, mget (Alloc n) b' = Some t0 -> (n < al')%nat).
  { intros n t0 Hn.
    destruct Hcase as [(_ & -> & _)|(Hnone & -> & _ & _)].
    - apply Hal in Hn. lia.
    - rewrite mget_app in Hn. cbn [fst snd] in Hn.
      destruct (mget (Alloc n) b) as [t1|] eqn:H1.
      + apply Hal in H1. lia.
      + case_decide as Hk; [|done]. subst key.
        destruct p; injection Hptr as Hk <-; [done|]. lia. }
  destruct Hf as [Hrange Hwf].
  assert (Hold : forall t0 k0 r, (t0 < length h)%nat ->
            rootIn (h ++ [None]) k0 t0 r ->
            rootIn h k0 t0 r /\ (r < length h)%nat).
  { intros t0 k0 r Ht0 Hr0. destruct (Hwf t0 Ht0) as (k1 & r1 & Hr1).
    pose proof (rootIn_push _ _ _ _ Hr1) as Hr1'.
    destruct (rootIn_functional _ _ _ _ Hr0 _ _ Hr1') as [-> ->].
    split; [done|]. by apply rootIn_lt in Hr1 as [_ ?]. }
  assert (Hnew : forall k0 r, rootIn (h ++ [None]) k0 (length h) r ->
                              r = length h).
  { intros k0 r Hr0.
    by destruct (rootIn_functional _ _ _ _ Hr0 _ _ (rootIn_new h)). }
  assert (Hj' : joined m b' h').
  { destruct Hcase as [(_ & -> & ->)|(Hnone & -> & -> & ->)]; [done|].
    intros ax ay bx by_ ta tb ka kb r Ha Hb Hra Hrb.
    rewrite mget_app in Ha, Hb. cbn [fst snd] in Ha, Hb.
    destruct (mget (AtCell ax ay) b) as [ta0|] eqn:Ha0,
             (mget (AtCell bx by_) b) as [tb0|] eqn:Hb0.
    - injection Ha as ->. injection Hb as ->.
      destruct (Hold ta ka r (Hrange _ _ Ha0) Hra) as [Hra' _].
      destruct (Hold tb kb r (Hrange _ _ Hb0) Hrb) as [Hrb' _].
      by eapply Hj.
    - injection Ha as ->. case_decide as Hk; [|done]. injection Hb as <-.
      destruct (Hold ta ka r (Hrange _ _ Ha0) Hra) as [_ Hlt].
      apply Hnew in Hrb. lia.
    - injection Hb as ->. case_decide as Hk; [|done]. injection Ha as <-.
      destruct (Hold tb kb r (Hrange _ _ Hb0) Hrb) as [_ Hlt].
      apply Hnew in Hra. lia.
    - case_decide as Hk; [|done]. subst key.
      case_decide as Hk'; [|done]. injection Hk' as -> ->. done. }
  split; [done|]. split; [done|]. split; [done|]. split; [done|].
  split; [done|]. intros Hp.
  destruct Hcase as [(Hsome & _)|(_ & -> & -> & ->)].
  { rewrite (Hfresh Hp) in Hsome. done. }
  split; [apply rootIn_new|].
  intros ax ay ta ka Ha Hra. subst p. injection Hptr as <- <-.
  rewrite mget_app in Ha. cbn [fst snd] in Ha.
  destruct (mget (AtCell ax ay) b) as [ta0|] eqn:Ha0.
  - injection Ha as ->.
    destruct (Hold ta ka _ (Hrange _ _ Ha0) Hra) as [_ Hlt]. lia.
  - case_decide as Hk; done.
Qed.

(** Linking two trees whose rooms have just been joined; the tree of a
    room allocated outside of the grid holds no room of the grid. *)
Lemma link_grove m m' b h al x y nk tc tn kc kn rc rn :
  grove m b h al ->
  mget (AtCell x y) b = Some tc -> mget nk b = Some tn ->
  rootIn h kc tc rc -> rootIn h kn tn rn -> rc <> rn ->
  opens m m' ->
  match nk with
  | AtCell nx ny => connected m' (nx, ny) (x, y)
  | Alloc _ => forall ax ay ta ka, mget (AtCell ax ay) b = Some ta ->
                                   ~ rootIn h ka ta rn
  end ->
  grove m' b (<[rn := Some tc]> h) al.
Proof.
  intros ((Hrange & Hwf) & Hal & Hj) Hc Hn Hrc Hrn Hne Ho Hpass.
  pose proof (rootIn_root _ _ _ _ Hrn) as Hrnroot.
  pose proof (rootIn_link_other h rn tc _ _ _ Hrc Hne Hrnroot) as Hrc'.
  assert (Hnew : forall t k r,
            rootIn h k t r ->
            exists k' r', rootIn (<[rn := Some tc]> h) k' t r' /\
                          r' = (if decide (r = rn) then rc else r)).
  { intros t k r Hr. case_decide as Hd.
    - subst r. eexists _, _. split; [|done]. by eapply rootIn_link_same.
    - eexists _, _. split; [|done]. by apply rootIn_link_other. }
  assert (Hlen : length (<[rn := Some tc]> h) = length h)
    by apply length_insert.
  split; [split|split; [done|]].
  - intros key t Hk. rewrite Hlen. by eapply Hrange.
  - intros t. rewrite Hlen. intros Ht.
    destruct (Hwf t Ht) as (k & r & Hr).
    destruct (Hnew t k r Hr) as (k' & r' & Hr' & _). by exists k', r'.
  - intros ax ay bx by_ ta tb ka kb r Ha Hb Hra Hrb.
    destruct (Hwf ta (Hrange _ _ Ha)) as (ka0 & ra0 & Hra0).
    destruct (Hwf tb (Hrange _ _ Hb)) as (kb0 & rb0 & Hrb0).
    destruct (Hnew _ _ _ Hra0) as (ka1 & ra1 & Hra1 & Era).
    destruct (Hnew _ _ _ Hrb0) as (kb1 & rb1 & Hrb1 & Erb).
    destruct (rootIn_functional _ _ _ _ Hra _ _ Hra1) as [_ ->].
    destruct (rootIn_functional _ _ _ _ Hrb _ _ Hrb1) as [_ Heq].
    assert (Hlift : forall p q, connected m p q -> connected m' p q)
      by (intros; by eapply connected_opens).
    destruct (decide (ra0 = rn)) as [->|Ha0], (decide (rb0 = rn)) as [->|Hb0].
    + apply Hlift. by eapply Hj.
    + subst ra1 rb1. subst rb0.
      destruct nk as [nx ny|n]; [|by destruct (Hpass _ _ _ _ Ha Hra0)].
      etrans; [apply Hlift; by eapply (Hj ax ay nx ny)|].
      etrans; [by apply Hpass|]. apply Hlift. by eapply (Hj x y bx by_).
    + subst ra1 rb1. subst ra0.
      destruct nk as [nx ny|n]; [|by destruct (Hpass _ _ _ _ Hb Hrb0)].
      etrans; [apply Hlift; by eapply (Hj ax ay x y)|].
      etrans; [apply connected_sym; by apply Hpass|].
      apply Hlift. by eapply (Hj nx ny bx by_).
    + subst ra1 rb1. subst rb0. apply Hlift. by eapply Hj.
Qed.

(** The mark of the backtracker does not touch the walls. *)
Lemma wallsAt_markVisited m p x y :
  wallsAt (update m p markVisited) x y = wallsAt m x y.
Proof.
  unfold wallsAt. rewrite roomAt_update. case_decide; [|done].
  by destruct (roomAt m x y).
Qed.

Lemma Symmetric_walls m1 m2 :
  (forall x y, wallsAt m2 x y = wallsAt m1 x y) -> Symmetric m1 -> Symmetric m2.
Proof.
  intros Hw Hsym x y d sa sb. rewrite !Hw. apply Hsym.
Qed.

Lemma passage_walls m1 m2 a b :
  (forall x y, wallsAt m2 x y = wallsAt m1 x y) ->
  passage m1 a b -> passage m2 a b.
Proof.
  intros Hw (d & -> & Hopen). exists d. split; [done|].
  apply openBetween_walls. setoid_rewrite Hw. by apply openBetween_walls.
Qed.

Lemma update_Fresh m f : update m Fresh f = m.
Proof. done. Qed.

(** The two writes of a round of [kruskal] that links two trees. *)
Lemma link_symmetric m x y d nr :
  Symmetric m ->
  nr = InGrid (x + DX d) (y + DY d) \/
  (nr = Fresh /\ wallsAt m (x + DX d) (y + DY d) = None) ->
  Symmetric (update (update m (InGrid x y) (RmWall d)) nr
                    (RmWall (OPPOSITE d))).
Proof.
  intros Hsym [->|[-> Hnone]].
  - eapply Symmetric_walls; [|apply (carve_step_symmetric m (InGrid x y) x y d);
                               [done|by left]].
    intros x0 y0. by rewrite wallsAt_markVisited.
  - rewrite update_Fresh.
    pose proof (carve_step_symmetric m Fresh (x + DX d) (y + DY d)
                  (OPPOSITE d) Hsym (or_intror (conj eq_refl Hnone))) as H.
    destruct (step_back x y d) as [Hx Hy].
    rewrite Hx, Hy, OPPOSITE_OPPOSITE, update_Fresh in H.
    eapply Symmetric_walls; [|exact H].
    intros x0 y0. by rewrite wallsAt_markVisited.
Qed.

Lemma link_passage m x y d :
  is_Some (roomAt m x y) -> is_Some (roomAt m (x + DX d) (y + DY d)) ->
  passage (update (update m (InGrid x y) (RmWall d))
                  (InGrid (x + DX d) (y + DY d)) (RmWall (OPPOSITE d)))
          (x, y) (x + DX d, y + DY d).
Proof.
  intros Ha Hb. eapply passage_walls; [|by apply (carve_step_passage m x y d)].
  intros x0 y0. by rewrite wallsAt_markVisited.
Qed.

Lemma link_opens m cr nr d :
  opens m (update (update m cr (RmWall d)) nr (RmWall (OPPOSITE d))).
Proof. eapply opens_trans; apply opens_RmWall. Qed.

Lemma inside_false_outside m x y :
  regular m = true -> inside m x y = false -> outside m x y = true.
Proof.
  unfold regular, inside, outside, Width.
  destruct (rooms m) as [|row rs]; [done|]. lia.
Qed.

(** One round of the second loop of [kruskal], for an edge that starts in
    the grid: it returns, keeps the forest, has only opened walls, and
    has either joined the two rooms of the edge or, when the edge leaves
    the grid, taken the wall of the edge down. *)
Lemma kruskalStep_spec fuel edges st i x y d :
  edges !! Z.to_nat i = Some (x, y, d) ->
  regular (kmaze st) = true -> fitsInt (kmaze st) = true ->
  inside (kmaze st) x y = true ->
  grove (kmaze st) (trees st) (heap st) (allocs st) ->
  (length (heap st) + 2 <= fuel)%nat ->
  exists st',
    kruskalStep fuel edges st i = Ok st' /\
    grove (kmaze st') (trees st') (heap st') (allocs st') /\
    (length (heap st') <= length (heap st) + 2)%nat /\
    opens (kmaze st) (kmaze st') /\
    (Symmetric (kmaze st) -> Symmetric (kmaze st')) /\
    (if inside (kmaze st) (x + DX d) (y + DY d)
     then connected (kmaze st') (x, y) (x + DX d, y + DY d)
     else wall d (Walls (load (kmaze st') (InGrid x y))) = false).
Proof.
  intros Hedge Hreg Hfit Hin Hgrove Hfuel.
  destruct st as [m b h al]. cbn [kmaze trees heap allocs] in *.
  pose proof (proj1 (proj1 (regular_spec m) Hreg)) as Hrect.
  unfold kruskalStep. rewrite Hedge. cbn [kmaze trees heap allocs].
  rewrite (GetRoom_inside m x y Hrect Hin). cbn [mbind res_bind].
  destruct (step_from_inside m x y d Hfit Hin) as [-> ->].
  cbn [ptrOf].
  destruct (ensure_grove m b h al (InGrid x y) (AtCell x y) al Hgrove eq_refl)
    as (b1 & h1 & tc & -> & Hg1 & Hc1 & Hkeep1 & Hroots1 & Hlen1 & _).
  set (nx := x + DX d) in *. set (ny := y + DY d) in *.
  assert (Hnr : exists nr e nk al2,
            GetRoom m nx ny = Ok (nr, e) /\ ptrOf nr al = (nk, al2) /\
            (inside m nx ny = true /\ nr = InGrid nx ny /\ nk = AtCell nx ny \/
             inside m nx ny = false /\ nr = Fresh /\
             wallsAt m nx ny = None)).
  { destruct (inside m nx ny) eqn:Hn.
    - exists (InGrid nx ny), None, (AtCell nx ny), al.
      split; [by apply GetRoom_inside|]. split; [done|]. by left.
    - pose proof (inside_false_outside m nx ny Hreg Hn) as Hout.
      exists Fresh, (Some ErrOutside), (Alloc al), (Datatypes.S al).
      split; [by apply GetRoom_outside|]. split; [done|]. right.
      split; [done|]. split; [done|]. by apply outside_wallsAt. }
  destruct Hnr as (nr & e & nk & al2 & -> & Hptr & Hcase).
  cbn [mbind res_bind]. rewrite Hptr.
  destruct (ensure_grove m b1 h1 al nr nk al2 Hg1 Hptr)
    as (b2 & h2 & tn & -> & Hg2 & Hn2 & Hkeep2 & Hroots2 & Hlen2 & Hfresh).
  pose proof (Hkeep2 _ _ Hc1) as Hc2.
  destruct Hg2 as ((Hrange & Hwf) & Hal & Hj).
  destruct (Hwf tc (Hrange _ _ Hc2)) as (kc & rc & Hrc).
  destruct (Hwf tn (Hrange _ _ Hn2)) as (kn & rn & Hrn).
  assert (Hfuel2 : (length h2 <= fuel)%nat) by lia.
  assert (Hrootc : root fuel h2 tc = Ok rc).
  { eapply root_spec; [exact Hrc|]. apply rootIn_short in Hrc. lia. }
  assert (Hrootn : root fuel h2 tn = Ok rn).
  { eapply root_spec; [exact Hrn|]. apply rootIn_short in Hrn. lia. }
  unfold isConnected, connect, nodeOf. rewrite Hc2, Hn2.
  cbn [mbind res_bind]. rewrite Hrootc, Hrootn. cbn [mbind res_bind].
  case_bool_decide as Hsame.
  - (* the two rooms are in one tree already *)
    eexists. split; [done|]. cbn [kmaze trees heap allocs].
    split; [done|]. split; [lia|]. split; [apply opens_refl|].
    split; [done|].
    destruct Hcase as [(-> & _ & ->)|(-> & -> & _)].
    + subst rn. by eapply (Hj x y nx ny).
    + exfalso. destruct (Hfresh eq_refl) as [Hroot Hnone].
      destruct (rootIn_functional _ _ _ _ Hrn _ _ Hroot) as [_ ->].
      subst rc. by eapply Hnone.
  - (* the trees are linked and the wall comes down *)
    eexists. split; [done|]. cbn [kmaze trees heap allocs].
    assert (Hlen : length (<[rn := Some tc]> h2) = length h2)
      by apply length_insert.
    split; [|split; [lia|]; split; [apply link_opens|]; split].
    + eapply (link_grove m _ b2 h2 al2 x y nk tc tn kc kn rc rn);
        [done|done|done|done|done|done|apply link_opens|].
      destruct Hcase as [(Hn & -> & ->)|(Hn & -> & _)].
      * apply connected_sym, rtc_once.
        apply link_passage; by apply roomAt_inside.
      * destruct nk as [? ?|n]; [done|].
        destruct (Hfresh eq_refl) as [Hroot Hnone].
        destruct (rootIn_functional _ _ _ _ Hrn _ _ Hroot) as [_ ->].
        exact Hnone.
    + intros Hsym. apply link_symmetric; [done|].
      destruct Hcase as [(_ & -> & _)|(_ & -> & Hnone)]; [by left|by right].
    + destruct Hcase as [(Hn & -> & _)|(-> & -> & _)].
      * rewrite Hn. apply rtc_once. apply link_passage; by apply roomAt_inside.
      * rewrite update_Fresh.
        rewrite load_update_same by (by apply roomAt_inside).
        cbn [RmWall Walls]. rewrite wall_setWall. by rewrite decide_True.
Qed.

(** ** Kruskal: the second loop *)

Lemma kruskalLoop_spec fuel edges m0 (p : list Z) : forall st,
  shape (kmaze st) = shape m0 ->
  regular m0 = true -> fitsInt m0 = true ->
  Forall (fun i => exists x y d, edges !! Z.to_nat i = Some (x, y, d) /\
                                 inside m0 x y = true) p ->
  grove (kmaze st) (trees st) (heap st) (allocs st) ->
  (length (heap st) + 2 * length p <= fuel)%nat ->
  exists st',
    foldM (kruskalStep fuel edges) st p = Ok st' /\
    opens (kmaze st) (kmaze st') /\
    (Symmetric (kmaze st) -> Symmetric (kmaze st')) /\
    Forall (fun i => forall x y d,
              edges !! Z.to_nat i = Some (x, y, d) ->
              if inside m0 (x + DX d) (y + DY d)
              then connected (kmaze st') (x, y) (x + DX d, y + DY d)
              else wall d (Walls (load (kmaze st') (InGrid x y))) = false) p.
Proof.
  induction p as [|i p IH]; intros st Hshape Hreg Hfit Hp Hgrove Hfuel.
  { exists st. split; [done|]. split; [apply opens_refl|]. by split. }
  apply Forall_cons in Hp as [(x & y & d & Hedge & Hin) Hp].
  cbn [length] in Hfuel.
  destruct (kruskalStep_spec fuel edges st i x y d Hedge)
    as (st1 & Hstep & Hgrove1 & Hlen1 & Hopens1 & Hsym1 & Hdone);
    [by apply (regular_shape m0)|by rewrite (fitsInt_shape _ m0)
    |by rewrite (inside_shape _ m0)|done|lia|].
  destruct (IH st1) as (st' & Hrun & Hopens & Hsym & Hall);
    [destruct Hopens1 as [-> _]; done|done|done|done|done|lia|].
  exists st'. rewrite foldM_cons, Hstep. cbn [mbind res_bind].
  split; [done|]. split; [by eapply opens_trans|]. split; [auto|].
  apply Forall_cons. split; [|done].
  intros x' y' d'. rewrite Hedge. intros [= <- <- <-].
  rewrite (inside_shape _ m0) in Hdone by done.
  destruct (inside m0 (x + DX d) (y + DY d)).
  - by eapply connected_opens.
  - destruct Hopens as [_ Hq]. by apply (Hq (InGrid x y)).
Qed.

Lemma grove_nil m : grove m [] [] 0.
Proof.
  split; [split|split]; try done.
  intros t Ht. cbn [length] in Ht. lia.
Qed.

(** [kruskal] on a grid of equal, existing rows: once the fuel covers two
    nodes per candidate edge it returns, it has only taken walls down,
    and every north or west edge of a room has either joined the room to
    its neighbour or, at the border, lost its wall. *)
Lemma kruskal_run NewSource fuel m g :
  regular m = true -> fitsInt m = true ->
  (2 * length (northWestEdges m) <= fuel)%nat ->
  exists m' g',
    kruskal NewSource fuel m g = Ok (m', g') /\ opens m m' /\
    (Symmetric m -> Symmetric m') /\
    forall x y d,
      inside m x y = true -> d = N \/ d = W ->
      if inside m (x + DX d) (y + DY d)
      then connected m' (x, y) (x + DX d, y + DY d)
      else wall d (Walls (load m' (InGrid x y))) = false.
Proof.
  intros Hreg Hfit Hfuel. unfold kruskal, Int63n.
  destruct (Intn_spec g 99 ltac:(lia)) as (seed & -> & _).
  cbn [mbind res_bind].
  destruct (kruskalEdges_spec m (mkRand (NewSource seed) 0))
    as (edges & r1 & -> & Hedges).
  cbn [mbind res_bind].
  destruct (Perm_spec r1 (Z.of_nat (length edges)) ltac:(lia))
    as (p & r2 & -> & Hp).
  cbn [mbind res_bind].
  assert (Hlen : length p = length (northWestEdges m)).
  { rewrite Hp, <- Hedges. unfold upto.
    rewrite length_fmap, length_seq. lia. }
  destruct (kruskalLoop_spec fuel edges m p (mkKruskalState m [] [] 0))
    as (st' & -> & Hopens & Hsym & Hall);
    [done|done|done| |apply grove_nil|cbn [heap length]; lia|].
  { apply Forall_forall. intros i Hi. rewrite Hp in Hi.
    apply upto_elem in Hi.
    destruct (lookup_lt_is_Some_2 edges (Z.to_nat i) ltac:(lia))
      as [[[x y] d] He].
    exists x, y, d. split; [done|].
    apply list_elem_of_lookup_2 in He. rewrite Hedges in He.
    by apply northWestEdges_elem in He as [He _]. }
  cbn [mbind res_bind kmaze] in *.
  eexists _, _. split; [done|]. split; [done|]. split; [done|].
  intros x y d Hin Hd.
  assert (He : (x, y, d) ∈ edges).
  { rewrite Hedges. by apply northWestEdges_elem. }
  apply list_elem_of_lookup_1 in He as [k Hk].
  assert (Hi : Z.of_nat k ∈ p).
  { rewrite Hp. apply upto_elem. apply lookup_lt_Some in Hk.
    split; [lia|]. apply Nat2Z.inj_lt. exact Hk. }
  rewrite Forall_forall in Hall. apply (Hall _ Hi).
  by rewrite Nat2Z.id.
Qed.

(** ** Kruskal: the maze *)

(** X24: [kruskal] terminates.  On every grid of equal, existing rows, for
    every state of the generator and every seeded source, it returns once
    the fuel for the walks of [root] covers two tree nodes per candidate
    edge; the maze it returns has the shape of the grid, no wall the grid
    did not have, and the marks of the grid. *)
Theorem kruskal_returns NewSource fuel m g :
  regular m = true -> fitsInt m = true ->
  (2 * length (northWestEdges m) <= fuel)%nat ->
  exists m' g', kruskal NewSource fuel m g = Ok (m', g') /\ opens m m'.
Proof.
  intros Hreg Hfit Hfuel.
  destruct (kruskal_run NewSource fuel m g Hreg Hfit Hfuel)
    as (m' & g' & Hrun & Hopens & _).
  by exists m', g'.
Qed.

Lemma kruskal_returns_witness :
  exists m' g',
    kruskal countingFrom 16 closedSquare counting = Ok (m', g') /\
    opens closedSquare m'.
Proof.
  apply (kruskal_returns countingFrom 16 closedSquare counting);
    [reflexivity|reflexivity|vm_compute; lia].
Defined.

(** X25: The maze of [kruskal] is connected: any two rooms of the grid are
    joined by a chain of passages, each with the wall down on both of its
    sides. *)
Theorem kruskal_maze_connected NewSource fuel m g :
  regular m = true -> fitsInt m = true ->
  (2 * length (northWestEdges m) <= fuel)%nat ->
  exists m' g',
    kruskal NewSource fuel m g = Ok (m', g') /\
    forall a b c d,
      inside m a b = true -> inside m c d = true ->
      connected m' (a, b) (c, d).
Proof.
  intros Hreg Hfit Hfuel.
  destruct (kruskal_run NewSource fuel m g Hreg Hfit Hfuel)
    as (m' & g' & Hrun & _ & _ & Hedges).
  exists m', g'. split; [done|]. intros a b c d Hab Hcd.
  apply (closed_covers m (fun x y => connected m' (a, b) (x, y)) a b);
    [|done|done|done].
  intros x y dir Hin Hreach Hnext.
  etrans; [exact Hreach|]. clear Hreach.
  assert (Hnw : forall x y dir,
            inside m x y = true -> dir = N \/ dir = W ->
            inside m (x + DX dir) (y + DY dir) = true ->
            connected m' (x, y) (x + DX dir, y + DY dir)).
  { intros x0 y0 dir0 Hin0 Hdir0 Hnext0.
    pose proof (Hedges x0 y0 dir0 Hin0 Hdir0) as H.
    by rewrite Hnext0 in H. }
  clear Hedges.
  destruct (decide (dir = N \/ dir = W)) as [Hdir|Hdir]; [by apply Hnw|].
  apply connected_sym.
  pose proof (Hnw (x + DX dir) (y + DY dir) (OPPOSITE dir) Hnext) as H.
  destruct (step_back x y dir) as [Hx Hy]. rewrite Hx, Hy in H.
  apply H; [|done]. destruct dir; cbn [OPPOSITE]; tauto.
Qed.

Lemma kruskal_maze_connected_witness :
  exists m' g',
    kruskal countingFrom 16 closedSquare counting = Ok (m', g') /\
    forall a b c d,
      inside closedSquare a b = true -> inside closedSquare c d = true ->
      connected m' (a, b) (c, d).
Proof.
  apply (kruskal_maze_connected countingFrom 16 closedSquare counting);
    [reflexivity|reflexivity|vm_compute; lia].
Defined.

(** X26: [kruskal] opens the north and the west border.  Its candidate edges
    include the north edge of every room of the first row and the west
    edge of every room of the first column; the room behind such an edge
    is a fresh one, in no tree yet, so the wall of the edge is taken
    down: in the maze returned no room of the first row has a north wall
    and no room of the first column a west wall. *)
Theorem kruskal_removes_border_walls NewSource fuel m g :
  regular m = true -> fitsInt m = true ->
  (2 * length (northWestEdges m) <= fuel)%nat ->
  exists m' g',
    kruskal NewSource fuel m g = Ok (m', g') /\
    (forall x, inside m x 0 = true ->
               Top (Walls (load m' (InGrid x 0))) = false) /\
    (forall y, inside m 0 y = true ->
               Left (Walls (load m' (InGrid 0 y))) = false).
Proof.
  intros Hreg Hfit Hfuel.
  destruct (kruskal_run NewSource fuel m g Hreg Hfit Hfuel)
    as (m' & g' & Hrun & _ & _ & Hedges).
  exists m', g'. split; [done|]. split.
  - intros x Hin. pose proof (Hedges x 0 N Hin (or_introl eq_refl)) as H.
    cbn [DX DY] in H.
    replace (inside m (x + 0) (0 + -1)) with false in H; [done|].
    symmetry. apply not_true_iff_false. rewrite inside_bounds. lia.
  - intros y Hin. pose proof (Hedges 0 y W Hin (or_intror eq_refl)) as H.
    cbn [DX DY] in H.
    replace (inside m (0 + -1) (y + 0)) with false in H; [done|].
    symmetry. apply not_true_iff_false. rewrite inside_bounds. lia.
Qed.

Lemma kruskal_removes_border_walls_witness :
  exists m' g',
    kruskal countingFrom 16 closedSquare counting = Ok (m', g') /\
    (forall x, inside closedSquare x 0 = true ->
               Top (Walls (load m' (InGrid x 0))) = false) /\
    (forall y, inside closedSquare 0 y = true ->
               Left (Walls (load m' (InGrid 0 y))) = false).
Proof.
  apply (kruskal_removes_border_walls countingFrom 16 closedSquare counting);
    [reflexivity|reflexivity|vm_compute; lia].
Defined.

(** X27: [kruskal] keeps wall symmetry: it takes a wall down on both of its
    sides, so on a grid whose adjacent rooms agree on the wall between
    them, the rooms of the maze returned agree as well. *)
Theorem kruskal_keeps_symmetry NewSource fuel m g :
  regular m = true -> fitsInt m = true ->
  (2 * length (northWestEdges m) <= fuel)%nat ->
  symmetric m = true ->
  exists m' g',
    kruskal NewSource fuel m g = Ok (m', g') /\ symmetric m' = true.
Proof.
  intros Hreg Hfit Hfuel Hsym.
  destruct (kruskal_run NewSource fuel m g Hreg Hfit Hfuel)
    as (m' & g' & Hrun & _ & Hkeeps & _).
  exists m', g'. split; [done|]. apply Symmetric_symmetric, Hkeeps.
  apply symmetric_Symmetric; [|done]. by apply regular_spec in Hreg as [? _].
Qed.

Lemma kruskal_keeps_symmetry_witness :
  exists m' g',
    kruskal countingFrom 16 closedSquare counting = Ok (m', g') /\
    symmetric m' = true.
Proof.
  apply (kruskal_keeps_symmetry countingFrom 16 closedSquare counting);
    [reflexivity|reflexivity|vm_compute; lia|reflexivity].
Defined.

(** ** Maps kept as lists *)

Lemma mget_replace {V} (k k' : RoomRef) (v : V) (m : list (RoomRef * V)) :
  mget k' ((fun kv => if decide (fst kv = k) then (k, v) else kv) <$> m)
  = if decide (k' = k) then (fun _ => v) <$> mget k m else mget k' m.
Proof.
  unfold mget. induction m as [|[k0 v0] m IH]; [by case_decide|].
  cbn [fmap list_fmap find fst].
  destruct (decide (k0 = k)) as [->|Hne]; cbn [fst].
  - destruct (decide (k' = k)) as [->|Hne'].
    + by rewrite !bool_decide_eq_true_2.
    + rewrite !bool_decide_eq_false_2 by done. exact IH.
  - destruct (decide (k' = k)) as [->|Hne'].
    + rewrite !bool_decide_eq_false_2 by done. exact IH.
    + destruct (bool_decide (k0 = k')); [done|exact IH].
Qed.

Lemma mget_mset {V} (k k' : RoomRef) (v : V) m :
  mget k' (mset k v m) = if decide (k' = k) then Some v else mget k' m.
Proof.
  unfold mset. destruct (mget k m) as [v0|] eqn:Hk.
  - rewrite mget_replace, Hk. by case_decide.
  - rewrite mget_app. cbn [fst snd].
    destruct (decide (k' = k)) as [->|Hne].
    + by rewrite Hk, decide_True.
    + destruct (mget k' m); [done|]. by rewrite decide_False.
Qed.

Lemma mget_keys {V} (k : RoomRef) (m : list (RoomRef * V)) :
  is_Some (mget k m) <-> k ∈ (fst <$> m).
Proof.
  unfold mget. induction m as [|[k0 v0] m IH].
  - cbn. split; [by intros [? [=]]|by intros ?%elem_of_nil].
  - cbn [fmap list_fmap find fst]. rewrite elem_of_cons.
    destruct (decide (k0 = k)) as [->|Hne].
    + rewrite bool_decide_eq_true_2 by done. split; [by left|by eauto].
    + rewrite bool_decide_eq_false_2 by done. rewrite IH.
      split; [by right|]. by intros [->|?].
Qed.

Lemma keys_mset {V} (k : RoomRef) (v : V) m :
  fst <$> mset k v m
  = if mget k m is Some _ then fst <$> m else (fst <$> m) ++ [k].
Proof.
  unfold mset. destruct (mget k m) as [v0|].
  - rewrite <- list_fmap_compose. apply list_fmap_ext.
    intros i [k0 v1] _. cbn. by case_decide.
  - by rewrite fmap_app.
Qed.

Lemma keys_mdelete {V} (k : RoomRef) (m : list (RoomRef * V)) :
  fst <$> mdelete k m = filter (fun k' => k' <> k) (fst <$> m).
Proof.
  unfold mdelete. induction m as [|[k0 v0] m IH]; [done|].
  cbn [fmap list_fmap fst]. rewrite !filter_cons. cbn [fst].
  case_decide; cbn [fmap list_fmap fst]; by rewrite IH.
Qed.

Lemma isIn_mset inn r k :
  isIn (mset r true inn) k = if decide (k = r) then true else isIn inn k.
Proof. unfold isIn. rewrite mget_mset. by case_decide. Qed.

(** Ranging over a map visits every entry once. *)
Lemma omap_lookup_seq {A} (pre l : list A) :
  omap (fun i : Z => (pre ++ l) !! Z.to_nat i)
       (Z.of_nat <$> seq (length pre) (length l)) = l.
Proof.
  revert pre. induction l as [|a l IH]; intros pre; [done|].
  cbn [length seq fmap list_fmap omap list_omap].
  rewrite Nat2Z.id, list_lookup_middle by done. f_equal.
  specialize (IH (pre ++ [a])).
  rewrite <- app_assoc, length_app in IH. cbn [app length] in IH.
  by rewrite Nat.add_1_r in IH.
Qed.

Lemma mrange_spec {V} rt (f : list (RoomRef * V)) :
  exists order rt', mrange rt f = Ok (order, rt') /\ order ≡ₚ f.
Proof.
  unfold mrange.
  destruct (Perm_spec rt (Z.of_nat (length f)) ltac:(lia))
    as (p & rt' & -> & Hp).
  cbn [mbind res_bind]. eexists _, _. split; [done|].
  rewrite Hp. unfold upto. rewrite Nat2Z.id.
  apply (reflexive_eq (R := (≡ₚ))). apply (omap_lookup_seq [] f).
Qed.

(** ** Prim: the pieces of a round *)

(** [randomRoom] returns a key of a map that has one; on the empty map
    [rand.Intn(0)] panics. *)
Lemma randomRoom_spec f w :
  f <> [] ->
  exists r w', randomRoom f w = Ok (r, w') /\ r ∈ (fst <$> f).
Proof.
  intros Hne. unfold randomRoom.
  destruct (mrange_spec (mapiter w) f) as (order & rt & -> & Horder).
  cbn [mbind res_bind].
  assert (Hlen : length (fst <$> order) = length f).
  { by rewrite length_fmap, Horder. }
  destruct (Intn_spec (rnd w) (Z.of_nat (length (fst <$> order))))
    as (i & -> & Hi).
  { rewrite Hlen. destruct f; [done|]. cbn [length]. lia. }
  cbn [mbind res_bind].
  destruct (lookup_lt_is_Some_2 (fst <$> order) (Z.to_nat i) ltac:(lia))
    as [r Hr].
  rewrite Hr. eexists _, _. split; [done|].
  apply list_elem_of_lookup_2 in Hr. by rewrite Horder in Hr.
Qed.

Lemma randomRoom_empty w : randomRoom [] w = Panic.
Proof. done. Qed.

Lemma inGrid_nil m : inGrid m [].
Proof. intros k Hk. by apply elem_of_nil in Hk. Qed.

Lemma inGrid_mset m f a b l :
  inGrid m f -> inside m a b = true -> inGrid m (mset (InGrid a b) l f).
Proof.
  intros Hf Hin k. rewrite keys_mset.
  destruct (mget (InGrid a b) f); [apply Hf|].
  rewrite elem_of_app, list_elem_of_singleton. intros [Hk| ->]; [by apply Hf|].
  by exists a, b.
Qed.

Lemma inGrid_mdelete m f r : inGrid m f -> inGrid m (mdelete r f).
Proof.
  intros Hf k. rewrite keys_mdelete. intros [_ Hk]%list_elem_of_filter.
  by apply Hf.
Qed.

Lemma inGrid_perm m f f' : f' ≡ₚ f -> inGrid m f -> inGrid m f'.
Proof. intros Hp Hf k. rewrite Hp. apply Hf. Qed.

Lemma inGrid_shape m m' f : shape m' = shape m -> inGrid m f -> inGrid m' f.
Proof.
  intros Hs Hf k Hk. destruct (Hf k Hk) as (x & y & -> & Hin).
  exists x, y. split; [done|]. by rewrite (inside_shape m' m).
Qed.

(** [neighbors] returns on every grid of equal, existing rows, with at
    most four rooms, all of the grid. *)
Lemma neighbors_returns m x y :
  regular m = true ->
  exists nbs, neighbors m x y = Ok nbs /\ inGrid m nbs /\
              (length nbs <= 4)%nat.
Proof.
  intros Hreg. unfold neighbors.
  assert (Hstep : forall a b (f : list (RoomRef * loc)) l,
            inGrid m f ->
            exists room err,
              GetRoom m a b = Ok (room, err) /\
              inGrid m (if err is None then mset room l f else f) /\
              (length (if err is None then mset room l f else f)
               <= Datatypes.S (length f))%nat).
  { intros a b f l Hf.
    destruct (GetRoom_regular m a b Hreg) as [[room [e|]] Hget].
    - exists room, (Some e). split; [done|]. split; [done|lia].
    - exists room, None. split; [done|].
      apply GetRoom_ok_inv in Hget as [-> Hin].
      split; [by apply inGrid_mset|].
      unfold mset. destruct (mget _ f).
      + rewrite length_fmap. lia.
      + rewrite length_app. cbn [length]. lia. }
  destruct (Hstep x (y -i 1) [] (x, y -i 1) (inGrid_nil m))
    as (r1 & e1 & -> & Hf1 & Hl1).
  cbn [mbind res_bind].
  destruct (Hstep (x -i 1) y _ (x -i 1, y) Hf1) as (r2 & e2 & -> & Hf2 & Hl2).
  cbn [mbind res_bind].
  destruct (Hstep x (y +i 1) _ (x, y +i 1) Hf2) as (r3 & e3 & -> & Hf3 & Hl3).
  cbn [mbind res_bind].
  destruct (Hstep (x +i 1) y _ (x +i 1, y) Hf3) as (r4 & e4 & -> & Hf4 & Hl4).
  cbn [mbind res_bind].
  eexists. split; [done|]. split; [done|].
  eapply Nat.le_trans; [exact Hl4|]. apply -> Nat.succ_le_mono.
  eapply Nat.le_trans; [exact Hl3|]. apply -> Nat.succ_le_mono.
  eapply Nat.le_trans; [exact Hl2|]. apply -> Nat.succ_le_mono.
  exact Hl1.
Qed.

Lemma inGrid_addFrontiers m inn (order : list (RoomRef * loc)) : forall fr,
  inGrid m fr -> inGrid m order -> inGrid m (addFrontiers inn fr order).
Proof.
  unfold addFrontiers.
  induction order as [|[n nb] order IH]; intros fr Hfr Horder; [done|].
  cbn [foldl]. apply IH.
  - destruct (isIn inn n); [done|].
    destruct (Horder n) as (a & b & -> & Hin); [apply elem_of_cons; by left|].
    by apply inGrid_mset.
  - intros k Hk. apply Horder. cbn [fmap list_fmap]. apply elem_of_cons.
    by right.
Qed.

Lemma stale_addFrontiers inn (order : list (RoomRef * loc)) : forall fr,
  stale (addFrontiers inn fr order) inn = stale fr inn.
Proof.
  unfold addFrontiers.
  induction order as [|[n nb] order IH]; intros fr; [done|].
  cbn [foldl]. rewrite IH. destruct (isIn inn n) eqn:Hn; [done|].
  unfold stale. rewrite keys_mset. destruct (mget n fr); [done|].
  rewrite filter_app, length_app, filter_cons, decide_False by congruence.
  cbn. lia.
Qed.

Lemma connectFirst_opens m r l inn order :
  opens m (connectFirst m r l inn order).
Proof.
  induction order as [|[n nb] order IH]; [apply opens_refl|].
  cbn [connectFirst]. destruct (isIn inn n); [apply link_opens|done].
Qed.

(** ** Prim: termination *)

(** A round takes a room out of the frontier for good or puts a room of
    the grid into [in]: the rooms not in [in] plus the rooms of the
    frontier that are in [in] get fewer. *)
Lemma round_measure m m' (fr : list (RoomRef * loc)) inn r :
  shape m' = shape m -> inGrid m fr -> r ∈ (fst <$> fr) ->
  (notIn m' (mset r true inn) + stale (mdelete r fr) (mset r true inn)
   < notIn m inn + stale fr inn)%nat.
Proof.
  intros Hs Hfr Hr. unfold notIn, stale.
  rewrite (cells_shape m' m Hs), keys_mdelete, list_filter_filter.
  assert (Hstale :
    forall k, k ∈ (fst <$> fr) ->
      isIn (mset r true inn) k = true /\ k <> r -> isIn inn k = true).
  { intros k _ [Hk Hne]. rewrite isIn_mset in Hk. by rewrite decide_False in Hk. }
  assert (HnotIn :
    forall c, c ∈ cells m ->
      isIn (mset r true inn) (InGrid c.1 c.2) = false ->
      isIn inn (InGrid c.1 c.2) = false).
  { intros c _ Hc. rewrite isIn_mset in Hc. by case_decide. }
  destruct (isIn inn r) eqn:Hin.
  - pose proof (filter_length_le _ _ (cells m) HnotIn) as H1.
    pose proof (filter_length_lt _ _ (fst <$> fr) r Hstale Hr Hin
                  ltac:(by intros [_ ?])) as H2.
    lia.
  - destruct (Hfr r Hr) as (x & y & -> & Hxy).
    pose proof (filter_length_le _ _ (fst <$> fr) Hstale) as H2.
    assert (Hc : (x, y) ∈ cells m) by by apply cells_elem.
    pose proof (filter_length_lt _ _ (cells m) (x, y) HnotIn Hc Hin) as H1.
    cbn [fst snd] in H1. rewrite isIn_mset, decide_True in H1 by done.
    specialize (H1 ltac:(done)). lia.
Qed.

Lemma primLoop_cons fuel m fr inn w :
  fr <> [] ->
  primLoop (Datatypes.S fuel) m fr inn w
  = ('(r, w) ← randomRoom fr w;
     match mget r fr with
     | None => Panic
     | Some l =>
         let inn := mset r true inn in
         let frontiers := mdelete r fr in
         nbs ← neighbors m (fst l) (snd l);
         '(order, rt) ← mrange (mapiter w) nbs;
         let m := connectFirst m r l inn order in
         '(order, rt) ← mrange rt nbs;
         let frontiers := addFrontiers inn frontiers order in
         primLoop fuel m frontiers inn (mkWorld (rnd w) rt)
     end).
Proof. by destruct fr. Qed.

(** The loop of [prim] terminates on every grid of equal, existing rows,
    and has only taken walls down. *)
Lemma primLoop_returns fuel : forall m fr inn w,
  regular m = true -> inGrid m fr ->
  (notIn m inn + stale fr inn < fuel)%nat ->
  exists m' w', primLoop fuel m fr inn w = Ok (m', w') /\ opens m m'.
Proof.
  induction fuel as [|fuel IH]; intros m fr inn w Hreg Hfr Hfuel; [lia|].
  destruct (decide (fr = [])) as [->|Hne].
  { exists m, w. split; [done|apply opens_refl]. }
  rewrite primLoop_cons by done.
  destruct (randomRoom_spec fr w Hne) as (r & w1 & -> & Hr).
  cbn [mbind res_bind].
  destruct (proj2 (mget_keys r fr) Hr) as [l ->].
  destruct (neighbors_returns m l.1 l.2 Hreg) as (nbs & -> & Hnbs & _).
  cbn [mbind res_bind].
  destruct (mrange_spec (mapiter w1) nbs) as (order & rt & -> & Horder).
  cbn [mbind res_bind].
  destruct (mrange_spec rt nbs) as (order' & rt' & -> & Horder').
  cbn [mbind res_bind].
  pose proof (connectFirst_opens m r l (mset r true inn) order) as Hopens.
  pose proof (proj1 Hopens) as Hshape.
  destruct (IH (connectFirst m r l (mset r true inn) order)
               (addFrontiers (mset r true inn) (mdelete r fr) order')
               (mset r true inn) (mkWorld (rnd w1) rt'))
    as (m' & w' & Hrun & Hopens').
  - by apply (regular_shape m).
  - apply (inGrid_shape m); [done|].
    apply inGrid_addFrontiers; [by apply inGrid_mdelete|].
    by apply (inGrid_perm m nbs).
  - rewrite stale_addFrontiers.
    pose proof (round_measure m _ fr inn r Hshape Hfr Hr). lia.
  - exists m', w'. split; [done|]. by eapply opens_trans.
Qed.

Lemma NoDup_keys_mset {V} (k : RoomRef) (v : V) m :
  NoDup (fst <$> m) -> NoDup (fst <$> mset k v m).
Proof.
  intros Hnd. rewrite keys_mset. destruct (mget k m) eqn:Hk; [done|].
  apply NoDup_app. split; [done|]. split; [|apply NoDup_singleton].
  intros k' Hk' ->%list_elem_of_singleton.
  apply mget_keys in Hk' as [? ?]. congruence.
Qed.

Lemma NoDup_keys_foldl (order : list (RoomRef * loc)) : forall fr,
  NoDup (fst <$> fr) ->
  NoDup (fst <$> foldl (fun fr '(r, l) => mset r l fr) fr order).
Proof.
  induction order as [|[r l] order IH]; intros fr Hfr; [done|].
  cbn [foldl]. by apply IH, NoDup_keys_mset.
Qed.

Lemma inGrid_foldl m (order : list (RoomRef * loc)) : forall fr,
  inGrid m fr -> inGrid m order ->
  inGrid m (foldl (fun fr '(r, l) => mset r l fr) fr order).
Proof.
  induction order as [|[n nb] order IH]; intros fr Hfr Horder; [done|].
  cbn [foldl]. apply IH.
  - destruct (Horder n) as (a & b & -> & Hin); [apply elem_of_cons; by left|].
    by apply inGrid_mset.
  - intros k Hk. apply Horder. cbn [fmap list_fmap]. apply elem_of_cons.
    by right.
Qed.

Lemma filter_eq_NoDup (r : RoomRef) (l : list RoomRef) :
  NoDup l -> (length (filter (fun k => k = r) l) <= 1)%nat.
Proof.
  induction 1 as [|k l Hk _ IH]; [cbn; lia|].
  rewrite filter_cons. case_decide as Heq; [|lia]. subst k.
  destruct (filter (fun k => k = r) l) as [|a t] eqn:Hf; [cbn; lia|].
  assert (Ha : a ∈ filter (fun k => k = r) l) by (rewrite Hf; by left).
  apply list_elem_of_filter in Ha as [-> Ha]. done.
Qed.

Lemma length_bind_const {A B} (f : A -> list B) n (l : list A) :
  (forall a, length (f a) = n) -> length (l ≫= f) = (length l * n)%nat.
Proof.
  intros Hf. induction l as [|a l IH]; [done|].
  rewrite bind_cons, length_app, Hf, IH. cbn [length]. lia.
Qed.

Lemma length_cells m :
  length (cells m) = Z.to_nat (Height m * widthOf m).
Proof.
  assert (Hh : 0 <= Height m) by (unfold Height; lia).
  assert (Hw : 0 <= widthOf m).
  { unfold widthOf, Width. destruct (rooms m); lia. }
  unfold cells. rewrite (length_bind_const _ (Z.to_nat (widthOf m))).
  - unfold upto. rewrite length_fmap, length_seq. by rewrite Z2Nat.inj_mul.
  - intros y. rewrite (length_bind_const _ 1%nat) by done.
    unfold upto. rewrite length_fmap, length_seq. lia.
Qed.

(** [prim] from the grid on: it terminates on every grid of equal rows
    that has a room, and has only taken walls down. *)
Lemma primFrom_returns fuel m w :
  regular m = true -> 0 < widthOf m ->
  (length (cells m) < fuel)%nat ->
  exists m' w', primFrom fuel m w = Ok (m', w') /\ opens m m'.
Proof.
  intros Hreg Hwd Hfuel. unfold primFrom.
  pose proof (proj1 (proj1 (regular_spec m) Hreg)) as Hrect.
  rewrite (Width_widthOf m Hreg). cbn [mbind res_bind].
  destruct (Intn_spec (rnd w) (widthOf m) Hwd) as (x & -> & Hx).
  cbn [mbind res_bind].
  destruct (Intn_spec (mkRand (source (rnd w)) (Datatypes.S (consumed (rnd w))))
              (Height m) (regular_inside_height m Hreg)) as (y & -> & Hy).
  cbn [mbind res_bind].
  assert (Hin : inside m x y = true) by (apply inside_bounds; lia).
  rewrite (GetRoom_inside m x y Hrect Hin). cbn [mbind res_bind].
  destruct (neighbors_returns m x y Hreg) as (nbs & -> & Hnbs & _).
  cbn [mbind res_bind].
  destruct (mrange_spec (mapiter w) nbs) as (order & rt & -> & Horder).
  cbn [mbind res_bind].
  apply primLoop_returns; [done| |].
  - apply inGrid_foldl; [|by apply (inGrid_perm m nbs)].
    apply inGrid_mset; [apply inGrid_nil|done].
  - match goal with |- context [stale ?f _] => set (fr := f) end.
    assert (Hstale : (stale fr (mset (InGrid x y) true []) <= 1)%nat).
    { unfold stale.
      etrans; [|apply (filter_eq_NoDup (InGrid x y) (fst <$> fr))].
      - apply filter_length_le. intros k _. rewrite isIn_mset.
        by case_decide.
      - apply NoDup_keys_foldl. cbn. apply NoDup_singleton. }
    assert (HnotIn : (notIn m (mset (InGrid x y) true []) < length (cells m))%nat).
    { unfold notIn. apply (length_filter_lt _ _ (x, y)).
      - by apply cells_elem.
      - cbn [fst snd]. rewrite isIn_mset. by rewrite decide_True. }
    lia.
Qed.

(** ** Prim: the maze *)

(** X28: [prim] terminates, and generates no maze at all: for every positive
    height and width and every state of the generators it returns, and
    what it returns is the grid without walls that [emptyMaze] made, since
    there is no wall [RmWall] could take down. *)
Theorem prim_returns fuel h w wd :
  0 < h -> 0 < w -> (Z.to_nat (h * w) < fuel)%nat ->
  exists wd', prim fuel h w wd = Ok (blankGrid h w, wd').
Proof.
  intros Hh Hw Hfuel.
  destruct (primFrom_returns fuel (blankGrid h w) wd) as (m' & wd' & Hrun & _).
  - by apply blankGrid_regular.
  - unfold widthOf. rewrite Width_blankGrid by lia. done.
  - rewrite length_cells, Height_blankGrid by lia.
    unfold widthOf. rewrite Width_blankGrid by lia. done.
  - assert (Hprim : prim fuel h w wd = Ok (m', wd')).
    { unfold prim. rewrite emptyMaze_spec by lia. exact Hrun. }
    exists wd'. rewrite Hprim.
    by rewrite (prim_returns_blank fuel h w wd m' wd' Hprim).
Qed.

Lemma prim_returns_witness :
  exists wd', prim 5 2 2 (mkWorld counting counting) = Ok (blankGrid 2 2, wd').
Proof.
  apply (prim_returns 5 2 2 (mkWorld counting counting)); [lia|lia|].
  vm_compute. lia.
Defined.

(** ** The neighbours of a room *)

Lemma GetRoom_cases m x y :
  regular m = true ->
  GetRoom m x y
  = if inside m x y then Ok (InGrid x y, None)
    else Ok (Fresh, Some ErrOutside).
Proof.
  intros Hreg. destruct (inside m x y) eqn:Hin.
  - apply GetRoom_inside; [|done]. by apply regular_spec in Hreg as [? _].
  - by apply GetRoom_outside, inside_false_outside.
Qed.

(** The key is none of the keys of a map written out. *)
Ltac fresh_key :=
  unfold mget; cbn [app find fst];
  repeat (rewrite bool_decide_eq_false_2 by (intros [=]; lia)); done.

(** X29: [neighbors] of a room of the grid: the map holds, in the order of
    [DIRECTIONS], the rooms of the grid next to (x, y), each with its own
    coordinates, and nothing else; [direction] gives for each of them the
    direction it lies in. *)
Theorem neighbors_spec m x y :
  regular m = true -> fitsInt m = true -> inside m x y = true ->
  neighbors m x y
  = Ok ((fun d => (InGrid (x + DX d) (y + DY d), (x + DX d, y + DY d)))
          <$> filter (fun d => inside m (x + DX d) (y + DY d) = true)
                     DIRECTIONS) /\
  forall d, direction x y (x + DX d) (y + DY d) = d.
Proof.
  intros Hreg Hfit Hin. split.
  - unfold neighbors.
    change (y -i 1) with (y +i DY N). change (x -i 1) with (x +i DX W).
    change (y +i 1) with (y +i DY S). change (x +i 1) with (x +i DX E).
    rewrite (proj2 (step_from_inside m x y N Hfit Hin)),
            (proj1 (step_from_inside m x y W Hfit Hin)),
            (proj2 (step_from_inside m x y S Hfit Hin)),
            (proj1 (step_from_inside m x y E Hfit Hin)).
    rewrite !(GetRoom_cases m) by done.
    unfold DIRECTIONS. rewrite !filter_cons, filter_nil.
    cbn [DX DY]. rewrite !Z.add_0_r.
    destruct (inside m x (y + -1)), (inside m (x + -1) y),
             (inside m x (y + 1)), (inside m (x + 1) y);
      cbn [mbind res_bind];
      repeat first [rewrite decide_True by done
                   |rewrite decide_False by done];
      cbn [fmap list_fmap DX DY]; rewrite ?Z.add_0_r;
      change (mset ?k ?v []) with [(k, v)];
      rewrite ?(mset_fresh _ _ [_]) by fresh_key; cbn [app];
      rewrite ?(mset_fresh _ _ [_; _]) by fresh_key; cbn [app];
      rewrite ?(mset_fresh _ _ [_; _; _]) by fresh_key; cbn [app];
      reflexivity.
  - intros d. unfold direction. destruct d; cbn [DX DY]; 
      repeat match goal with
             | |- context [?a <? ?b] => destruct (Z.ltb_spec a b); try lia
             | |- context [?a >? ?b] =>
                 rewrite (Z.gtb_ltb a b); destruct (Z.ltb_spec b a); try lia
             end; done.
Qed.

Lemma neighbors_spec_witness :
  neighbors closedSquare 1 1
  = Ok ((fun d => (InGrid (1 + DX d) (1 + DY d), (1 + DX d, 1 + DY d)))
          <$> filter (fun d => inside closedSquare (1 + DX d) (1 + DY d) = true)
                     DIRECTIONS) /\
  forall d, direction 1 1 (1 + DX d) (1 + DY d) = d.
Proof.
  apply (neighbors_spec closedSquare 1 1); reflexivity.
Defined.

(** X30: [randomRoom] panics on the empty map, where [rand.Intn] is called
    with 0; on every other map it returns, and the room it returns is a
    key of the map. *)
Theorem randomRoom_picks_key f w :
  (f = [] -> randomRoom f w = Panic) /\
  (f <> [] ->
   exists r w' l, randomRoom f w = Ok (r, w') /\ mget r f = Some l).
Proof.
  split; [by intros ->|]. intros Hne.
  destruct (randomRoom_spec f w Hne) as (r & w' & Hrun & Hr).
  apply mget_keys in Hr as [l Hl]. by exists r, w', l.
Qed.
